(** * otp-kuroko: patch selection, build-and-publish pipeline, orchestrator

    A shallow embedding of [src/asset.ts] (both revisions kept in the
    repository snapshot) and [src/index.ts], and the properties of the
    specification checked against it.

    - JavaScript values the code computes with are modelled as data:
      numbers produced by [parseInt] as [num] (a double without fraction,
      [NaN], or the [undefined] a destructuring yields for a missing
      element), strings as [string], a string binding that a destructuring
      may leave [undefined] as [str], arrays as [list].
    - Everything outside the process (child processes, the file system, the
      release registry) is a field of [World]: oracles answer what the
      program asks, and [trace] records what the program did.
    - [async] functions are computations in [M], a state-and-exception
      monad over [World]; a promise that is created but not awaited is a
      value of type [promise]. *)

From Stdlib Require Import Bool List ZArith Lia Ascii String DecimalString.
From Stdlib Require DecimalPos.
Import ListNotations.
Local Open Scope string_scope.
Local Open Scope Z_scope.

Set Implicit Arguments.

(* ================================================================== *)
(** * JavaScript numbers as the patch rules see them *)
(* ================================================================== *)

Module JS.

(** The value of a [number]-typed binding at run time.  The numbers of the
    program are doubles without a fraction: [Num z] is the double whose
    value is the integer [z] (the two zeros are both [Num 0]), and
    [Num (2^1024)] and [Num (- 2^1024)] are the two infinities, which the
    comparisons below treat as the doubles do. *)
Inductive num : Type :=
| Undefined
| NaN
| Num (z : Z).

(** [a < b]: [undefined] converts to [NaN], and a comparison with [NaN] is
    false. *)
Definition lt (a b : num) : bool :=
  match a, b with
  | Num x, Num y => x <? y
  | _, _ => false
  end.

(** [a <= b] *)
Definition le (a b : num) : bool :=
  match a, b with
  | Num x, Num y => x <=? y
  | _, _ => false
  end.

(** [a == b] on numbers and [undefined]. *)
Definition eq_loose (a b : num) : bool :=
  match a, b with
  | Num x, Num y => x =? y
  | Undefined, Undefined => true
  | _, _ => false
  end.

(** [a === b]: no conversion happens between these values, so it agrees
    with [==] on them. *)
Definition eq_strict (a b : num) : bool :=
  match a, b with
  | Num x, Num y => x =? y
  | Undefined, Undefined => true
  | _, _ => false
  end.

(** ToBoolean: [undefined], [NaN] and zero are falsy. *)
Definition truthy (a : num) : bool :=
  match a with
  | Num z => negb (z =? 0)
  | _ => false
  end.

(** [a || b] *)
Definition or (a b : num) : num := if truthy a then a else b.

(** [xs[i]] on an array of numbers: [undefined] out of range. *)
Definition index (xs : list num) (i : nat) : num := nth i xs Undefined.

Definition is_number (a : num) : bool :=
  match a with Num _ => true | _ => false end.

(** The value of a [string]-typed binding that a destructuring may leave
    [undefined]. *)
Inductive str : Type :=
| Str (s : string)
| NoStr.

Coercion Str : string >-> str.

(** [xs[i]] on an array of strings. *)
Definition part (xs : list string) (i : nat) : str :=
  match nth_error xs i with
  | Some s => Str s
  | None => NoStr
  end.

(** ** Strings *)

Definition ascii_in (c : ascii) (cs : list ascii) : bool :=
  existsb (Ascii.eqb c) cs.

(** White space [parseInt] and [trim] skip, restricted to ASCII: TAB, LF,
    VT, FF, CR and SP. *)
Definition white_space : list ascii :=
  ["009"; "010"; "011"; "012"; "013"; " "]%char.

Fixpoint trimStart (s : string) : string :=
  match s with
  | String c r => if ascii_in c white_space then trimStart r else s
  | EmptyString => EmptyString
  end.

Definition digit (c : ascii) : option Z :=
  let n := Z.of_nat (nat_of_ascii c) in
  if (48 <=? n) && (n <=? 57) then Some (n - 48) else None.

(** The value of the longest prefix of decimal digits; [None] when the
    prefix is empty. *)
Fixpoint digits (s : string) (acc : option Z) : option Z :=
  match s with
  | String c r =>
      match digit c with
      | Some d =>
          digits r (Some (10 * (match acc with Some a => a | None => 0 end) + d))
      | None => acc
      end
  | EmptyString => acc
  end.

(** An optional sign in front of the digits. *)
Definition negative (s : string) : bool :=
  match s with
  | String c _ => Ascii.eqb c "-"
  | EmptyString => false
  end.

Definition unsigned (s : string) : string :=
  match s with
  | String c r => if Ascii.eqb c "-" || Ascii.eqb c "+" then r else s
  | EmptyString => s
  end.

(** The double nearest to the natural number [n] (IEEE 754 binary64: 53
    bits of significand, round to nearest, ties to even), as an integer.
    Up to [2^53] it is [n] itself.  What rounds to [2^1024] or more is
    infinite: [2^1024] stands for the infinity, which the comparisons of
    the program order above every double and equal to itself. *)
Definition round_magnitude (n : Z) : Z :=
  let e := Z.log2 n - 52 in
  if e <=? 0 then n
  else
    let q := Z.shiftr n e in
    let r := Z.land n (Z.ones e) in
    let half := Z.shiftl 1 (e - 1) in
    let q' := if r <? half then q
              else if half <? r then q + 1
              else if Z.even q then q else q + 1 in
    Z.min (Z.shiftl q' e) (2 ^ 1024).

Definition to_double (z : Z) : Z := Z.sgn z * round_magnitude (Z.abs z).

(** [parseInt(s, 10)] (ECMAScript 18.2.5 with R = 10): skip leading white
    space, read an optional sign, then the longest run of decimal digits;
    [NaN] when there is no digit; the number read is rounded to a
    double. *)
Definition parseInt (s : string) : num :=
  let s1 := trimStart s in
  match digits (unsigned s1) None with
  | Some n => Num (to_double (if negative s1 then - n else n))
  | None => NaN
  end.

(** A component of a version is numeric for the program when, after white
    space and a sign, it begins with a decimal digit. *)
Definition numeric (s : string) : bool :=
  match unsigned (trimStart s) with
  | String c _ => match digit c with Some _ => true | None => false end
  | EmptyString => false
  end.

(** [s.split(sep)] for a one-character separator: never empty. *)
Fixpoint split (sep : ascii) (s : string) : list string :=
  match s with
  | EmptyString => [EmptyString]
  | String c r =>
      if Ascii.eqb c sep then EmptyString :: split sep r
      else match split sep r with
           | h :: t => String c h :: t
           | [] => [String c EmptyString]
           end
  end.

(** [s.replace(/^p/, empty)] for a literal [p]: the prefix is removed. *)
Definition stripPrefix (p s : string) : string :=
  if String.prefix p s
  then String.substring (String.length p) (String.length s - String.length p) s
  else s.

(** ** Paths ([path.posix]) *)

Module Path.

Definition chars (s : string) : list ascii := list_ascii_of_string s.
Definition text (cs : list ascii) : string := string_of_list_ascii cs.

Definition is_slash (c : ascii) : bool := Ascii.eqb c "/".

Fixpoint dropWhile {A} (p : A -> bool) (xs : list A) : list A :=
  match xs with
  | x :: r => if p x then dropWhile p r else xs
  | [] => []
  end.

Fixpoint takeWhile {A} (p : A -> bool) (xs : list A) : list A :=
  match xs with
  | x :: r => if p x then x :: takeWhile p r else []
  | [] => []
  end.

Definition isAbsolute (p : string) : bool :=
  match p with String c _ => is_slash c | EmptyString => false end.

(** The path read backwards with its trailing slashes removed. *)
Definition trimmed_rev (p : string) : list ascii :=
  dropWhile is_slash (rev (chars p)).

(** [path.basename(p)] *)
Definition basename (p : string) : string :=
  text (rev (takeWhile (fun c => negb (is_slash c)) (trimmed_rev p))).

Definition endsWith (suffix s : string) : bool :=
  String.prefix (text (rev (chars suffix))) (text (rev (chars s))).

Definition dropEnd (n : nat) (s : string) : string :=
  String.substring 0 (String.length s - n) s.

(** [path.basename(p, ext)]: the extension is removed from the last
    component when that component ends with it and is not equal to it; a
    path equal to the extension gives the empty string. *)
Definition basename_ext (p ext : string) : string :=
  if (String.length ext =? 0)%nat || (String.length p <? String.length ext)%nat
  then basename p
  else if String.eqb ext p then EmptyString
  else
    let b := basename p in
    if endsWith ext b && negb (String.eqb ext b)
    then dropEnd (String.length ext) b
    else b.

(** The [dir] field of [path.parse(p)]: the text before the slash that
    precedes the last component, ["/"] when that slash is the root. *)
Definition parse_dir (p : string) : string :=
  let before := dropWhile (fun c => negb (is_slash c)) (trimmed_rev p) in
  match before with
  | [] => if isAbsolute p then "/" else EmptyString
  | _ :: r =>
      if isAbsolute p && (List.length before =? 1)%nat then "/" else text (rev r)
  end.

(** The [base] field of [path.parse(p)]. *)
Definition parse_base (p : string) : string := basename p.

(** [normalizeString]: drop empty and ["."] segments, resolve [".."]. *)
Fixpoint normalizeSegments (allowAboveRoot : bool) (segs acc : list string)
  : list string :=
  match segs with
  | [] => rev acc
  | s :: r =>
      if String.eqb s EmptyString || String.eqb s "." then
        normalizeSegments allowAboveRoot r acc
      else if String.eqb s ".." then
        match acc with
        | top :: below =>
            if String.eqb top ".."
            then normalizeSegments allowAboveRoot r (s :: acc)
            else normalizeSegments allowAboveRoot r below
        | [] =>
            if allowAboveRoot
            then normalizeSegments allowAboveRoot r [s]
            else normalizeSegments allowAboveRoot r []
        end
      else normalizeSegments allowAboveRoot r (s :: acc)
  end.

(** [path.normalize(p)] *)
Definition normalize (p : string) : string :=
  if String.eqb p EmptyString then "."
  else
    let absolute := isAbsolute p in
    let trailing := endsWith "/" p in
    let body :=
      String.concat "/" (normalizeSegments (negb absolute) (split "/" p) []) in
    if String.eqb body EmptyString then
      if absolute then "/" else if trailing then "./" else "."
    else
      let body := if trailing then body ++ "/" else body in
      if absolute then "/" ++ body else body.

(** [path.join(a, b)] *)
Definition join (a b : string) : string :=
  match String.eqb a EmptyString, String.eqb b EmptyString with
  | true, true => "."
  | true, false => normalize b
  | false, true => normalize a
  | false, false => normalize (a ++ "/" ++ b)
  end.

End Path.

(** ** Remaining string methods *)

Definition trimEnd (s : string) : string :=
  Path.text (rev (Path.dropWhile (fun c => ascii_in c white_space)
                                 (rev (Path.chars s)))).

(** [s.trim()] *)
Definition trim (s : string) : string := trimEnd (trimStart s).

Definition lower (c : ascii) : ascii :=
  let n := nat_of_ascii c in
  if ((65 <=? n) && (n <=? 90))%nat then ascii_of_nat (n + 32) else c.

(** [s.toLowerCase()] on ASCII text. *)
Fixpoint toLowerCase (s : string) : string :=
  match s with
  | String c r => String (lower c) (toLowerCase r)
  | EmptyString => EmptyString
  end.

(** [s.replace(" ", "-")]: a string pattern replaces its first occurrence
    only. *)
Fixpoint replaceFirstSpace (s : string) : string :=
  match s with
  | String c r => if Ascii.eqb c " " then String "-" r
                  else String c (replaceFirstSpace r)
  | EmptyString => EmptyString
  end.

(** [buffer.split(" ", 1)[0]] *)
Definition firstField (buffer : string) : string :=
  hd EmptyString (split " " buffer).

(** Decimal rendering of a number inside a template literal. *)
Definition decimal (z : Z) : string := NilZero.string_of_int (Z.to_int z).

End JS.

Import JS.

(* ================================================================== *)
(** * The world outside the process *)
(* ================================================================== *)

(** The three diffs of [asset.ts]; their text is opaque to the program,
    which only feeds it to [patch]. *)
Inductive patch : Type :=
| WxPtrPatch
| CatarinaNoWeakImportsPatch
| ZlibPatch.

(** One call of [exec] from [@actions/exec]. *)
Record exec_request : Type := mkExec {
  ex_cwd : string;
  ex_cmd : string;
  ex_args : list string;
  ex_input : option patch
}.

(** What the child process did: [ex_failure] is the message of the
    rejection ([exec] rejects on a non-zero exit code and when the tool
    cannot be started), [ex_lines] the lines it wrote to standard output. *)
Record exec_outcome : Type := mkOutcome {
  ex_failure : option string;
  ex_lines : list string
}.

(** [fs.Dirent] *)
Record dirent : Type := mkDirent {
  d_name : string;
  d_isDirectory : bool
}.

Record asset : Type := mkAsset {
  asset_id : Z;
  asset_name : string
}.

Record release : Type := mkRelease {
  rel_owner : string;
  rel_repo : string;
  rel_tag : string;
  rel_id : Z;
  rel_upload_url : string;
  rel_assets : list asset
}.

(** Values a [catch] clause can receive. *)
Inductive thrown : Type :=
| JsError (message : string)
    (* [new Error(message)] of the program itself *)
| TypeError (message : string)
| ExecError (message : string)
    (* rejection of [exec] *)
| RequestError (status : option Z) (message : string)
    (* rejection of an octokit request *)
| FsError (message : string)
    (* exception of a synchronous [fs] call *)
| NotAnError (text : string).
    (* a value that is not an instance of [Error] *)

(** What the program did, oldest first. *)
Inductive event : Type :=
| EvExec (req : exec_request)
| EvChdir (dir : string)
| EvWriteFile (path content : string)
| EvGetReleaseByTag (owner repo tag : string)
| EvCreateRelease (owner repo tag : string)
| EvListAssetsForRelease (owner repo : string) (release_id : Z)
| EvUploadReleaseAsset (url name : string) (size : Z) (path : string)
| EvStartGroup (name : string)
| EvEndGroup
| EvInfo (message : string)
| EvError (message : string)
| EvSetFailed (message : string).

(** Modelled from the spec: the release registry (section 6, "Release
    Registry API") is a remote service, not code of the repository.
    [registry] holds its release records; lookup by tag answers the record
    or a 404, creation answers a new record.  [api_fault t request], when
    present, is the rejection of [request], issued at time [t], for any
    other reason.  The error of a rejected request has members the model
    does not hold (the headers and the request, as the client recorded
    them): [JSON_of t e] is the text [JSON.stringify] prints for such a
    value [e] at time [t]. *)
Record World : Type := mkWorld {
  platform : string;                        (* [os.platform()] *)
  cpus : nat;                               (* [os.cpus().length] *)
  GITHUB_REPOSITORY : option string;        (* [process.env] *)
  getInput : string -> string;              (* [@actions/core] *)
  cwd : string;                             (* [process.cwd()] *)
  child_process : nat -> exec_request -> exec_outcome;
  readdir : nat -> string -> option (list dirent);
  stat_size : nat -> string -> option Z;
  registry : list release;
  next_id : Z;
  api_fault : nat -> event -> option thrown;
  JSON_of : nat -> thrown -> string;
  trace : list event
}.

(** The time of the next interaction. *)
Definition now (w : World) : nat := List.length (trace w).

Definition record (e : event) (w : World) : World :=
  mkWorld (platform w) (cpus w) (GITHUB_REPOSITORY w) (getInput w) (cwd w)
          (child_process w) (readdir w) (stat_size w) (registry w)
          (next_id w) (api_fault w) (JSON_of w) (trace w ++ [e]).

Definition set_cwd (dir : string) (w : World) : World :=
  mkWorld (platform w) (cpus w) (GITHUB_REPOSITORY w) (getInput w) dir
          (child_process w) (readdir w) (stat_size w) (registry w)
          (next_id w) (api_fault w) (JSON_of w) (trace w).

Definition set_registry (rs : list release) (next : Z) (w : World) : World :=
  mkWorld (platform w) (cpus w) (GITHUB_REPOSITORY w) (getInput w) (cwd w)
          (child_process w) (readdir w) (stat_size w) rs
          next (api_fault w) (JSON_of w) (trace w).

(* ================================================================== *)
(** * Computations: state and exceptions *)
(* ================================================================== *)

Inductive result (A : Type) : Type :=
| Ok (a : A)
| Throw (e : thrown).
Arguments Ok {A} a.
Arguments Throw {A} e.

(** An [async] function body, run to completion by [await]. *)
Definition M (A : Type) : Type := World -> World * result A.

Definition ret {A} (a : A) : M A := fun w => (w, Ok a).

Definition throw {A} (e : thrown) : M A := fun w => (w, Throw e).

Definition bind {A B} (m : M A) (k : A -> M B) : M B :=
  fun w =>
    match m w with
    | (w', Ok a) => k a w'
    | (w', Throw e) => (w', Throw e)
    end.

(** [try { m } catch (e) { handler e }] *)
Definition try_catch {A} (m : M A) (handler : thrown -> M A) : M A :=
  fun w =>
    match m w with
    | (w', Ok a) => (w', Ok a)
    | (w', Throw e) => handler e w'
    end.

(** [try { m } finally { f }] for a finaliser that cannot throw. *)
Definition try_finally {A} (m : M A) (f : World -> World) : M A :=
  fun w => let '(w', r) := m w in (f w', r).

Notation "x <- m ;; k" := (bind m (fun x => k))
  (at level 61, m at next level, right associativity).
Notation "m ;;; k" := (bind m (fun _ => k))
  (at level 61, right associativity).

Definition emit (e : event) : M unit := fun w => (record e w, Ok tt).

Definition ask {A} (f : World -> A) : M A := fun w => (w, Ok (f w)).

(** The value a promise settles to.  A promise that is not awaited stays a
    value: nothing of it reaches the computation that dropped it. *)
Definition promise (A : Type) : Type := result A.

(** Calling an [async] function without [await]: its effects start, and
    the caller gets the promise and no exception. *)
Definition async {A} (m : M A) : M (promise A) :=
  fun w => let '(w', r) := m w in (w', Ok r).

(** [await p] *)
Definition await {A} (p : promise A) : M A := fun w => (w, p).

(** An element of the array handed to [Promise.all]. *)
Inductive element (A : Type) : Type :=
| ElUndefined
| ElPromise (p : promise A).
Arguments ElUndefined {A}.
Arguments ElPromise {A} p.

(** [Promise.all(xs)]: rejected with the first rejection among the
    elements that are promises; an element that is not a promise counts as
    fulfilled. *)
Fixpoint Promise_all {A} (xs : list (element A)) : promise unit :=
  match xs with
  | [] => Ok tt
  | ElUndefined :: r => Promise_all r
  | ElPromise (Ok _) :: r => Promise_all r
  | ElPromise (Throw e) :: _ => Throw e
  end.

(** [xs.map(f)] for a callback with effects. *)
Fixpoint mapM {A B} (f : A -> M B) (xs : list A) : M (list B) :=
  match xs with
  | [] => ret []
  | x :: r => y <- f x ;; ys <- mapM f r ;; ret (y :: ys)
  end.

(** ** The collaborators *)

(** [exec(cmd, args, { input })]: the lines of standard output, or the
    rejection. *)
Definition exec (cmd : string) (args : list string) (input : option patch)
  : M (list string) :=
  fun w =>
    let req := mkExec (cwd w) cmd args input in
    let out := child_process w (now w) req in
    let w' := record (EvExec req) w in
    match ex_failure out with
    | Some message => (w', Throw (ExecError message))
    | None => (w', Ok (ex_lines out))
    end.

(** [process.chdir(dir)]; the program only enters directories it has just
    listed or was started in. *)
Definition chdir (dir : string) : M unit :=
  fun w => (record (EvChdir dir) (set_cwd dir w), Ok tt).

(** [readdirSync(dir, { withFileTypes: true })] *)
Definition readdirSync (dir : string) : M (list dirent) :=
  fun w =>
    match readdir w (now w) dir with
    | Some entries => (w, Ok entries)
    | None => (w, Throw (FsError ("ENOENT: no such file or directory, scandir " ++ dir)))
    end.

(** [statSync(path).size] *)
Definition statSync_size (path : string) : M Z :=
  fun w =>
    match stat_size w (now w) path with
    | Some size => (w, Ok size)
    | None => (w, Throw (FsError ("ENOENT: no such file or directory, stat " ++ path)))
    end.

(** [writeFileSync(path, content)] *)
Definition writeFileSync (path content : string) : M unit :=
  emit (EvWriteFile path content).

Definition release_has_tag (owner repo tag : string) (r : release) : bool :=
  String.eqb (rel_owner r) owner && String.eqb (rel_repo r) repo
  && String.eqb (rel_tag r) tag.

Definition release_has_id (owner repo : string) (id : Z) (r : release) : bool :=
  String.eqb (rel_owner r) owner && String.eqb (rel_repo r) repo
  && (rel_id r =? id).

Definition not_found : thrown := RequestError (Some 404) "Not Found".

(** [octokit.repos.getReleaseByTag] *)
Definition getReleaseByTag (owner repo tag : string) : M (Z * string) :=
  fun w =>
    let request := EvGetReleaseByTag owner repo tag in
    let w' := record request w in
    match api_fault w (now w) request with
    | Some e => (w', Throw e)
    | None =>
        match find (release_has_tag owner repo tag) (registry w) with
        | Some r => (w', Ok (rel_id r, rel_upload_url r))
        | None => (w', Throw not_found)
        end
    end.

Definition upload_url_of (id : Z) : string :=
  "https://uploads.github.com/releases/" ++ decimal id ++ "/assets".

(** [octokit.repos.createRelease] *)
Definition createReleaseRequest (owner repo tag : string) : M (Z * string) :=
  fun w =>
    let request := EvCreateRelease owner repo tag in
    let w' := record request w in
    match api_fault w (now w) request with
    | Some e => (w', Throw e)
    | None =>
        let id := next_id w in
        let r := mkRelease owner repo tag id (upload_url_of id) [] in
        (set_registry (registry w ++ [r]) (id + 1) w', Ok (id, upload_url_of id))
    end.

(** [octokit.repos.listAssetsForRelease] *)
Definition listAssetsForRelease (owner repo : string) (release_id : Z)
  : M (list asset) :=
  fun w =>
    let request := EvListAssetsForRelease owner repo release_id in
    let w' := record request w in
    match api_fault w (now w) request with
    | Some e => (w', Throw e)
    | None =>
        match find (release_has_id owner repo release_id) (registry w) with
        | Some r => (w', Ok (rel_assets r))
        | None => (w', Throw not_found)
        end
    end.

(** The client checks the parameters of a call before it sends anything
    ([@octokit/rest] 16, plugin [validate]): a required parameter that is
    [undefined] rejects the call with status 400, and no request is
    made. *)
Definition missing_parameter (name : string) : thrown :=
  RequestError (Some 400)
               ("Empty value for parameter '" ++ name ++ "': undefined").

Definition required {A} (name : string) (value : str) (request : string -> M A)
  : M A :=
  match value with
  | Str s => request s
  | NoStr => throw (missing_parameter name)
  end.

Definition add_asset (url : string) (a : asset) (r : release) : release :=
  if String.eqb (rel_upload_url r) url
  then mkRelease (rel_owner r) (rel_repo r) (rel_tag r) (rel_id r)
                 (rel_upload_url r) (rel_assets r ++ [a])
  else r.

(** [octokit.repos.uploadReleaseAsset]; the asset is entered in the
    registry when the request is made: nothing in the program depends on
    the moment the upload ends. *)
Definition uploadReleaseAsset (url name : string) (size : Z) (path : string)
  : M unit :=
  fun w =>
    let request := EvUploadReleaseAsset url name size path in
    let w' := record request w in
    match api_fault w (now w) request with
    | Some e => (w', Throw e)
    | None =>
        let a := mkAsset (next_id w) name in
        (set_registry (map (add_asset url a) (registry w)) (next_id w + 1) w',
         Ok tt)
    end.

(** [core.group(name, fn)]: [startGroup], the body, [endGroup] in a
    [finally]. *)
Definition group {A} (name : string) (fn : M A) : M A :=
  emit (EvStartGroup name) ;;;
  try_finally fn (record EvEndGroup).

(* ================================================================== *)
(** * [src/asset.ts] *)
(* ================================================================== *)

(** [e?.status] *)
Definition status (e : thrown) : option Z :=
  match e with
  | RequestError s _ => s
  | _ => None
  end.

(** [e.name] and [e.message] of an instance of [Error]. *)
Definition name_of (e : thrown) : string :=
  match e with
  | TypeError _ => "TypeError"
  | RequestError _ _ => "HttpError"
  | _ => "Error"
  end.

Definition message_of (e : thrown) : string :=
  match e with
  | JsError m | TypeError m | ExecError m | RequestError _ m | FsError m => m
  | NotAnError _ => EmptyString
  end.

Definition quoted (s : string) : string :=
  String (ascii_of_nat 34) (s ++ String (ascii_of_nat 34) EmptyString).

(** [JSON.stringify(e)]: the enumerable own properties.  An [Error] made
    with [new Error(message)] has none; any other value prints what it
    holds. *)
Definition JSON_stringify (w : World) (e : thrown) : string :=
  match e with
  | JsError _ | TypeError _ | ExecError _ => "{}"
  | RequestError _ _ | FsError _ | NotAnError _ => JSON_of w (now w) e
  end.

(** [e?.status !== 404] *)
Definition status_is_not_404 (e : thrown) : bool :=
  match status e with
  | Some s => negb (s =? 404)
  | None => true
  end.

Definition getRelease (owner : string) (repo : str) (tag : string)
  : M (option (Z * string)) :=
  try_catch
    (r <- required "repo" repo (fun repo => getReleaseByTag owner repo tag) ;;
     ret (Some r))
    (fun e =>
       if status_is_not_404 e
       then text <- ask (fun w => JSON_stringify w e) ;;
            throw (JsError ("Unexpected error occured: " ++ text))
       else ret None).

Definition createRelease (owner : string) (repo : str) (tag : string)
  : M (Z * string) :=
  required "repo" repo (fun repo => createReleaseRequest owner repo tag).

Definition applyPatch (p : patch) : M unit :=
  exec "patch" ["-p1"; "--quiet"] (Some p) ;;; ret tt.

Definition applyWxPtrPatch : M unit := applyPatch WxPtrPatch.

Definition applyCatarinaNoWeakImportsPatch : M unit :=
  applyPatch CatarinaNoWeakImportsPatch.

Definition applyZlibPatch : M unit := applyPatch ZlibPatch.

(** The test of [maybePatchDarwin]: [17 <= major && major <= 19]. *)
Definition maybePatchDarwin_test (major minor : num) (rest : list num) : bool :=
  le (Num 17) major && le major (Num 19).

Definition maybePatchDarwin (major minor : num) (rest : list num) : M unit :=
  if maybePatchDarwin_test major minor rest then applyWxPtrPatch else ret tt.

(** The test of [maybePatchCatalina]:
    [(19 < major && major < 23) || (major == 19 && 1 < minor) ||
     (major == 22 && minor == 3 && (rest[0] || 0) < 1)]. *)
Definition maybePatchCatalina_test (major minor : num) (rest : list num) : bool :=
  (lt (Num 19) major && lt major (Num 23))
  || (eq_loose major (Num 19) && lt (Num 1) minor)
  || (eq_loose major (Num 22) && eq_loose minor (Num 3)
      && lt (JS.or (index rest 0) (Num 0)) (Num 1)).

Definition maybePatchCatalina (major minor : num) (rest : list num) : M unit :=
  if maybePatchCatalina_test major minor rest
  then applyCatarinaNoWeakImportsPatch else ret tt.

(** The test of [maybePatchAll]: [17 <= major && major <= 19]. *)
Definition maybePatchAll_test (major minor : num) (rest : list num) : bool :=
  le (Num 17) major && le major (Num 19).

Definition maybePatchAll (major minor : num) (rest : list num) : M unit :=
  if maybePatchAll_test major minor rest then applyZlibPatch else ret tt.

(** The numbers of a tag: the prefix [OTP-] is removed, the text is split
    at every ["."], and [parseInt(s, 10)] is mapped over the pieces. *)
Definition versionNumbers (otpVersion : string) : list num :=
  map parseInt (split "." (stripPrefix "OTP-" otpVersion)).

(** [const [major, minor, ...rest] = ...] *)
Definition major_of (otpVersion : string) : num := index (versionNumbers otpVersion) 0.
Definition minor_of (otpVersion : string) : num := index (versionNumbers otpVersion) 1.
Definition rest_of (otpVersion : string) : list num := skipn 2 (versionNumbers otpVersion).

Definition maybePatch (otpVersion : string) : M unit :=
  let major := major_of otpVersion in
  let minor := minor_of otpVersion in
  let rest := rest_of otpVersion in
  p <- ask platform ;;
  (if String.eqb p "darwin"
   then maybePatchDarwin major minor rest ;;; maybePatchCatalina major minor rest
   else ret tt) ;;;
  maybePatchAll major minor rest.

Definition newline : string := String (ascii_of_nat 10) EmptyString.

(** What a [stdout] listener accumulates. *)
Definition stdout_text (lines : list string) : string :=
  String.concat EmptyString (map (fun l => l ++ newline) lines).

Definition make : M unit :=
  cpuCount <- ask cpus ;;
  p <- ask platform ;;
  sslOption <-
    (if String.eqb p "darwin"
     then lines <- exec "brew" ["--prefix"; "openssl"] None ;;
          ret ("--with-ssl=" ++ trim (stdout_text lines))
     else ret "--with-ssl") ;;
  group "otp_build" (exec "./otp_build" ["autoconf"] None) ;;;
  group "configure"
        (exec "./configure" [sslOption; "--enable-dirty-schedulers"] None) ;;;
  group "make" (exec "make" ["-j" ++ decimal (Z.of_nat cpuCount)] None) ;;;
  group "make release" (exec "make" ["release"] None) ;;;
  ret tt.

Definition no_sub_directory (releaseDirectory : string) : thrown :=
  JsError ("Expect a sub directory in " ++ releaseDirectory
           ++ " exists, but it doesn't.").

Definition too_many_directories (releaseDirectory : string)
           (subDirectories : list string) : thrown :=
  JsError ("Expect a sub directory in " ++ releaseDirectory
           ++ " exists, but it has too many directories named "
           ++ String.concat "," subDirectories ++ ".").

(** [readdirSync(...).filter(d => d.isDirectory()).map(d => d.name)] *)
Definition subDirectoriesOf (entries : list dirent) : list string :=
  map d_name (filter d_isDirectory entries).

Definition archive (assetName : string) : M string :=
  currentWorkingDirectory <- ask cwd ;;
  let releaseDirectory := Path.join currentWorkingDirectory "release" in
  entries <- readdirSync releaseDirectory ;;
  let subDirectories := subDirectoriesOf entries in
  if (List.length subDirectories <? 1)%nat then
    throw (no_sub_directory releaseDirectory)
  else if (1 <? List.length subDirectories)%nat then
    throw (too_many_directories releaseDirectory subDirectories)
  else
    let subDirectory := Path.join releaseDirectory (nth 0 subDirectories EmptyString) in
    let archivedPath := Path.join releaseDirectory assetName in
    chdir subDirectory ;;;
    exec "tar" ["-zcf"; archivedPath; "."] None ;;;
    chdir currentWorkingDirectory ;;;
    ret archivedPath.

Definition sha256FilePathOf (archivedPath : string) : string :=
  let dir := Path.parse_dir archivedPath in
  let base := Path.parse_base archivedPath in
  let sha256FileName := Path.basename_ext base ".tar.gz" ++ ".sha256.txt" in
  Path.join dir sha256FileName.

Definition sha256 (archivedPath : string) : M string :=
  let sha256FilePath := sha256FilePathOf archivedPath in
  lines <- exec "shasum" ["-a"; "256"; archivedPath] None ;;
  let buffer := String.concat EmptyString lines in
  let sha256 := firstField buffer in
  writeFileSync sha256FilePath sha256 ;;;
  ret sha256FilePath.

Definition uploadAsset (url name assetPath : string) : M unit :=
  size <- statSync_size assetPath ;;
  uploadReleaseAsset url name size assetPath.

(** [(await getRelease(...)) || (await createRelease(...))]: the pair
    [getRelease] answers is an array, hence truthy. *)
Definition getOrCreateRelease (owner : string) (repo : str) (tag : string)
  : M (Z * string) :=
  found <- getRelease owner repo tag ;;
  match found with
  | Some r => ret r
  | None => createRelease owner repo tag
  end.

(** [assets.find(asset => asset.name === assetName)?.id] *)
Definition findAssetId (assets : list asset) (assetName : string) : option Z :=
  let result := find (fun a => String.eqb (asset_name a) assetName) assets in
  option_map asset_id result.

Definition getAsset (owner : string) (repo : str) (releaseId : Z)
           (assetName : string)
  : M (option Z) :=
  assets <- required "repo" repo
                     (fun repo => listAssetsForRelease owner repo releaseId) ;;
  ret (findAssetId assets assetName).

Definition makeAsset (otpVersion assetName : string) : M (string * string) :=
  maybePatch otpVersion ;;;
  make ;;;
  archivedPath <- archive assetName ;;
  sha256Path <- sha256 archivedPath ;;
  ret (archivedPath, sha256Path).

(** The callback of [assetPaths.map]: its body is a block without
    [return], so it starts the upload and evaluates to [undefined]. *)
Definition uploadAssets_callback (uploadUrl assetPath : string)
  : M (element unit) :=
  let assetName := Path.basename assetPath in
  async (uploadAsset uploadUrl assetName assetPath) ;;;
  ret ElUndefined.

Definition uploadAssets (uploadUrl : string) (assetPaths : list string) : M unit :=
  elements <- mapM (uploadAssets_callback uploadUrl) assetPaths ;;
  await (Promise_all elements).

(** ** The other revision of [asset.ts] in the snapshot

    It differs in the patch step only: one function, one patch. *)
Module Revision.

(** The test of the early [return]:
    [platform() !== "darwin" || 23 <= major ||
     (major === 22 && minor === 3 && 1 <= rest[0])]. *)
Definition maybeApplyPatch_skip (p : string) (major minor : num)
           (rest : list num) : bool :=
  negb (String.eqb p "darwin")
  || le (Num 23) major
  || (eq_strict major (Num 22) && eq_strict minor (Num 3)
      && le (Num 1) (index rest 0)).

Definition maybeApplyPatch (otpVersion : string) : M unit :=
  let major := major_of otpVersion in
  let minor := minor_of otpVersion in
  let rest := rest_of otpVersion in
  p <- ask platform ;;
  if maybeApplyPatch_skip p major minor rest then ret tt
  else applyPatch CatarinaNoWeakImportsPatch.

Definition makeAsset (otpVersion assetName : string) : M (string * string) :=
  maybeApplyPatch otpVersion ;;;
  make ;;;
  archivedPath <- archive assetName ;;
  sha256Path <- sha256 archivedPath ;;
  ret (archivedPath, sha256Path).

End Revision.

(* ================================================================== *)
(** * [src/index.ts] *)
(* ================================================================== *)

Definition getAssetName : M string :=
  lines <- exec "uname" ["-s"; "-r"] None ;;
  let buffer := String.concat EmptyString lines in
  ret (replaceFirstSpace (toLowerCase (trim buffer)) ++ ".tar.gz").

Definition getOTPVersions (pattern : string) : M (list string) :=
  exec "git" ["tag"; "--list"; pattern] None.

Definition setup (otpVersion : string) : M unit :=
  exec "git" ["reset"; "--hard"; "--quiet"] None ;;;
  exec "git" ["checkout"; "--quiet"; otpVersion] None ;;;
  exec "git" ["clean"; "-dfqx"] None ;;;
  ret tt.

(** [!assetId] is false exactly for a number other than zero. *)
Definition assetId_truthy (assetId : option Z) : bool :=
  match assetId with
  | Some id => negb (id =? 0)
  | None => false
  end.

(** The body of the inner [try]. *)
Definition publish (owner : string) (repo : str) (assetName otpVersion : string)
  : M unit :=
  setup otpVersion ;;;
  release <- getOrCreateRelease owner repo otpVersion ;;
  let '(releaseId, uploadUrl) := release in
  assetId <- getAsset owner repo releaseId assetName ;;
  if negb (assetId_truthy assetId) then
    paths <- makeAsset otpVersion assetName ;;
    let '(archivedPath, sha256Path) := paths in
    uploadAssets uploadUrl [archivedPath; sha256Path]
  else ret tt.

(** The text handed to [error] by the inner [catch]. *)
Definition report (otpVersion : string) (e : thrown) : string :=
  match e with
  | NotAnError t =>
      "An error occured in " ++ otpVersion ++ " process, obj: " ++ t
  | _ =>
      "An error occured in " ++ otpVersion ++ " process, name: " ++ name_of e
      ++ ", message: " ++ message_of e
  end.

(** One turn of the [for await] loop. *)
Definition iteration (owner : string) (repo : str)
           (assetName otpVersion : string) : M unit :=
  emit (EvInfo ("Starting " ++ otpVersion ++ ".")) ;;;
  try_catch (publish owner repo assetName otpVersion)
            (fun e => emit (EvError (report otpVersion e))).

Fixpoint forEach (body : string -> M unit) (otpVersions : list string) : M unit :=
  match otpVersions with
  | [] => ret tt
  | otpVersion :: r => body otpVersion ;;; forEach body r
  end.

(** [new GitHub(secretToken)] of [@actions/github] 2.x rejects an empty
    token. *)
Definition newGitHub (secretToken : string) : M unit :=
  if String.eqb secretToken EmptyString
  then throw (JsError "Parameter token or opts.auth is required")
  else ret tt.

(** [const [owner, repo] = (env.GITHUB_REPOSITORY! as string).split("/")]:
    [split] always yields a first part; [repo] is [undefined] when there is
    no second one. *)
Definition ownerAndRepo : M (string * str) :=
  repository <- ask GITHUB_REPOSITORY ;;
  match repository with
  | None => throw (TypeError "Cannot read property 'split' of undefined")
  | Some r => let parts := split "/" r in ret (nth 0 parts EmptyString, part parts 1)
  end.

(** Everything [run] does before the loop; the versions to process. *)
Definition prepare : M (string * str * string * list string) :=
  secretToken <- ask (fun w => getInput w "secret-token") ;;
  newGitHub secretToken ;;;
  names <- ownerAndRepo ;;
  assetName <- getAssetName ;;
  given <- ask (fun w => getInput w "target-pattern") ;;
  let targetPattern := if String.eqb given EmptyString then "OTP-*" else given in
  otpVersions <- getOTPVersions targetPattern ;;
  ret (fst names, snd names, assetName, otpVersions).

Definition run : M unit :=
  try_catch
    (p <- prepare ;;
     let '(owner, repo, assetName, otpVersions) := p in
     forEach (iteration owner repo assetName) otpVersions)
    (fun e => emit (EvSetFailed (message_of e))).

(* ================================================================== *)
(** * The patch selector of the specification *)
(* ================================================================== *)

(** Section 4.2 describes the patch step as a table of rules, each a
    platform predicate, a version predicate and a payload, read in its
    declared order: the rules for one platform first, the rules for every
    platform after them.  [selectPatches] keeps every rule that matches.
    These definitions follow the words of the specification; the version
    predicates are the tests of the code. *)
Record PatchRule : Type := mkRule {
  rule_payload : patch;
  rule_platform : string -> bool;
  rule_version : num -> num -> list num -> bool
}.

Definition on_darwin (p : string) : bool := String.eqb p "darwin".
Definition on_every_platform (p : string) : bool := true.

Definition declared_rules : list PatchRule :=
  [ mkRule WxPtrPatch on_darwin maybePatchDarwin_test;
    mkRule CatarinaNoWeakImportsPatch on_darwin maybePatchCatalina_test;
    mkRule ZlibPatch on_every_platform maybePatchAll_test ].

Definition rule_matches (p : string) (major minor : num) (rest : list num)
           (r : PatchRule) : bool :=
  rule_platform r p && rule_version r major minor rest.

Definition selectPatches (p : string) (major minor : num) (rest : list num)
  : list patch :=
  map rule_payload (filter (rule_matches p major minor rest) declared_rules).

(** The trace of one application of a patch in directory [dir]. *)
Definition patch_applied (dir : string) (p : patch) : event :=
  EvExec (mkExec dir "patch" ["-p1"; "--quiet"] (Some p)).

(** Section 4.3, stage 1: each selected patch is applied, in order, and a
    failing run of the tool ends the stage with its error. *)
Fixpoint applyEach (ps : list patch) : M unit :=
  match ps with
  | [] => ret tt
  | p :: r => applyPatch p ;;; applyEach r
  end.

(* ================================================================== *)
(** * Stages of the pipeline, as seen in the trace *)
(* ================================================================== *)

Definition runs (cmds : list string) (e : event) : bool :=
  match e with
  | EvExec req => existsb (String.eqb (ex_cmd req)) cmds
  | _ => false
  end.

Definition is_patch (e : event) : bool := runs ["patch"] e.

Definition is_build (e : event) : bool :=
  runs ["brew"; "./otp_build"; "./configure"; "make"] e
  || match e with EvStartGroup _ | EvEndGroup => true | _ => false end.

Definition is_packaging (e : event) : bool :=
  runs ["tar"; "shasum"] e
  || match e with EvChdir _ | EvWriteFile _ _ => true | _ => false end.

Definition is_upload (e : event) : bool :=
  match e with EvUploadReleaseAsset _ _ _ _ => true | _ => false end.

Definition builds_or_publishes (e : event) : bool :=
  is_patch e || is_build e || is_packaging e || is_upload e.

Definition is_reported (e : event) : bool :=
  match e with EvError _ | EvSetFailed _ => true | _ => false end.

(** ** Conditions and observations used by the properties *)

(** Every run of [patch] exits with code 0. *)
Definition patch_succeeds (w : World) : Prop :=
  forall t req, ex_cmd req = "patch" ->
                ex_failure (child_process w t req) = None.

(** The world after the patches [ps] were applied one after the other. *)
Definition after_patches (ps : list patch) (w : World) : World :=
  fold_left (fun w' p => record (patch_applied (cwd w') p) w') ps w.

Definition is_create (e : event) : bool :=
  match e with EvCreateRelease _ _ _ => true | _ => false end.

(** The registry answers every request itself. *)
Definition no_fault (w : World) : Prop := forall t e, api_fault w t e = None.

(** A request may be rejected for a reason of its own, but a 404 is only
    ever the answer of the registry. *)
Definition no_false_404 (w : World) : Prop :=
  forall t e err, api_fault w t e = Some err -> status err <> Some 404.

(** Every event [m] appends to the trace satisfies [P]. *)
Definition emits {A} (P : event -> Prop) (m : M A) : Prop :=
  forall w, exists evs, trace (fst (m w)) = (trace w ++ evs)%list /\ Forall P evs.

Definition quiet (e : event) : Prop := builds_or_publishes e = false.

(** No character of [s] is a slash. *)
Definition plain (s : string) : bool :=
  forallb (fun c => negb (Path.is_slash c)) (Path.chars s).

(* ================================================================== *)
(** * Worlds to run the program in *)
(* ================================================================== *)

Module Host.

(** Child processes that all exit with code 0: [uname] names the system,
    [git tag] lists two tags, [shasum] prints a digest and the file. *)
Definition processes (system : string) (tags : list string)
  : nat -> exec_request -> exec_outcome :=
  fun _ req =>
    if String.eqb (ex_cmd req) "uname" then mkOutcome None [system]
    else if String.eqb (ex_cmd req) "git"
            && String.eqb (hd EmptyString (ex_args req)) "tag"
    then mkOutcome None tags
    else if String.eqb (ex_cmd req) "shasum"
    then mkOutcome None ["9f86d081884c7d65  " ++ nth 2 (ex_args req) EmptyString]
    else if String.eqb (ex_cmd req) "brew"
    then mkOutcome None ["/usr/local/opt/openssl@1.1"]
    else mkOutcome None [].

(** The same, except that [cmd] exits with a failure. *)
Definition failing (cmd : string)
           (base : nat -> exec_request -> exec_outcome)
  : nat -> exec_request -> exec_outcome :=
  fun t req =>
    if String.eqb (ex_cmd req) cmd
    then mkOutcome (Some ("The process '" ++ cmd ++ "' failed with exit code 2")) []
    else base t req.

Definition inputs (name : string) : string :=
  if String.eqb name "secret-token" then "s3cr3t" else EmptyString.

(** [release/] holds one directory and one file. *)
Definition one_directory : nat -> string -> option (list dirent) :=
  fun _ _ => Some [mkDirent "otp" true; mkDirent "README" false].

Definition faultless : nat -> event -> option thrown := fun _ _ => None.

(** The text of an error of the client, as far as the hosts below go: its
    name and status, no header, and the method of the request. *)
Definition rendering : nat -> thrown -> string :=
  fun _ e =>
    "{" ++ quoted "name" ++ ":" ++ quoted (name_of e)
        ++ match status e with
           | Some s => "," ++ quoted "status" ++ ":" ++ decimal s
           | None => EmptyString
           end
        ++ "," ++ quoted "headers" ++ ":{}"
        ++ "," ++ quoted "request" ++ ":{" ++ quoted "method" ++ ":"
        ++ quoted "GET" ++ "}}".

Definition with_processes (f : nat -> exec_request -> exec_outcome) (w : World)
  : World :=
  mkWorld (platform w) (cpus w) (GITHUB_REPOSITORY w) (getInput w) (cwd w)
          f (readdir w) (stat_size w) (registry w)
          (next_id w) (api_fault w) (JSON_of w) (trace w).

Definition with_faults (f : nat -> event -> option thrown) (w : World) : World :=
  mkWorld (platform w) (cpus w) (GITHUB_REPOSITORY w) (getInput w) (cwd w)
          (child_process w) (readdir w) (stat_size w) (registry w)
          (next_id w) f (JSON_of w) (trace w).

Definition linux : World :=
  mkWorld "linux" 2 (Some "niku/otp-kuroko") inputs "/w"
          (processes "Linux 5.4.0" ["OTP-23.0"; "OTP-23.1"])
          one_directory (fun _ _ => Some 1024)
          [] 1 faultless rendering [].

Definition darwin : World :=
  mkWorld "darwin" 4 (Some "niku/otp-kuroko") inputs "/w"
          (processes "Darwin 19.6.0" ["OTP-22.3.1"])
          one_directory (fun _ _ => Some 1024)
          [] 1 faultless rendering [].

(** The release of OTP-23.0 exists and holds the asset, with id 41. *)
Definition published_already : World :=
  set_registry
    [mkRelease "niku" "otp-kuroko" "OTP-23.0" 7
               "https://uploads.github.com/releases/7/assets"
               [mkAsset 40 "Linux-5.4.0.tar.gz"; mkAsset 41 "linux-5.4.0.tar.gz"]]
    42 linux.

(** The registry rejects every request with a server error. *)
Definition unreachable : World :=
  with_faults (fun _ _ => Some (RequestError (Some 500) "Internal Server Error"))
              linux.

(** The registry rejects the uploads and nothing else. *)
Definition upload_rejected : nat -> event -> option thrown :=
  fun _ e =>
    match e with
    | EvUploadReleaseAsset _ _ _ _ =>
        Some (RequestError (Some 502) "Bad Gateway")
    | _ => None
    end.

Definition rejecting_uploads : World := with_faults upload_rejected linux.

(** [tar] exits with a failure. *)
Definition tar_fails : World :=
  with_processes (failing "tar" (child_process linux)) linux.

(** [shasum] exits with a failure. *)
Definition shasum_fails : World :=
  with_processes (failing "shasum" (child_process linux)) linux.

(** [release/] holds no directory, or two. *)
Definition with_entries (entries : list dirent) (w : World) : World :=
  mkWorld (platform w) (cpus w) (GITHUB_REPOSITORY w) (getInput w) (cwd w)
          (child_process w) (fun _ _ => Some entries) (stat_size w) (registry w)
          (next_id w) (api_fault w) (JSON_of w) (trace w).

Definition no_directory : World := with_entries [mkDirent "README" false] linux.

Definition two_directories : World :=
  with_entries [mkDirent "otp" true; mkDirent "erlang" true] linux.

(** The input [secret-token] is not set. *)
Definition without_token : World :=
  mkWorld (platform linux) (cpus linux) (GITHUB_REPOSITORY linux)
          (fun _ => EmptyString) (cwd linux)
          (child_process linux) (readdir linux) (stat_size linux)
          (registry linux) (next_id linux) (api_fault linux) (JSON_of linux)
          (trace linux).

(** [shasum] exits with code 0 and prints nothing. *)
Definition silent_shasum : World :=
  with_processes
    (fun t req => if String.eqb (ex_cmd req) "shasum" then mkOutcome None []
                  else child_process linux t req)
    linux.

(** [brew] exits with a failure on the darwin host. *)
Definition brew_fails : World :=
  with_processes (failing "brew" (child_process darwin)) darwin.

(** [./configure] exits with a failure. *)
Definition configure_fails : World :=
  with_processes (failing "./configure" (child_process linux)) linux.

(** Every [git] command exits with a failure. *)
Definition git_fails : World :=
  with_processes (failing "git" (child_process linux)) linux.

(** GITHUB_REPOSITORY is not in the environment. *)
Definition without_repository : World :=
  mkWorld (platform linux) (cpus linux) None
          (getInput linux) (cwd linux)
          (child_process linux) (readdir linux) (stat_size linux)
          (registry linux) (next_id linux) (api_fault linux) (JSON_of linux)
          (trace linux).

(** GITHUB_REPOSITORY holds a name without a slash. *)
Definition without_slash : World :=
  mkWorld (platform linux) (cpus linux) (Some "niku")
          (getInput linux) (cwd linux)
          (child_process linux) (readdir linux) (stat_size linux)
          (registry linux) (next_id linux) (api_fault linux) (JSON_of linux)
          (trace linux).

(** The registry rejects the listing of assets and nothing else. *)
Definition listing_rejected : nat -> event -> option thrown :=
  fun _ e =>
    match e with
    | EvListAssetsForRelease _ _ _ =>
        Some (RequestError (Some 500) "Internal Server Error")
    | _ => None
    end.

Definition rejecting_listings : World := with_faults listing_rejected linux.

(** The registry rejects the creation of a release and nothing else. *)
Definition creation_rejected : nat -> event -> option thrown :=
  fun _ e =>
    match e with
    | EvCreateRelease _ _ _ => Some (RequestError (Some 403) "Forbidden")
    | _ => None
    end.

Definition rejecting_creations : World := with_faults creation_rejected linux.

End Host.

(* ================================================================== *)
(** * Observations for the rest of the program *)
(* ================================================================== *)

(** The world [w] with [evs] added to its trace and nothing else changed. *)
Definition extend (evs : list event) (w : World) : World :=
  mkWorld (platform w) (cpus w) (GITHUB_REPOSITORY w) (getInput w) (cwd w)
          (child_process w) (readdir w) (stat_size w) (registry w)
          (next_id w) (api_fault w) (JSON_of w) (trace w ++ evs).

(** [m] changes the trace only, and by events that satisfy [P]. *)
Definition extends {A} (P : event -> Prop) (m : M A) : Prop :=
  forall w, exists evs, fst (m w) = extend evs w /\ Forall P evs.

(** [m] leaves the working directory where it was. *)
Definition keeps_cwd {A} (m : M A) : Prop :=
  forall w, cwd (fst (m w)) = cwd w.

(** [m] leaves the working directory where it was when it returns. *)
Definition restores_cwd {A} (m : M A) : Prop :=
  forall w w' a, m w = (w', Ok a) -> cwd w' = cwd w.

(** The four stages of [make]: the name of the group, the command and its
    arguments. *)
Definition make_stages (sslOption : string) (cpuCount : nat)
  : list (string * string * list string) :=
  [ ("otp_build", "./otp_build", ["autoconf"]);
    ("configure", "./configure", [sslOption; "--enable-dirty-schedulers"]);
    ("make", "make", ["-j" ++ decimal (Z.of_nat cpuCount)]);
    ("make release", "make", ["release"]) ].

(** The trace of one stage run in [dir]. *)
Definition stage_events (dir : string) (stage : string * string * list string)
  : list event :=
  let '(name, cmd, args) := stage in
  [EvStartGroup name; EvExec (mkExec dir cmd args None); EvEndGroup].

(** The request of a stage run in [dir]. *)
Definition stage_request (dir : string) (stage : string * string * list string)
  : exec_request :=
  let '(name, cmd, args) := stage in
  mkExec dir cmd args None.

(** The outcomes of [requests] made one after the other, the first at time
    [t] and each of the others [step] later than the one before it. *)
Fixpoint outcomes_from (w : World) (t step : nat) (requests : list exec_request)
  : list exec_outcome :=
  match requests with
  | [] => []
  | r :: rest => child_process w t r :: outcomes_from w (step + t) step rest
  end.

(** The first failure among [outcomes]: its position and its message. *)
Fixpoint first_failure (outcomes : list exec_outcome) : option (nat * string) :=
  match outcomes with
  | [] => None
  | o :: rest =>
      match ex_failure o with
      | Some message => Some (0%nat, message)
      | None =>
          match first_failure rest with
          | Some (i, message) => Some (S i, message)
          | None => None
          end
      end
  end.

Definition brew_request (dir : string) : exec_request :=
  mkExec dir "brew" ["--prefix"; "openssl"] None.

(** The three commands of [setup]. *)
Definition setup_commands (otpVersion : string) : list (list string) :=
  [ ["reset"; "--hard"; "--quiet"];
    ["checkout"; "--quiet"; otpVersion];
    ["clean"; "-dfqx"] ].

Definition git_event (dir : string) (args : list string) : event :=
  EvExec (mkExec dir "git" args None).

(** The events of the build: child processes, groups and written files. *)
Definition local_event (e : event) : Prop :=
  match e with
  | EvExec _ | EvStartGroup _ | EvEndGroup | EvWriteFile _ _ => True
  | _ => False
  end.

(** Every step of [m] is in the relation [R] between the world before and
    the world after. *)
Definition steps (R : World -> World -> Prop) {A} (m : M A) : Prop :=
  forall w, R w (fst (m w)).

(** A child process or a change of directory. *)
Definition moves (e : event) : bool :=
  match e with
  | EvExec _ | EvChdir _ => true
  | _ => false
  end.

(** The registry numbers its records from a positive counter: the ids of
    the assets it holds are positive, and so is the next id. *)
Definition positive_ids (w : World) : Prop :=
  0 < next_id w
  /\ Forall (fun r => Forall (fun a => 0 < asset_id a) (rel_assets r))
            (registry w).

Definition ids_stay_positive (w w' : World) : Prop :=
  positive_ids w -> positive_ids w'.




(** The events of [makeAsset]: those of the build and the changes of
    directory of the packaging. *)
Definition build_event (e : event) : Prop :=
  match e with
  | EvChdir _ => True
  | _ => local_event e
  end.

(** What [sha256] asks of the system. *)
Definition shasum_request (dir archivedPath : string) : exec_request :=
  mkExec dir "shasum" ["-a"; "256"; archivedPath] None.

Definition is_exec (e : event) : bool :=
  match e with EvExec _ => true | _ => false end.

Definition is_request (e : event) : bool :=
  match e with
  | EvGetReleaseByTag _ _ _ | EvCreateRelease _ _ _
  | EvListAssetsForRelease _ _ _ | EvUploadReleaseAsset _ _ _ _ => true
  | _ => false
  end.

(** Neither a request nor a step of the patching, the build, the packaging
    or the upload. *)
Definition idle (e : event) : Prop :=
  is_request e = false /\ builds_or_publishes e = false.

(** The tag of a version: [OTP-] and the components in decimal, joined by
    dots. *)
Definition tag_of (components : list Z) : string :=
  "OTP-" ++ String.concat "." (map decimal components).

(** What the three rules come to for a version of whole numbers: the
    patches of a platform, by [major] and [minor] alone. *)
Definition patches_of_version (p : string) (major : Z) (minor : option Z)
  : list patch :=
  (if on_darwin p && (17 <=? major) && (major <=? 19)
   then [WxPtrPatch] else [])
  ++ (if on_darwin p
         && ((20 <=? major) && (major <=? 22)
             || (major =? 19)
                && match minor with Some m => 2 <=? m | None => false end)
      then [CatarinaNoWeakImportsPatch] else [])
  ++ (if (17 <=? major) && (major <=? 19) then [ZlibPatch] else []).

(** No character of [s] is white space. *)
Fixpoint no_white_space (s : string) : bool :=
  match s with
  | String c r => negb (ascii_in c white_space) && no_white_space r
  | EmptyString => true
  end.

(** What [getAssetName] asks of the system. *)
Definition uname_request (dir : string) : exec_request :=
  mkExec dir "uname" ["-s"; "-r"] None.

(** The number of times [sep] occurs in [s]. *)
Fixpoint occurrences (sep : ascii) (s : string) : nat :=
  match s with
  | String c r => ((if Ascii.eqb c sep then 1 else 0) + occurrences sep r)%nat
  | EmptyString => 0%nat
  end.

(** The number a run of decimal digits writes, read after [acc]. *)
Fixpoint uint_value (d : Decimal.uint) (acc : Z) : Z :=
  match d with
  | Decimal.Nil => acc
  | Decimal.D0 l => uint_value l (10 * acc)
  | Decimal.D1 l => uint_value l (10 * acc + 1)
  | Decimal.D2 l => uint_value l (10 * acc + 2)
  | Decimal.D3 l => uint_value l (10 * acc + 3)
  | Decimal.D4 l => uint_value l (10 * acc + 4)
  | Decimal.D5 l => uint_value l (10 * acc + 5)
  | Decimal.D6 l => uint_value l (10 * acc + 6)
  | Decimal.D7 l => uint_value l (10 * acc + 7)
  | Decimal.D8 l => uint_value l (10 * acc + 8)
  | Decimal.D9 l => uint_value l (10 * acc + 9)
  end.

(** The request [uploadAsset] sends for [assetPath] when the file has
    [size p] bytes, and none when the file cannot be read. *)
Definition upload_of (uploadUrl : string) (size : string -> option Z)
           (assetPath : string) : list event :=
  match size assetPath with
  | Some n => [EvUploadReleaseAsset uploadUrl (Path.basename assetPath) n assetPath]
  | None => []
  end.

Definition is_info (e : event) : bool :=
  match e with EvInfo _ => true | _ => false end.

Definition is_error (e : event) : bool :=
  match e with EvError _ => true | _ => false end.

Definition is_setFailed (e : event) : bool :=
  match e with EvSetFailed _ => true | _ => false end.

(** What the log of the action shows: [info], [error] and [setFailed]. *)
Definition is_logged (e : event) : bool :=
  is_info e || is_error e || is_setFailed e.

Definition log_lines (evs : list event) : list event := filter is_logged evs.

(** An event that writes nothing to the log. *)
Definition silent (e : event) : Prop := is_logged e = false.

(** The log of one version: the line of its start and, when [outcome] is
    an error, the line that reports it. *)
Definition version_log (entry : string * option thrown) : list event :=
  let '(otpVersion, outcome) := entry in
  EvInfo ("Starting " ++ otpVersion ++ ".")
  :: match outcome with
     | Some e => [EvError (report otpVersion e)]
     | None => []
     end.

(* ================================================================== *)
(** * Properties *)
(* ================================================================== *)

Local Open Scope list_scope.

(** ** Reading a version *)

Lemma digits_some (s : string) (a : Z) : digits s (Some a) <> None.
Proof.
  revert a; induction s as [|c r IH]; intros a; simpl.
  - discriminate.
  - destruct (digit c); [apply IH | discriminate].
Qed.

Lemma parseInt_NaN_iff (s : string) : parseInt s = NaN <-> numeric s = false.
Proof.
  unfold parseInt, numeric.
  destruct (unsigned (trimStart s)) as [|c r]; simpl.
  - split; reflexivity.
  - destruct (digit c) as [d|] eqn:Hd.
    + destruct (digits r (Some _)) eqn:Hr.
      * split; discriminate.
      * exfalso; exact (digits_some _ _ Hr).
    + split; reflexivity.
Qed.

Example parseInt_examples :
  parseInt "22" = Num 22 /\ parseInt "0-rc1" = Num 0 /\ parseInt " 7" = Num 7
  /\ parseInt "-3" = Num (-3) /\ parseInt "x" = NaN /\ parseInt EmptyString = NaN.
Proof. repeat split. Qed.

Example split_examples :
  split "." "22.3.1" = ["22"; "3"; "1"]%string
  /\ split "." "22." = ["22"; EmptyString]%string
  /\ split "." EmptyString = [EmptyString].
Proof. repeat split. Qed.

Example path_examples :
  Path.join "/w" "release" = "/w/release"%string
  /\ Path.join "/w/release" "../x" = "/w/x"%string
  /\ Path.basename "/w/release/linux-5.4.0.tar.gz" = "linux-5.4.0.tar.gz"%string
  /\ Path.basename_ext "linux-5.4.0.tar.gz" ".tar.gz" = "linux-5.4.0"%string
  /\ Path.basename_ext "archive.zip" ".tar.gz" = "archive.zip"%string
  /\ Path.parse_dir "/w/release/linux-5.4.0.tar.gz" = "/w/release"%string
  /\ Path.parse_dir "/x" = "/"%string
  /\ Path.parse_dir "x" = EmptyString.
Proof. repeat split. Qed.

Example getAssetName_example :
  snd (getAssetName Host.linux) = Ok "linux-5.4.0.tar.gz".
Proof. reflexivity. Qed.

Example versionNumbers_22_3_1 :
  versionNumbers "OTP-22.3.1" = [Num 22; Num 3; Num 1].
Proof. reflexivity. Qed.

Example versionNumbers_release_candidate :
  versionNumbers "OTP-22.0-rc1" = [Num 22; Num 0].
Proof. reflexivity. Qed.

Example versionNumbers_major_only :
  major_of "OTP-23" = Num 23 /\ minor_of "OTP-23" = Undefined
  /\ rest_of "OTP-23" = [].
Proof. repeat split. Qed.

(** ** The tests of the rules *)

Lemma not_a_number_cases (a : num) :
  is_number a = false -> a = Undefined \/ a = NaN.
Proof. destruct a; simpl; auto; discriminate. Qed.

Lemma tests_major_not_a_number (major minor : num) (rest : list num) :
  is_number major = false ->
  maybePatchDarwin_test major minor rest = false
  /\ maybePatchCatalina_test major minor rest = false
  /\ maybePatchAll_test major minor rest = false.
Proof.
  intros H; destruct (not_a_number_cases _ H); subst; repeat split.
Qed.

Lemma catalina_minor_not_a_number (major minor : num) (rest : list num) :
  is_number minor = false ->
  maybePatchCatalina_test major minor rest
  = lt (Num 19) major && lt major (Num 23).
Proof.
  intros H; unfold maybePatchCatalina_test.
  destruct (not_a_number_cases _ H); subst; simpl;
    now rewrite !andb_false_r, !orb_false_r.
Qed.

Lemma catalina_rest_not_a_number (major minor r0 : num) (rest : list num) :
  is_number r0 = false ->
  maybePatchCatalina_test major minor (r0 :: rest)
  = maybePatchCatalina_test major minor (Num 0 :: rest).
Proof.
  intros H; destruct (not_a_number_cases _ H); subst; reflexivity.
Qed.

(** ** Child processes *)

Lemma exec_succeeds (cmd : string) (args : list string) (input : option patch)
      (w : World) :
  let req := mkExec (cwd w) cmd args input in
  ex_failure (child_process w (now w) req) = None ->
  exec cmd args input w
  = (record (EvExec req) w, Ok (ex_lines (child_process w (now w) req))).
Proof. intros req H; unfold exec; fold req; now rewrite H. Qed.

Lemma exec_fails (cmd : string) (args : list string) (input : option patch)
      (w : World) (message : string) :
  let req := mkExec (cwd w) cmd args input in
  ex_failure (child_process w (now w) req) = Some message ->
  exec cmd args input w = (record (EvExec req) w, Throw (ExecError message)).
Proof. intros req H; unfold exec; fold req; now rewrite H. Qed.

Lemma applyPatch_succeeds (p : patch) (w : World) :
  patch_succeeds w ->
  applyPatch p w = (record (patch_applied (cwd w) p) w, Ok tt).
Proof.
  intros H; unfold applyPatch, bind.
  rewrite exec_succeeds by (apply H; reflexivity).
  reflexivity.
Qed.

Lemma patch_succeeds_record (e : event) (w : World) :
  patch_succeeds w -> patch_succeeds (record e w).
Proof. intros H t req Hreq; exact (H t req Hreq). Qed.

Lemma after_patches_trace (ps : list patch) (w : World) :
  trace (after_patches ps w) = trace w ++ map (patch_applied (cwd w)) ps.
Proof.
  revert w; induction ps as [|p ps IH]; intros w; simpl.
  - now rewrite app_nil_r.
  - unfold after_patches in *; simpl; rewrite IH; simpl.
    now rewrite <- app_assoc.
Qed.

Lemma maybePatch_refines_selectPatches (otpVersion : string) (w : World) :
  patch_succeeds w ->
  maybePatch otpVersion w
  = (after_patches (selectPatches (platform w) (major_of otpVersion)
                                  (minor_of otpVersion) (rest_of otpVersion)) w,
     Ok tt).
Proof.
  intros H.
  unfold maybePatch, selectPatches, declared_rules, rule_matches, on_darwin,
    on_every_platform, bind, ask, filter, rule_platform, rule_version,
    maybePatchDarwin, maybePatchCatalina, maybePatchAll,
    applyWxPtrPatch, applyCatarinaNoWeakImportsPatch, applyZlibPatch, ret.
  generalize (maybePatchDarwin_test (major_of otpVersion) (minor_of otpVersion)
                                    (rest_of otpVersion)),
             (maybePatchCatalina_test (major_of otpVersion) (minor_of otpVersion)
                                      (rest_of otpVersion)),
             (maybePatchAll_test (major_of otpVersion) (minor_of otpVersion)
                                 (rest_of otpVersion)).
  intros wx catalina zlib.
  destruct (String.eqb (platform w) "darwin"), wx, catalina, zlib; cbn;
    repeat (rewrite applyPatch_succeeds
              by (repeat apply patch_succeeds_record; exact H); cbn);
    reflexivity.
Qed.

(** ** The patch step *)

(** C1.  On darwin the Catalina rule of [maybePatchCatalina] matches
    22.3.1: its first alternative, [19 < major && major < 23], holds for
    every 22.x, so the bound [rest[0] < 1] of the third alternative never
    decides, and [maybePatch] applies the patch to OTP-22.3.1.  The other
    revision, [maybeApplyPatch], returns early for the same version.  Both
    revisions apply the patch to 22.3.0 and neither does to 23.0, whatever
    the platform. *)
Theorem catalina_rule_boundary :
  versionNumbers "OTP-22.3.1" = [Num 22; Num 3; Num 1]
  /\ maybePatchCatalina_test (Num 22) (Num 3) [Num 1] = true
  /\ (forall minor rest, maybePatchCatalina_test (Num 22) minor rest = true)
  /\ trace (fst (maybePatch "OTP-22.3.1" Host.darwin))
     = [patch_applied "/w" CatarinaNoWeakImportsPatch]
  /\ Revision.maybeApplyPatch_skip "darwin" (Num 22) (Num 3) [Num 1] = true
  /\ trace (fst (Revision.maybeApplyPatch "OTP-22.3.1" Host.darwin)) = []
  /\ maybePatchCatalina_test (Num 22) (Num 3) [Num 0] = true
  /\ Revision.maybeApplyPatch_skip "darwin" (Num 22) (Num 3) [Num 0] = false
  /\ maybePatchCatalina_test (Num 23) (Num 0) [] = false
  /\ (forall p, Revision.maybeApplyPatch_skip p (Num 23) (Num 0) [] = true).
Proof.
  repeat split.
  intros p; unfold Revision.maybeApplyPatch_skip; simpl.
  now rewrite orb_true_r.
Qed.

(** C2, as stated, fails at OTP-22.3.x on darwin: the component [x] is not
    numeric and parses to [NaN], yet the comparison the Catalina rule makes
    with it, [(rest[0] || 0) < 1], is true, the rule matches and its patch
    is applied. *)
Lemma nonnumeric_rest_is_not_skipped :
  numeric "x" = false
  /\ versionNumbers "OTP-22.3.x" = [Num 22; Num 3; NaN]
  /\ lt (JS.or (index (rest_of "OTP-22.3.x") 0) (Num 0)) (Num 1) = true
  /\ maybePatchCatalina_test (major_of "OTP-22.3.x") (minor_of "OTP-22.3.x")
                             (rest_of "OTP-22.3.x") = true
  /\ maybePatch "OTP-22.3.x" Host.darwin
     = (record (patch_applied "/w" CatarinaNoWeakImportsPatch) Host.darwin,
        Ok tt).
Proof. repeat split. Qed.

(** C2, amended.  A component that does not begin with a decimal integer
    parses to [NaN], and no error is raised for it.  When the major
    component is not a number every test is false and [maybePatch] applies
    nothing.  When the minor component is not a number the Catalina rule
    still matches for [19 < major < 23].  The Catalina rule reads a first
    rest component that is not a number as 0. *)
Theorem nonnumeric_components (otpVersion : string) (w : World) :
  let major := major_of otpVersion in
  let minor := minor_of otpVersion in
  let rest := rest_of otpVersion in
  (forall s, numeric s = false <-> parseInt s = NaN)
  /\ (is_number major = false ->
      maybePatchDarwin_test major minor rest = false
      /\ maybePatchCatalina_test major minor rest = false
      /\ maybePatchAll_test major minor rest = false
      /\ maybePatch otpVersion w = (w, Ok tt))
  /\ (is_number minor = false ->
      maybePatchCatalina_test major minor rest
      = lt (Num 19) major && lt major (Num 23))
  /\ (forall r0 tail,
        rest = r0 :: tail -> is_number r0 = false ->
        lt (JS.or (index rest 0) (Num 0)) (Num 1) = true
        /\ maybePatchCatalina_test major minor rest
           = maybePatchCatalina_test major minor (Num 0 :: tail)).
Proof.
  intros major minor rest; repeat split.
  - intros H; now apply parseInt_NaN_iff.
  - intros H; now apply parseInt_NaN_iff.
  - now apply tests_major_not_a_number.
  - now apply tests_major_not_a_number.
  - now apply tests_major_not_a_number.
  - destruct (tests_major_not_a_number major minor rest H) as (Hd & Hc & Ha).
    unfold maybePatch, maybePatchDarwin, maybePatchCatalina, maybePatchAll,
      bind, ask.
    fold major minor rest; rewrite Hd, Hc, Ha.
    now destruct (String.eqb (platform w) "darwin").
  - now apply catalina_minor_not_a_number.
  - subst rest; rewrite H.
    now destruct (not_a_number_cases _ H0); subst.
  - rewrite H; now apply catalina_rest_not_a_number.
Qed.

Lemma nonnumeric_components_witness :
  (maybePatch "OTP-x.1" Host.darwin = (Host.darwin, Ok tt))
  /\ maybePatchCatalina_test (Num 21) NaN [] = true
  /\ maybePatchCatalina_test (Num 22) (Num 3) [NaN]
     = maybePatchCatalina_test (Num 22) (Num 3) [Num 0].
Proof.
  split; [|split].
  - apply (nonnumeric_components "OTP-x.1" Host.darwin); reflexivity.
  - apply (proj1 (proj2 (proj2 (nonnumeric_components "OTP-21.x" Host.darwin))));
      reflexivity.
  - apply (proj2 (proj2 (proj2 (nonnumeric_components "OTP-22.3.x" Host.darwin)))
             NaN []); reflexivity.
Defined.

Lemma maybePatch_is_applyEach (otpVersion : string) (w : World) :
  maybePatch otpVersion w
  = applyEach (selectPatches (platform w) (major_of otpVersion)
                             (minor_of otpVersion) (rest_of otpVersion)) w.
Proof.
  unfold maybePatch, selectPatches, declared_rules, rule_matches, on_darwin,
    on_every_platform, bind, ask, filter, rule_platform, rule_version,
    maybePatchDarwin, maybePatchCatalina, maybePatchAll,
    applyWxPtrPatch, applyCatarinaNoWeakImportsPatch, applyZlibPatch, ret.
  generalize (maybePatchDarwin_test (major_of otpVersion) (minor_of otpVersion)
                                    (rest_of otpVersion)),
             (maybePatchCatalina_test (major_of otpVersion) (minor_of otpVersion)
                                      (rest_of otpVersion)),
             (maybePatchAll_test (major_of otpVersion) (minor_of otpVersion)
                                 (rest_of otpVersion)).
  intros wx catalina zlib.
  destruct (String.eqb (platform w) "darwin"), wx, catalina, zlib;
    cbn [map rule_payload applyEach andb];
    unfold applyPatch, bind, ret;
    repeat (match goal with
            | |- context [exec ?c ?a ?i ?x] =>
                destruct (exec c a i x) as [? [?|?]]
            end);
    reflexivity.
Qed.

(** C5.  [maybePatch] applies exactly the rules of the declared table that
    match, in the order of the table: the darwin rules first, the rule for
    every platform last; a failing run of [patch] ends it as it ends the
    stage of the specification.  When [patch] succeeds the runs of [patch]
    in the trace are the matching rules, in that order.  On darwin with
    [17 <= major <= 19] the wx patch is first and the zlib patch last. *)
Theorem maybePatch_applies_every_match_in_order (otpVersion : string) (w : World) :
  let major := major_of otpVersion in
  let minor := minor_of otpVersion in
  let rest := rest_of otpVersion in
  let selected := selectPatches (platform w) major minor rest in
  maybePatch otpVersion w = applyEach selected w
  /\ (patch_succeeds w ->
      exists w',
        maybePatch otpVersion w = (w', Ok tt)
        /\ trace w' = trace w ++ map (patch_applied (cwd w)) selected)
  /\ (platform w = "darwin"%string ->
      le (Num 17) major = true -> le major (Num 19) = true ->
      exists middle, selected = WxPtrPatch :: middle ++ [ZlibPatch]).
Proof.
  intros major minor rest selected; split; [|split].
  - apply maybePatch_is_applyEach.
  - intros H; exists (after_patches selected w); split.
    + now apply maybePatch_refines_selectPatches.
    + apply after_patches_trace.
  - intros Hp H17 H19; subst selected; clearbody rest minor major.
    unfold selectPatches, declared_rules, rule_matches, on_darwin,
      on_every_platform, filter, rule_platform, rule_version,
      maybePatchDarwin_test, maybePatchAll_test.
    rewrite Hp, H17, H19; cbn.
    destruct (maybePatchCatalina_test major minor rest); cbn.
    + now exists [CatarinaNoWeakImportsPatch].
    + now exists [].
Qed.

Lemma darwin_patch_succeeds : patch_succeeds Host.darwin.
Proof. intros t req H; cbn; unfold Host.processes; now rewrite H. Qed.

Lemma maybePatch_applies_every_match_in_order_witness :
  (exists w',
      maybePatch "OTP-19.3" Host.darwin = (w', Ok tt)
      /\ trace w'
         = [patch_applied "/w" WxPtrPatch;
            patch_applied "/w" CatarinaNoWeakImportsPatch;
            patch_applied "/w" ZlibPatch])
  /\ exists middle,
      selectPatches "darwin" (Num 19) (Num 3) [] = WxPtrPatch :: middle ++ [ZlibPatch].
Proof.
  destruct (maybePatch_applies_every_match_in_order "OTP-19.3" Host.darwin)
    as (_ & H1 & H2).
  split; [exact (H1 darwin_patch_succeeds) | apply H2; reflexivity].
Defined.

(** ** The release registry *)

Lemma find_app_none {A} (f : A -> bool) (l l' : list A) :
  find f l = None -> find f (l ++ l') = find f l'.
Proof.
  induction l as [|x l IH]; simpl; [reflexivity|].
  destruct (f x); [discriminate | exact IH].
Qed.

Lemma release_has_tag_refl (owner repo tag : string) (id : Z) (url : string)
      (assets : list asset) :
  release_has_tag owner repo tag (mkRelease owner repo tag id url assets) = true.
Proof. unfold release_has_tag; simpl; now rewrite !String.eqb_refl. Qed.

Lemma getReleaseByTag_world (owner repo tag : string) (w : World) :
  fst (getReleaseByTag owner repo tag w)
  = record (EvGetReleaseByTag owner repo tag) w.
Proof.
  unfold getReleaseByTag.
  destruct (api_fault w (now w) _); [reflexivity|].
  now destruct (find _ (registry w)).
Qed.

Lemma status_is_not_404_false (e : thrown) :
  status e = Some 404 -> status_is_not_404 e = false.
Proof. unfold status_is_not_404; now intros ->. Qed.

Lemma status_is_not_404_true (e : thrown) :
  status e <> Some 404 -> status_is_not_404 e = true.
Proof.
  unfold status_is_not_404; destruct (status e) as [s|]; [|reflexivity].
  intros H; destruct (Z.eqb_spec s 404); [subst; now elim H | reflexivity].
Qed.

Lemma getOrCreateRelease_found (owner repo tag : string) (w : World) (r : release) :
  no_fault w ->
  find (release_has_tag owner repo tag) (registry w) = Some r ->
  getOrCreateRelease owner repo tag w
  = (record (EvGetReleaseByTag owner repo tag) w, Ok (rel_id r, rel_upload_url r)).
Proof.
  intros Hf Hr.
  unfold getOrCreateRelease, getRelease, required, try_catch, bind,
    getReleaseByTag; cbv beta iota.
  now rewrite Hf, Hr.
Qed.

Lemma getOrCreateRelease_missing (owner repo tag : string) (w : World) :
  no_fault w ->
  find (release_has_tag owner repo tag) (registry w) = None ->
  let id := next_id w in
  let r := mkRelease owner repo tag id (upload_url_of id) [] in
  getOrCreateRelease owner repo tag w
  = (set_registry (registry w ++ [r]) (id + 1)
       (record (EvCreateRelease owner repo tag)
          (record (EvGetReleaseByTag owner repo tag) w)),
     Ok (id, upload_url_of id)).
Proof.
  intros Hf Hr id r.
  unfold getOrCreateRelease, getRelease, required, try_catch, bind,
    getReleaseByTag; cbv beta iota.
  rewrite Hf, Hr; cbn.
  unfold createRelease, required, createReleaseRequest; cbn.
  now rewrite Hf.
Qed.

Lemma getOrCreateRelease_returned_found (owner repo tag : string)
      (w w1 : World) (r : release) (id : Z) (url : string) :
  no_false_404 w ->
  find (release_has_tag owner repo tag) (registry w) = Some r ->
  getOrCreateRelease owner repo tag w = (w1, Ok (id, url)) ->
  (id, url) = (rel_id r, rel_upload_url r)
  /\ w1 = record (EvGetReleaseByTag owner repo tag) w.
Proof.
  intros Hf Hr.
  unfold getOrCreateRelease, getRelease, required, try_catch, bind,
    getReleaseByTag; cbv beta iota.
  destruct (api_fault w (now w) _) as [err|] eqn:F.
  - rewrite (status_is_not_404_true _ (Hf _ _ _ F)); discriminate.
  - rewrite Hr; cbn; intros E; now inversion E.
Qed.

Lemma getOrCreateRelease_returned_missing (owner repo tag : string)
      (w w1 : World) (id : Z) (url : string) :
  no_false_404 w ->
  find (release_has_tag owner repo tag) (registry w) = None ->
  getOrCreateRelease owner repo tag w = (w1, Ok (id, url)) ->
  (id, url) = (next_id w, upload_url_of (next_id w))
  /\ w1 = set_registry
            (registry w ++ [mkRelease owner repo tag (next_id w)
                                      (upload_url_of (next_id w)) []])
            (next_id w + 1)
            (record (EvCreateRelease owner repo tag)
                    (record (EvGetReleaseByTag owner repo tag) w)).
Proof.
  intros Hf Hr.
  unfold getOrCreateRelease, getRelease, required, try_catch, bind,
    getReleaseByTag; cbv beta iota.
  destruct (api_fault w (now w) _) as [err|] eqn:F.
  - rewrite (status_is_not_404_true _ (Hf _ _ _ F)); discriminate.
  - rewrite Hr; cbn -[upload_url_of].
    unfold createRelease, required, createReleaseRequest; cbn -[upload_url_of].
    match goal with
    | |- context [api_fault w ?t (EvCreateRelease owner repo tag)] =>
        destruct (api_fault w t (EvCreateRelease owner repo tag))
    end; [discriminate|].
    intros E; now inversion E.
Qed.

(** C6.  A 404 on the lookup falls through to creating the release: the
    [createRelease] request follows the lookup; when the registry accepts
    it, a record for (owner, repo, tag) is added and its id and upload URL
    are returned, and when the registry rejects it, that rejection is
    thrown as it is.  Any other rejection of the lookup is thrown again as
    an unexpected error, with the lookup as the only request made and the
    registry as it was.  Two calls in a row for one (owner, repo, tag) give
    the same release twice, the one the registry holds for the tag, with
    one [createRelease] request among the requests made when the release
    was missing and none when it existed: they do return when the registry
    answers every request itself, and whenever both return. *)
Theorem getOrCreateRelease_is_idempotent (owner repo tag : string) (w : World) :
  let lookup := EvGetReleaseByTag owner repo tag in
  let creation := EvCreateRelease owner repo tag in
  let created := mkRelease owner repo tag (next_id w)
                           (upload_url_of (next_id w)) [] in
  (forall w1 e,
      getReleaseByTag owner repo tag w = (w1, Throw e) ->
      status e = Some 404 ->
      trace (fst (getOrCreateRelease owner repo tag w))
      = trace w ++ [lookup; creation]
      /\ (api_fault w1 (now w1) creation = None ->
          getOrCreateRelease owner repo tag w
          = (set_registry (registry w ++ [created]) (next_id w + 1)
                          (record creation w1),
             Ok (rel_id created, rel_upload_url created)))
      /\ (forall err,
             api_fault w1 (now w1) creation = Some err ->
             getOrCreateRelease owner repo tag w
             = (record creation w1, Throw err)
             /\ registry (record creation w1) = registry w))
  /\ (forall w1 e,
         getReleaseByTag owner repo tag w = (w1, Throw e) ->
         status e <> Some 404 ->
         getOrCreateRelease owner repo tag w
         = (w1, Throw (JsError ("Unexpected error occured: "
                                ++ JSON_stringify w1 e)))
         /\ trace w1 = trace w ++ [lookup]
         /\ registry w1 = registry w)
  /\ (no_fault w ->
      exists id url w1 w2 requests r,
        getOrCreateRelease owner repo tag w = (w1, Ok (id, url))
        /\ getOrCreateRelease owner repo tag w1 = (w2, Ok (id, url))
        /\ find (release_has_tag owner repo tag) (registry w2) = Some r
        /\ (rel_id r, rel_upload_url r) = (id, url)
        /\ trace w2 = trace w ++ requests
        /\ List.length (filter is_create requests)
           = match find (release_has_tag owner repo tag) (registry w) with
             | Some _ => 0%nat
             | None => 1%nat
             end
        /\ (List.length (filter is_create requests) <= 1)%nat)
  /\ (no_false_404 w ->
      forall w1 w2 id1 url1 id2 url2,
        getOrCreateRelease owner repo tag w = (w1, Ok (id1, url1)) ->
        getOrCreateRelease owner repo tag w1 = (w2, Ok (id2, url2)) ->
        (id1, url1) = (id2, url2)
        /\ exists requests,
            trace w2 = trace w ++ requests
            /\ (List.length (filter is_create requests) <= 1)%nat).
Proof.
  intros lookup creation created.
  split; [|split; [|split]].
  - intros w1 e H He.
    assert (G : getOrCreateRelease owner repo tag w
                = createReleaseRequest owner repo tag w1).
    { unfold getOrCreateRelease, getRelease, required, try_catch, bind;
        cbv beta iota.
      rewrite H, (status_is_not_404_false _ He); reflexivity. }
    pose proof (getReleaseByTag_world owner repo tag w) as Hw.
    rewrite H in Hw; cbn [fst] in Hw; subst w1.
    rewrite G; unfold createReleaseRequest; fold creation; fold lookup.
    destruct (api_fault (record lookup w) (now (record lookup w)) creation)
      as [err|]; cbn [fst].
    + split; [cbn [trace record]; now rewrite <- app_assoc|].
      split; [discriminate|].
      intros err' E; injection E as <-; split; reflexivity.
    + split; [cbn [trace record set_registry]; now rewrite <- app_assoc|].
      split; [reflexivity | discriminate].
  - intros w1 e H He; split; [|split].
    + unfold getOrCreateRelease, getRelease, required, try_catch, bind;
      cbv beta iota.
      rewrite H, (status_is_not_404_true _ He); reflexivity.
    + pose proof (getReleaseByTag_world owner repo tag w) as Hw.
      rewrite H in Hw; simpl in Hw; now subst w1.
    + pose proof (getReleaseByTag_world owner repo tag w) as Hw.
      rewrite H in Hw; simpl in Hw; now subst w1.
  - intros Hf.
    destruct (find (release_has_tag owner repo tag) (registry w)) as [r|] eqn:Hr.
    + exists (rel_id r), (rel_upload_url r).
      eexists; eexists; exists [lookup; lookup], r.
      split; [now apply getOrCreateRelease_found|].
      split; [now apply getOrCreateRelease_found|].
      split; [exact Hr|].
      split; [reflexivity|].
      split; [cbn; now rewrite <- app_assoc|].
      split; [reflexivity | cbn; lia].
    + exists (next_id w), (upload_url_of (next_id w)).
      eexists; eexists; exists [lookup; creation; lookup], created.
      split; [now apply getOrCreateRelease_missing|].
      assert (Hx : find (release_has_tag owner repo tag) (registry w ++ [created])
                   = Some created).
      { rewrite (find_app_none _ _ _ Hr); cbn -[upload_url_of].
        unfold created; now rewrite release_has_tag_refl. }
      split.
      * rewrite (@getOrCreateRelease_found owner repo tag _ created);
          [reflexivity | exact Hf | exact Hx].
      * split; [exact Hx|].
        split; [reflexivity|].
        split; [cbn; now rewrite <- !app_assoc|].
        split; [reflexivity | cbn; lia].
  - intros Hf w1 w2 id1 url1 id2 url2 E1 E2.
    destruct (find (release_has_tag owner repo tag) (registry w)) as [r|] eqn:Hr.
    + destruct (getOrCreateRelease_returned_found _ _ _ Hf Hr E1) as [I1 W1].
      subst w1.
      destruct (@getOrCreateRelease_returned_found
                  owner repo tag (record lookup w)
                  w2 r id2 url2 Hf Hr E2) as [I2 W2].
      subst w2; split; [congruence|].
      exists [lookup; lookup].
      split; [cbn; now rewrite <- app_assoc | cbn; lia].
    + destruct (getOrCreateRelease_returned_missing _ _ _ Hf Hr E1) as [I1 W1].
      subst w1.
      match type of E2 with
      | getOrCreateRelease _ _ _ ?x = _ =>
          assert (Hx : find (release_has_tag owner repo tag) (registry x)
                       = Some created)
            by (cbn -[upload_url_of]; rewrite (find_app_none _ _ _ Hr);
                cbn -[upload_url_of]; unfold created;
                now rewrite release_has_tag_refl);
          destruct (@getOrCreateRelease_returned_found
                      owner repo tag x w2 _ id2 url2 Hf Hx E2) as [I2 W2]
      end.
      subst w2; split; [cbn -[upload_url_of] in I2; congruence|].
      exists [lookup; creation; lookup].
      split; [cbn; now rewrite <- !app_assoc | cbn; lia].
Qed.

Lemma getOrCreateRelease_is_idempotent_witness :
  (getOrCreateRelease "niku" "otp-kuroko" "OTP-23.0" Host.linux
   = (set_registry
        [mkRelease "niku" "otp-kuroko" "OTP-23.0" 1
                   "https://uploads.github.com/releases/1/assets" []]
        2
        (record (EvCreateRelease "niku" "otp-kuroko" "OTP-23.0")
                (record (EvGetReleaseByTag "niku" "otp-kuroko" "OTP-23.0")
                        Host.linux)),
      Ok (1, "https://uploads.github.com/releases/1/assets"%string)))
  /\ (getOrCreateRelease "niku" "otp-kuroko" "OTP-23.0" Host.rejecting_creations
      = (record (EvCreateRelease "niku" "otp-kuroko" "OTP-23.0")
                (record (EvGetReleaseByTag "niku" "otp-kuroko" "OTP-23.0")
                        Host.rejecting_creations),
         Throw (RequestError (Some 403) "Forbidden")))
  /\ snd (getOrCreateRelease "niku" "otp-kuroko" "OTP-23.0" Host.unreachable)
     = Throw (JsError ("Unexpected error occured: "
                       ++ Host.rendering 1 (RequestError (Some 500)
                                                         "Internal Server Error")))
  /\ (exists id url w1 w2 requests r,
         getOrCreateRelease "niku" "otp-kuroko" "OTP-23.0" Host.linux
         = (w1, Ok (id, url))
         /\ getOrCreateRelease "niku" "otp-kuroko" "OTP-23.0" w1 = (w2, Ok (id, url))
         /\ find (release_has_tag "niku" "otp-kuroko" "OTP-23.0") (registry w2)
            = Some r
         /\ (rel_id r, rel_upload_url r) = (id, url)
         /\ trace w2 = trace Host.linux ++ requests
         /\ List.length (filter is_create requests) = 1%nat
         /\ (List.length (filter is_create requests) <= 1)%nat)
  /\ exists requests,
      trace (fst (getOrCreateRelease "niku" "otp-kuroko" "OTP-23.0"
                    (fst (getOrCreateRelease "niku" "otp-kuroko" "OTP-23.0"
                                             Host.linux))))
      = trace Host.linux ++ requests
      /\ (List.length (filter is_create requests) <= 1)%nat.
Proof.
  pose (T1 := getOrCreateRelease_is_idempotent "niku" "otp-kuroko" "OTP-23.0"
                                               Host.linux).
  pose (T2 := getOrCreateRelease_is_idempotent "niku" "otp-kuroko" "OTP-23.0"
                                               Host.unreachable).
  pose (T3 := getOrCreateRelease_is_idempotent "niku" "otp-kuroko" "OTP-23.0"
                                               Host.rejecting_creations).
  split; [|split; [|split; [|split]]].
  - exact (proj1 (proj2 (proj1 T1 _ not_found eq_refl eq_refl)) eq_refl).
  - exact (proj1 (proj2 (proj2 (proj1 T3 _ not_found eq_refl eq_refl))
                        (RequestError (Some 403) "Forbidden") eq_refl)).
  - destruct (proj1 (proj2 T2) _ (RequestError (Some 500) "Internal Server Error")
                    eq_refl) as [H _]; [discriminate|].
    now rewrite H.
  - apply (proj1 (proj2 (proj2 T1))); intros t e; reflexivity.
  - assert (F : no_false_404 Host.linux) by (intros t e err H; discriminate H).
    exact (proj2 (proj2 (proj2 (proj2 T1)) F
                   (fst (getOrCreateRelease "niku" "otp-kuroko" "OTP-23.0"
                                            Host.linux))
                   (fst (getOrCreateRelease "niku" "otp-kuroko" "OTP-23.0"
                           (fst (getOrCreateRelease "niku" "otp-kuroko" "OTP-23.0"
                                                    Host.linux))))
                   _ _ _ _ eq_refl eq_refl)).
Defined.

(** ** What a computation adds to the trace *)

Section Emits.

Variable P : event -> Prop.

Lemma emits_ret {A} (a : A) : emits P (ret a).
Proof. intros w; exists []; split; [now rewrite app_nil_r | constructor]. Qed.

Lemma emits_throw {A} (e : thrown) : emits P (@throw A e).
Proof. intros w; exists []; split; [now rewrite app_nil_r | constructor]. Qed.

Lemma emits_ask {A} (f : World -> A) : emits P (ask f).
Proof. intros w; exists []; split; [now rewrite app_nil_r | constructor]. Qed.

Lemma emits_emit (e : event) : P e -> emits P (emit e).
Proof. intros H w; exists [e]; split; [reflexivity | now constructor]. Qed.

Lemma emits_bind {A B} (m : M A) (k : A -> M B) :
  emits P m -> (forall a, emits P (k a)) -> emits P (bind m k).
Proof.
  intros Hm Hk w; unfold bind.
  destruct (Hm w) as (evs1 & H1 & F1).
  destruct (m w) as [w' [a|e]]; simpl in H1.
  - destruct (Hk a w') as (evs2 & H2 & F2).
    exists (evs1 ++ evs2); split.
    + now rewrite H2, H1, app_assoc.
    + now apply Forall_app.
  - now exists evs1.
Qed.

Lemma emits_try_catch {A} (m : M A) (handler : thrown -> M A) :
  emits P m -> (forall e, emits P (handler e)) -> emits P (try_catch m handler).
Proof.
  intros Hm Hh w; unfold try_catch.
  destruct (Hm w) as (evs1 & H1 & F1).
  destruct (m w) as [w' [a|e]]; simpl in H1.
  - now exists evs1.
  - destruct (Hh e w') as (evs2 & H2 & F2).
    exists (evs1 ++ evs2); split.
    + now rewrite H2, H1, app_assoc.
    + now apply Forall_app.
Qed.

Lemma emits_exec (cmd : string) (args : list string) (input : option patch) :
  (forall dir, P (EvExec (mkExec dir cmd args input))) ->
  emits P (exec cmd args input).
Proof.
  intros H w; exists [EvExec (mkExec (cwd w) cmd args input)]; split.
  - unfold exec; now destruct (ex_failure _).
  - now constructor.
Qed.

Lemma emits_getReleaseByTag (owner repo tag : string) :
  P (EvGetReleaseByTag owner repo tag) ->
  emits P (getReleaseByTag owner repo tag).
Proof.
  intros H w; exists [EvGetReleaseByTag owner repo tag]; split.
  - now rewrite getReleaseByTag_world.
  - now constructor.
Qed.

Lemma emits_required {A} (name : string) (value : str)
      (request : string -> M A) :
  (forall s, emits P (request s)) -> emits P (required name value request).
Proof.
  intros H; destruct value as [s|]; [apply H | apply emits_throw].
Qed.

Lemma emits_createRelease (owner : string) (repo : str) (tag : string) :
  (forall r, P (EvCreateRelease owner r tag)) ->
  emits P (createRelease owner repo tag).
Proof.
  intros H; apply emits_required; intros r w.
  exists [EvCreateRelease owner r tag]; split.
  - unfold createReleaseRequest.
    now destruct (api_fault w (now w) _).
  - constructor; [apply H | constructor].
Qed.

Lemma emits_listAssetsForRelease (owner repo : string) (id : Z) :
  P (EvListAssetsForRelease owner repo id) ->
  emits P (listAssetsForRelease owner repo id).
Proof.
  intros H w; exists [EvListAssetsForRelease owner repo id]; split.
  - unfold listAssetsForRelease.
    destruct (api_fault w (now w) _); [reflexivity|].
    now destruct (find _ (registry w)).
  - now constructor.
Qed.

End Emits.

Lemma setup_is_quiet (otpVersion : string) : emits quiet (setup otpVersion).
Proof.
  unfold setup.
  repeat (apply emits_bind; [|intros _]);
    try apply emits_ret; apply emits_exec; reflexivity.
Qed.

Lemma getOrCreateRelease_is_quiet (owner : string) (repo : str) (tag : string) :
  emits quiet (getOrCreateRelease owner repo tag).
Proof.
  unfold getOrCreateRelease, getRelease.
  apply emits_bind.
  - apply emits_try_catch.
    + apply emits_bind; [|intros; apply emits_ret].
      apply emits_required; intros r; now apply emits_getReleaseByTag.
    + intros e; destruct (status_is_not_404 e); [|apply emits_ret].
      apply emits_bind; [apply emits_ask | intros; apply emits_throw].
  - intros [r|]; [apply emits_ret | now apply emits_createRelease].
Qed.

Lemma getAsset_is_quiet (owner : string) (repo : str) (id : Z)
      (assetName : string) :
  emits quiet (getAsset owner repo id assetName).
Proof.
  unfold getAsset.
  apply emits_bind; [|intros; apply emits_ret].
  apply emits_required; intros r; now apply emits_listAssetsForRelease.
Qed.

(** ** Relations that every step keeps *)

Lemma exec_result (cmd : string) (args : list string) (input : option patch)
      (w : World) :
  exec cmd args input w
  = (record (EvExec (mkExec (cwd w) cmd args input)) w,
     match ex_failure (child_process w (now w) (mkExec (cwd w) cmd args input))
     with
     | Some message => Throw (ExecError message)
     | None =>
         Ok (ex_lines (child_process w (now w)
                                     (mkExec (cwd w) cmd args input)))
     end).
Proof. unfold exec; now destruct (ex_failure _). Qed.

Lemma listAssetsForRelease_world (owner repo : string) (id : Z) (w : World) :
  fst (listAssetsForRelease owner repo id w)
  = record (EvListAssetsForRelease owner repo id) w.
Proof.
  unfold listAssetsForRelease.
  destruct (api_fault w (now w) _); [reflexivity|].
  now destruct (find _ (registry w)).
Qed.

Section Steps.

Variable R : World -> World -> Prop.

Hypothesis R_refl : forall w, R w w.
Hypothesis R_trans : forall w1 w2 w3, R w1 w2 -> R w2 w3 -> R w1 w3.

Lemma steps_ret {A} (a : A) : steps R (ret a).
Proof. intros w; apply R_refl. Qed.

Lemma steps_throw {A} (e : thrown) : steps R (@throw A e).
Proof. intros w; apply R_refl. Qed.

Lemma steps_ask {A} (f : World -> A) : steps R (ask f).
Proof. intros w; apply R_refl. Qed.

Lemma steps_await {A} (p : promise A) : steps R (await p).
Proof. intros w; apply R_refl. Qed.

Lemma steps_bind {A B} (m : M A) (k : A -> M B) :
  steps R m -> (forall a, steps R (k a)) -> steps R (bind m k).
Proof.
  intros Hm Hk w; unfold bind; specialize (Hm w).
  destruct (m w) as [w' [a|e]]; cbn [fst] in *; [|exact Hm].
  eapply R_trans; [exact Hm | apply Hk].
Qed.

Lemma steps_try_catch {A} (m : M A) (handler : thrown -> M A) :
  steps R m -> (forall e, steps R (handler e)) -> steps R (try_catch m handler).
Proof.
  intros Hm Hh w; unfold try_catch; specialize (Hm w).
  destruct (m w) as [w' [a|e]]; cbn [fst] in *; [exact Hm|].
  eapply R_trans; [exact Hm | apply Hh].
Qed.

Lemma steps_async {A} (m : M A) : steps R m -> steps R (async m).
Proof.
  intros Hm w; unfold async; specialize (Hm w); now destruct (m w).
Qed.

Lemma steps_mapM {A B} (f : A -> M B) (xs : list A) :
  (forall x, steps R (f x)) -> steps R (mapM f xs).
Proof.
  intros H; induction xs as [|x xs IH]; simpl.
  - apply steps_ret.
  - apply steps_bind; [apply H | intros y].
    apply steps_bind; [exact IH | intros ys; apply steps_ret].
Qed.

Lemma steps_required {A} (name : string) (value : str)
      (request : string -> M A) :
  (forall s, steps R (request s)) -> steps R (required name value request).
Proof.
  intros H; destruct value as [s|]; [apply H | apply steps_throw].
Qed.

Lemma steps_readdirSync (dir : string) : steps R (readdirSync dir).
Proof.
  intros w; unfold readdirSync.
  destruct (readdir w (now w) dir); apply R_refl.
Qed.

Lemma steps_statSync_size (path : string) : steps R (statSync_size path).
Proof.
  intros w; unfold statSync_size.
  destruct (stat_size w (now w) path); apply R_refl.
Qed.

Hypothesis R_event : forall e w, moves e = false -> R w (record e w).
Hypothesis R_exec :
  forall cmd args input w,
    R w (record (EvExec (mkExec (cwd w) cmd args input)) w).
Hypothesis R_create :
  forall owner repo tag, steps R (createReleaseRequest owner repo tag).
Hypothesis R_upload :
  forall url name size path, steps R (uploadReleaseAsset url name size path).
Hypothesis R_archive : forall assetName, steps R (archive assetName).

Lemma steps_emit (e : event) : moves e = false -> steps R (emit e).
Proof. intros H w; now apply R_event. Qed.

Lemma steps_exec (cmd : string) (args : list string) (input : option patch) :
  steps R (exec cmd args input).
Proof. intros w; unfold exec; destruct (ex_failure _); apply R_exec. Qed.

Lemma steps_group {A} (name : string) (fn : M A) :
  steps R fn -> steps R (group name fn).
Proof.
  intros H; unfold group.
  apply steps_bind; [now apply steps_emit | intros _].
  intros w; unfold try_finally; specialize (H w).
  destruct (fn w) as [w' r]; cbn [fst] in *.
  eapply R_trans; [exact H | now apply R_event].
Qed.

Lemma steps_getReleaseByTag (owner repo tag : string) :
  steps R (getReleaseByTag owner repo tag).
Proof. intros w; rewrite getReleaseByTag_world; now apply R_event. Qed.

Lemma steps_listAssetsForRelease (owner repo : string) (id : Z) :
  steps R (listAssetsForRelease owner repo id).
Proof. intros w; rewrite listAssetsForRelease_world; now apply R_event. Qed.

Lemma steps_setup (otpVersion : string) : steps R (setup otpVersion).
Proof.
  unfold setup.
  repeat (apply steps_bind; [apply steps_exec | intros _]).
  apply steps_ret.
Qed.

Lemma steps_applyPatch (p : patch) : steps R (applyPatch p).
Proof.
  unfold applyPatch.
  apply steps_bind; [apply steps_exec | intros; apply steps_ret].
Qed.

Lemma steps_maybePatch (otpVersion : string) : steps R (maybePatch otpVersion).
Proof.
  unfold maybePatch, maybePatchDarwin, maybePatchCatalina, maybePatchAll,
    applyWxPtrPatch, applyCatarinaNoWeakImportsPatch, applyZlibPatch.
  apply steps_bind; [apply steps_ask | intros p].
  apply steps_bind.
  - destruct (String.eqb p "darwin"); [|apply steps_ret].
    apply steps_bind.
    + destruct (maybePatchDarwin_test _ _ _);
        [apply steps_applyPatch | apply steps_ret].
    + intros _; destruct (maybePatchCatalina_test _ _ _);
        [apply steps_applyPatch | apply steps_ret].
  - intros _; destruct (maybePatchAll_test _ _ _);
      [apply steps_applyPatch | apply steps_ret].
Qed.

Lemma steps_make : steps R make.
Proof.
  unfold make.
  apply steps_bind; [apply steps_ask | intros n].
  apply steps_bind; [apply steps_ask | intros p].
  apply steps_bind.
  - destruct (String.eqb p "darwin"); [|apply steps_ret].
    apply steps_bind; [apply steps_exec | intros; apply steps_ret].
  - intros ssl.
    do 4 (apply steps_bind; [apply steps_group, steps_exec | intros _]).
    apply steps_ret.
Qed.

Lemma steps_sha256 (archivedPath : string) : steps R (sha256 archivedPath).
Proof.
  unfold sha256, writeFileSync.
  apply steps_bind; [apply steps_exec | intros lines].
  apply steps_bind; [now apply steps_emit | intros; apply steps_ret].
Qed.

Lemma steps_makeAsset (otpVersion assetName : string) :
  steps R (makeAsset otpVersion assetName).
Proof.
  unfold makeAsset.
  apply steps_bind; [apply steps_maybePatch | intros _].
  apply steps_bind; [apply steps_make | intros _].
  apply steps_bind; [apply R_archive | intros archivedPath].
  apply steps_bind; [apply steps_sha256 | intros; apply steps_ret].
Qed.

Lemma steps_getOrCreateRelease (owner : string) (repo : str) (tag : string) :
  steps R (getOrCreateRelease owner repo tag).
Proof.
  unfold getOrCreateRelease, getRelease, createRelease.
  apply steps_bind.
  - apply steps_try_catch.
    + apply steps_bind; [|intros; apply steps_ret].
      apply steps_required; intros r; apply steps_getReleaseByTag.
    + intros e; destruct (status_is_not_404 e); [|apply steps_ret].
      apply steps_bind; [apply steps_ask | intros; apply steps_throw].
  - intros [r|]; [apply steps_ret|].
    apply steps_required; intros r; apply R_create.
Qed.

Lemma steps_getAsset (owner : string) (repo : str) (releaseId : Z)
      (assetName : string) :
  steps R (getAsset owner repo releaseId assetName).
Proof.
  unfold getAsset.
  apply steps_bind; [|intros; apply steps_ret].
  apply steps_required; intros r; apply steps_listAssetsForRelease.
Qed.

Lemma steps_uploadAssets (uploadUrl : string) (assetPaths : list string) :
  steps R (uploadAssets uploadUrl assetPaths).
Proof.
  unfold uploadAssets.
  apply steps_bind; [|intros; apply steps_await].
  apply steps_mapM; intros p; unfold uploadAssets_callback, uploadAsset.
  apply steps_bind; [|intros; apply steps_ret].
  apply steps_async, steps_bind; [apply steps_statSync_size | intros size].
  apply R_upload.
Qed.

Lemma steps_publish (owner : string) (repo : str)
      (assetName otpVersion : string) :
  steps R (publish owner repo assetName otpVersion).
Proof.
  unfold publish.
  apply steps_bind; [apply steps_setup | intros _].
  apply steps_bind;
    [apply steps_getOrCreateRelease | intros [releaseId uploadUrl]].
  apply steps_bind; [apply steps_getAsset | intros assetId].
  destruct (negb (assetId_truthy assetId)); [|apply steps_ret].
  apply steps_bind;
    [apply steps_makeAsset | intros [archivedPath sha256Path]].
  apply steps_uploadAssets.
Qed.





Lemma steps_iteration (owner : string) (repo : str)
      (assetName otpVersion : string) :
  steps R (iteration owner repo assetName otpVersion).
Proof.
  unfold iteration.
  apply steps_bind; [now apply steps_emit | intros _].
  apply steps_try_catch; [apply steps_publish | intros e].
  now apply steps_emit.
Qed.

Lemma steps_forEach (body : string -> M unit) (otpVersions : list string) :
  (forall v, steps R (body v)) -> steps R (forEach body otpVersions).
Proof.
  intros H; induction otpVersions as [|v vs IH]; simpl.
  - apply steps_ret.
  - apply steps_bind; [apply H | intros _; exact IH].
Qed.

Lemma steps_run : steps R run.
Proof.
  unfold run, prepare, newGitHub, ownerAndRepo, getAssetName, getOTPVersions.
  apply steps_try_catch; [|intros e; now apply steps_emit].
  apply steps_bind.
  - apply steps_bind; [apply steps_ask | intros token].
    apply steps_bind;
      [destruct (String.eqb token EmptyString);
       [apply steps_throw | apply steps_ret] | intros _].
    apply steps_bind.
    + apply steps_bind; [apply steps_ask | intros [r|]];
        [apply steps_ret | apply steps_throw].
    + intros names.
      apply steps_bind;
        [apply steps_bind; [apply steps_exec | intros; apply steps_ret]
        | intros assetName].
      apply steps_bind; [apply steps_ask | intros given].
      apply steps_bind; [apply steps_exec | intros; apply steps_ret].
  - intros [[[owner repo] assetName] otpVersions].
    apply steps_forEach; intros v; apply steps_iteration.
Qed.

End Steps.

(** *** The ids of the registry stay positive *)

Lemma positive_ids_record (e : event) (w : World) :
  positive_ids w -> positive_ids (record e w).
Proof. now intros H. Qed.

Lemma createRelease_keeps_ids_positive (owner repo tag : string) :
  steps ids_stay_positive (createReleaseRequest owner repo tag).
Proof.
  intros w [N F]; unfold createReleaseRequest.
  destruct (api_fault w (now w) _); [now split|].
  split; cbn [fst next_id registry set_registry record]; [lia|].
  apply Forall_app; split; [exact F | repeat constructor].
Qed.

Lemma uploadReleaseAsset_keeps_ids_positive
      (url name : string) (size : Z) (path : string) :
  steps ids_stay_positive (uploadReleaseAsset url name size path).
Proof.
  intros w [N F]; unfold uploadReleaseAsset.
  destruct (api_fault w (now w) _); [now split|].
  split; cbn [fst next_id registry set_registry record]; [lia|].
  apply Forall_forall; intros r Hr; apply in_map_iff in Hr.
  destruct Hr as (r0 & <- & Hr0).
  pose proof (proj1 (Forall_forall _ _) F r0 Hr0) as A.
  unfold add_asset; destruct (String.eqb (rel_upload_url r0) url); [|exact A].
  cbn [rel_assets]; apply Forall_app; split; [exact A|].
  repeat constructor; exact N.
Qed.

Lemma archive_keeps_ids_positive (assetName : string) :
  steps ids_stay_positive (archive assetName).
Proof.
  intros w H; unfold archive, bind, ask, readdirSync.
  destruct (readdir w (now w) _) as [entries|]; [|exact H].
  destruct (_ <? 1)%nat; [exact H|].
  destruct (1 <? _)%nat; [exact H|].
  cbn -[Path.join]; unfold exec.
  destruct (ex_failure _); exact H.
Qed.

Lemma setup_keeps_ids_positive (otpVersion : string) :
  steps ids_stay_positive (setup otpVersion).
Proof. apply steps_setup; unfold ids_stay_positive; auto. Qed.

Lemma getOrCreateRelease_keeps_ids_positive
      (owner : string) (repo : str) (tag : string) :
  steps ids_stay_positive (getOrCreateRelease owner repo tag).
Proof.
  apply steps_getOrCreateRelease; unfold ids_stay_positive; auto.
  apply createRelease_keeps_ids_positive.
Qed.

Lemma publish_keeps_ids_positive (owner : string) (repo : str)
      (assetName otpVersion : string) :
  steps ids_stay_positive (publish owner repo assetName otpVersion).
Proof.
  apply steps_publish; unfold ids_stay_positive; auto.
  - apply createRelease_keeps_ids_positive.
  - apply uploadReleaseAsset_keeps_ids_positive.
  - apply archive_keeps_ids_positive.
Qed.

Lemma run_keeps_ids_positive : steps ids_stay_positive run.
Proof.
  apply steps_run; unfold ids_stay_positive; auto.
  - apply createRelease_keeps_ids_positive.
  - apply uploadReleaseAsset_keeps_ids_positive.
  - apply archive_keeps_ids_positive.
Qed.

(** ** The asset lookup and the skip *)

Lemma findAssetId_first_match (assets : list asset) (assetName : string) :
  match findAssetId assets assetName with
  | Some id =>
      exists before a after,
        assets = before ++ a :: after
        /\ asset_name a = assetName /\ asset_id a = id
        /\ Forall (fun b => asset_name b <> assetName) before
  | None => Forall (fun b => asset_name b <> assetName) assets
  end.
Proof.
  unfold findAssetId.
  induction assets as [|a assets IH]; simpl; [constructor|].
  destruct (String.eqb_spec (asset_name a) assetName) as [E|N]; simpl.
  - exists [], a, assets; repeat split; auto.
  - destruct (find _ assets) as [found|]; simpl in *.
    + destruct IH as (before & a' & after & -> & Hn & Hi & Hb).
      exists (a :: before), a', after; repeat split; auto.
    + now constructor.
Qed.

Lemma getAsset_reads_the_listing (owner repo : string) (releaseId : Z)
      (assetName : string) (w : World) :
  getAsset owner repo releaseId assetName w
  = match listAssetsForRelease owner repo releaseId w with
    | (w', Ok assets) => (w', Ok (findAssetId assets assetName))
    | (w', Throw e) => (w', Throw e)
    end.
Proof.
  unfold getAsset, required, bind; cbv beta iota.
  now destruct (listAssetsForRelease owner repo releaseId w) as [w' [assets|e]].
Qed.

Lemma emitted {A} (P : event -> Prop) (m : M A) (w w' : World) (r : result A) :
  emits P m -> m w = (w', r) ->
  exists evs, trace w' = trace w ++ evs /\ Forall P evs.
Proof. intros H E; specialize (H w); now rewrite E in H. Qed.

Lemma listed_ids_are_positive (owner repo : string) (releaseId : Z)
      (assetName : string) (w w' : World) (id : Z) :
  positive_ids w ->
  getAsset owner repo releaseId assetName w = (w', Ok (Some id)) ->
  0 < id.
Proof.
  intros [_ F] H; rewrite getAsset_reads_the_listing in H.
  unfold listAssetsForRelease in H.
  destruct (api_fault w (now w) _); [discriminate|].
  destruct (find _ (registry w)) as [r|] eqn:Hr; [|discriminate].
  injection H as _ H.
  apply find_some in Hr; destruct Hr as [Hr _].
  pose proof (proj1 (Forall_forall _ _) F r Hr) as A; cbv beta in A.
  pose proof (findAssetId_first_match (rel_assets r) assetName) as M.
  rewrite H in M; destruct M as (before & a & after & E & _ & <- & _).
  rewrite E in A; apply Forall_app in A; destruct A as [_ A].
  now inversion A.
Qed.

(** C7.  The lookup returns the id of the first asset of the listing whose
    name is equal to the requested name, and nothing when no asset has
    that name; and when it returns an id for the asset name, [publish]
    ends there: since the start of the version only [git] ran and only the
    release and its assets were requested.  The ids are those of the
    registry, which numbers its records from a positive counter: the id
    returned is positive, and the requests of the program keep the ids
    positive. *)
Theorem asset_lookup_guards_publication
        (owner repo assetName otpVersion : string) (w w1 w2 w3 : World)
        (releaseId : Z) (uploadUrl : string) (id : Z) :
  positive_ids w ->
  setup otpVersion w = (w1, Ok tt) ->
  getOrCreateRelease owner repo otpVersion w1 = (w2, Ok (releaseId, uploadUrl)) ->
  getAsset owner repo releaseId assetName w2 = (w3, Ok (Some id)) ->
  (forall assets name,
      match findAssetId assets name with
      | Some found =>
          exists before a after,
            assets = before ++ a :: after
            /\ asset_name a = name /\ asset_id a = found
            /\ Forall (fun b => asset_name b <> name) before
      | None => Forall (fun b => asset_name b <> name) assets
      end)
  /\ (exists assets,
         listAssetsForRelease owner repo releaseId w2 = (w3, Ok assets)
         /\ findAssetId assets assetName = Some id)
  /\ publish owner repo assetName otpVersion w = (w3, Ok tt)
  /\ (exists evs,
         trace w3 = trace w ++ evs
         /\ Forall (fun e => builds_or_publishes e = false) evs)
  /\ positive_ids w3.
Proof.
  intros Hp Hs Hr Ha.
  assert (P2 : positive_ids w2).
  { pose proof (@setup_keeps_ids_positive otpVersion w Hp) as P1.
    rewrite Hs in P1; cbn [fst] in P1.
    pose proof (@getOrCreateRelease_keeps_ids_positive owner repo otpVersion
                                                       w1 P1) as P2.
    now rewrite Hr in P2. }
  pose proof (listed_ids_are_positive _ _ _ _ P2 Ha) as Hid.
  split; [|split; [|split; [|split]]].
  - intros assets name; apply findAssetId_first_match.
  - rewrite getAsset_reads_the_listing in Ha.
    destruct (listAssetsForRelease owner repo releaseId w2) as [w' [assets|e]];
      [|discriminate].
    exists assets; now inversion Ha; subst.
  - unfold publish, bind; rewrite Hs, Hr; cbv beta iota; rewrite Ha.
    unfold assetId_truthy.
    destruct (Z.eqb_spec id 0); [lia | reflexivity].
  - destruct (@emitted _ _ _ _ _ _ (setup_is_quiet otpVersion) Hs)
      as (e1 & T1 & F1).
    destruct (@emitted _ _ _ _ _ _
                (getOrCreateRelease_is_quiet owner repo otpVersion) Hr)
      as (e2 & T2 & F2).
    destruct (@emitted _ _ _ _ _ _
                (getAsset_is_quiet owner repo releaseId assetName) Ha)
      as (e3 & T3 & F3).
    exists (e1 ++ e2 ++ e3); split.
    + now rewrite T3, T2, T1, <- !app_assoc.
    + apply Forall_app; split; [exact F1|].
      apply Forall_app; split; [exact F2 | exact F3].
  - rewrite getAsset_reads_the_listing in Ha.
    pose proof (listAssetsForRelease_world owner repo releaseId w2) as W.
    destruct (listAssetsForRelease owner repo releaseId w2) as [w' [assets|e]];
      [|discriminate].
    injection Ha as -> _; cbn [fst] in W; subst w3.
    now apply positive_ids_record.
Qed.

Lemma asset_lookup_guards_publication_witness :
  exists w3,
    publish "niku" "otp-kuroko" "linux-5.4.0.tar.gz" "OTP-23.0" Host.published_already
    = (w3, Ok tt)
    /\ (exists evs,
           trace w3 = trace Host.published_already ++ evs
           /\ Forall (fun e => builds_or_publishes e = false) evs)
    /\ positive_ids w3.
Proof.
  eexists.
  refine (proj2 (proj2 (@asset_lookup_guards_publication
            "niku" "otp-kuroko" "linux-5.4.0.tar.gz" "OTP-23.0"
            Host.published_already _ _ _ 7
            "https://uploads.github.com/releases/7/assets" 41 _ _ _ _)));
    [|reflexivity | reflexivity | reflexivity].
  split; [reflexivity | repeat constructor].
Defined.

(** ** Packaging *)

Lemma now_record (e : event) (w : World) : now (record e w) = S (now w).
Proof. unfold now, record; cbn; rewrite length_app; cbn; lia. Qed.

Section Archive.

Variables (assetName : string) (w : World) (entries : list dirent).

Let releaseDirectory := Path.join (cwd w) "release".
Let subDirectories := subDirectoriesOf entries.
Let archivedPath := Path.join releaseDirectory assetName.

Hypothesis listing : readdir w (now w) releaseDirectory = Some entries.

Lemma archive_no_directory :
  subDirectories = [] ->
  archive assetName w = (w, Throw (no_sub_directory releaseDirectory)).
Proof.
  intros H; unfold archive, bind, ask, readdirSync.
  fold releaseDirectory; rewrite listing; fold subDirectories.
  now rewrite H.
Qed.

Lemma archive_too_many :
  (2 <= List.length subDirectories)%nat ->
  archive assetName w
  = (w, Throw (too_many_directories releaseDirectory subDirectories)).
Proof.
  intros H; unfold archive, bind, ask, readdirSync.
  fold releaseDirectory; rewrite listing; fold subDirectories.
  destruct (Nat.ltb_spec (List.length subDirectories) 1); [lia|].
  destruct (Nat.ltb_spec 1 (List.length subDirectories)); [reflexivity | lia].
Qed.

Variable d : string.
Hypothesis single : subDirectories = [d].

Let subDirectory := Path.join releaseDirectory d.
Let tar := mkExec subDirectory "tar" ["-zcf"; archivedPath; "."] None.
Let entered := record (EvChdir subDirectory) (set_cwd subDirectory w).

Lemma archive_single_succeeds :
  ex_failure (child_process w (S (now w)) tar) = None ->
  archive assetName w
  = (record (EvChdir (cwd w)) (set_cwd (cwd w) (record (EvExec tar) entered)),
     Ok archivedPath).
Proof.
  intros H; unfold archive, bind, ask, readdirSync.
  fold releaseDirectory; rewrite listing; fold subDirectories.
  rewrite single; cbn -[Path.join].
  fold releaseDirectory subDirectory archivedPath entered.
  rewrite exec_succeeds.
  - reflexivity.
  - unfold entered; rewrite now_record; exact H.
Qed.

Lemma archive_single_fails (message : string) :
  ex_failure (child_process w (S (now w)) tar) = Some message ->
  archive assetName w = (record (EvExec tar) entered, Throw (ExecError message)).
Proof.
  intros H; unfold archive, bind, ask, readdirSync.
  fold releaseDirectory; rewrite listing; fold subDirectories.
  rewrite single; cbn -[Path.join].
  fold releaseDirectory subDirectory archivedPath entered.
  rewrite exec_fails with (message := message).
  - reflexivity.
  - unfold entered; rewrite now_record; exact H.
Qed.

End Archive.

(** C8, as stated, fails when [tar] fails: the release directory holds
    exactly one directory and [archive] does not succeed. *)
Lemma archive_fails_with_one_directory :
  readdir Host.tar_fails (now Host.tar_fails)
          (Path.join (cwd Host.tar_fails) "release")
  = Some [mkDirent "otp" true; mkDirent "README" false]
  /\ subDirectoriesOf [mkDirent "otp" true; mkDirent "README" false] = ["otp"]
  /\ snd (archive "linux-5.4.0.tar.gz" Host.tar_fails)
     = Throw (ExecError "The process 'tar' failed with exit code 2").
Proof. repeat split. Qed.

(** C8, amended.  Given the listing of the release directory, [archive]
    throws its own error exactly when the listing holds no directory or two
    or more.  With exactly one directory it enters that directory, runs
    [tar -zcf archivedPath .] there, where [archivedPath] is [assetName]
    joined to the release directory, and returns [archivedPath] when [tar]
    succeeds; when [tar] fails, its error is the error of [archive]. *)
Theorem archive_needs_one_directory
        (assetName : string) (w : World) (entries : list dirent) :
  let releaseDirectory := Path.join (cwd w) "release" in
  let subDirectories := subDirectoriesOf entries in
  let archivedPath := Path.join releaseDirectory assetName in
  readdir w (now w) releaseDirectory = Some entries ->
  ((exists w' message, archive assetName w = (w', Throw (JsError message)))
   <-> List.length subDirectories <> 1%nat)
  /\ (subDirectories = [] ->
      archive assetName w = (w, Throw (no_sub_directory releaseDirectory)))
  /\ ((2 <= List.length subDirectories)%nat ->
      archive assetName w
      = (w, Throw (too_many_directories releaseDirectory subDirectories)))
  /\ (forall d,
         subDirectories = [d] ->
         let subDirectory := Path.join releaseDirectory d in
         let tar := mkExec subDirectory "tar" ["-zcf"; archivedPath; "."] None in
         (ex_failure (child_process w (S (now w)) tar) = None ->
          exists w',
            archive assetName w = (w', Ok archivedPath)
            /\ trace w' = trace w ++ [EvChdir subDirectory; EvExec tar;
                                      EvChdir (cwd w)])
         /\ (forall message,
                ex_failure (child_process w (S (now w)) tar) = Some message ->
                exists w', archive assetName w = (w', Throw (ExecError message)))).
Proof.
  intros releaseDirectory subDirectories archivedPath listing.
  assert (none := archive_no_directory assetName w listing).
  assert (many := archive_too_many assetName w listing).
  assert (ok := fun d H => @archive_single_succeeds assetName w entries listing d H).
  assert (ko := fun d H => @archive_single_fails assetName w entries listing d H).
  fold releaseDirectory subDirectories archivedPath in none, many, ok, ko.
  split; [|split; [exact none | split; [exact many|]]].
  - split.
    + intros (w' & message & E) L.
      destruct subDirectories as [|d [|d' l]] eqn:Hs; try (simpl in L; lia).
      destruct (ex_failure
                  (child_process w (S (now w))
                     (mkExec (Path.join releaseDirectory d) "tar"
                             ["-zcf"; archivedPath; "."] None))) eqn:T.
      * rewrite (ko d eq_refl _ T) in E; discriminate.
      * rewrite (ok d eq_refl T) in E; discriminate.
    + intros L.
      destruct subDirectories as [|d [|d' l]] eqn:Hs.
      * exists w; eexists; now rewrite none.
      * now elim L.
      * exists w; eexists; rewrite many; [reflexivity | simpl; lia].
  - intros d Hd subDirectory tar; split.
    + intros T; eexists; split; [exact (ok d Hd T)|].
      cbn; now rewrite <- !app_assoc.
    + intros message T; eexists; exact (ko d Hd message T).
Qed.

Lemma archive_needs_one_directory_witness :
  (exists w',
      archive "linux-5.4.0.tar.gz" Host.linux
      = (w', Ok "/w/release/linux-5.4.0.tar.gz")
      /\ trace w'
         = [EvChdir "/w/release/otp";
            EvExec (mkExec "/w/release/otp" "tar"
                           ["-zcf"; "/w/release/linux-5.4.0.tar.gz"; "."] None);
            EvChdir "/w"])
  /\ (exists w',
         archive "linux-5.4.0.tar.gz" Host.tar_fails
         = (w', Throw (ExecError "The process 'tar' failed with exit code 2")))
  /\ archive "linux-5.4.0.tar.gz" Host.no_directory
     = (Host.no_directory, Throw (no_sub_directory "/w/release"))
  /\ archive "linux-5.4.0.tar.gz" Host.two_directories
     = (Host.two_directories,
        Throw (too_many_directories "/w/release" ["otp"; "erlang"]%string)).
Proof.
  split; [|split; [|split]].
  - exact (proj1 (proj2 (proj2 (proj2
             (@archive_needs_one_directory "linux-5.4.0.tar.gz" Host.linux
                [mkDirent "otp" true; mkDirent "README" false] eq_refl)))
             "otp"%string eq_refl) eq_refl).
  - exact (proj2 (proj2 (proj2 (proj2
             (@archive_needs_one_directory "linux-5.4.0.tar.gz" Host.tar_fails
                [mkDirent "otp" true; mkDirent "README" false] eq_refl)))
             "otp"%string eq_refl)
             "The process 'tar' failed with exit code 2"%string eq_refl).
  - exact (proj1 (proj2
             (@archive_needs_one_directory "linux-5.4.0.tar.gz" Host.no_directory
                [mkDirent "README" false] eq_refl)) eq_refl).
  - refine (proj1 (proj2 (proj2
             (@archive_needs_one_directory "linux-5.4.0.tar.gz"
                Host.two_directories
                [mkDirent "otp" true; mkDirent "erlang" true] eq_refl))) _).
    simpl; lia.
Defined.

(** ** The working directory *)

Lemma iteration_keeps_the_cwd_of_publish
      (owner : string) (repo : str) (assetName otpVersion : string) (w : World) :
  cwd (fst (iteration owner repo assetName otpVersion w))
  = cwd (fst (publish owner repo assetName otpVersion
                      (record (EvInfo ("Starting " ++ otpVersion ++ ".")) w))).
Proof.
  unfold iteration, bind, emit, try_catch.
  now destruct (publish _ _ _ _ _) as [w' [u|e]].
Qed.

Lemma exec_starts_in_the_cwd (cmd : string) (args : list string)
      (input : option patch) (w : World) :
  trace (fst (exec cmd args input w))
  = trace w ++ [EvExec (mkExec (cwd w) cmd args input)].
Proof. unfold exec; now destruct (ex_failure _). Qed.

(** After [tar] failed for OTP-23.0, the [git] commands of OTP-23.1 run in
    the directory [archive] had entered. *)
Example tar_failure_moves_the_next_version :
  map ex_cwd
      (flat_map (fun e => match e with
                          | EvExec req =>
                              if String.eqb (ex_cmd req) "git" then [req] else []
                          | _ => []
                          end)
                (trace (fst (run Host.tar_fails))))
  = ["/w"; "/w"; "/w"; "/w";
     "/w/release/otp"; "/w/release/otp"; "/w/release/otp"]%string.
Proof. reflexivity. Qed.

(** ** The checksum *)

Lemma chars_app (s t : string) :
  Path.chars (s ++ t)%string = Path.chars s ++ Path.chars t.
Proof. induction s as [|c s IH]; simpl; [reflexivity | now f_equal]. Qed.

Lemma text_app (l m : list ascii) :
  Path.text (l ++ m) = (Path.text l ++ Path.text m)%string.
Proof. induction l as [|c l IH]; simpl; [reflexivity | now f_equal]. Qed.

Lemma text_chars (s : string) : Path.text (Path.chars s) = s.
Proof. apply string_of_list_ascii_of_string. Qed.

Lemma chars_text (l : list ascii) : Path.chars (Path.text l) = l.
Proof. apply list_ascii_of_string_of_list_ascii. Qed.

Lemma prefix_app (s t : string) : String.prefix s (s ++ t) = true.
Proof.
  induction s as [|c s IH]; simpl; [now destruct t|].
  now destruct (ascii_dec c c).
Qed.

Lemma length_append (s t : string) :
  String.length (s ++ t) = (String.length s + String.length t)%nat.
Proof. induction s as [|c s IH]; simpl; [reflexivity | now f_equal]. Qed.

Lemma substring_append (s t : string) :
  String.substring 0 (String.length s) (s ++ t) = s.
Proof.
  induction s as [|c s IH]; simpl; [now destruct t | now f_equal].
Qed.

Lemma takeWhile_all {A} (p : A -> bool) (l : list A) :
  forallb p l = true -> Path.takeWhile p l = l.
Proof.
  induction l as [|x l IH]; simpl; [reflexivity|].
  destruct (p x); simpl; [intros H; now rewrite IH | discriminate].
Qed.

Lemma takeWhile_forallb {A} (p : A -> bool) (l : list A) :
  forallb p (Path.takeWhile p l) = true.
Proof.
  induction l as [|x l IH]; simpl; [reflexivity|].
  destruct (p x) eqn:E; simpl; [now rewrite E | reflexivity].
Qed.

Lemma dropWhile_none {A} (p : A -> bool) (l : list A) :
  forallb (fun x => negb (p x)) l = true -> Path.dropWhile p l = l.
Proof.
  destruct l as [|x l]; simpl; [reflexivity|].
  now destruct (p x).
Qed.

Lemma forallb_rev {A} (p : A -> bool) (l : list A) :
  forallb p (rev l) = forallb p l.
Proof.
  induction l as [|x l IH]; simpl; [reflexivity|].
  rewrite forallb_app, IH; simpl.
  now rewrite andb_true_r, andb_comm.
Qed.

Lemma basename_plain (s : string) : plain s = true -> Path.basename s = s.
Proof.
  unfold plain, Path.basename, Path.trimmed_rev; intros H.
  rewrite dropWhile_none by now rewrite forallb_rev.
  rewrite takeWhile_all by now rewrite forallb_rev.
  now rewrite rev_involutive, text_chars.
Qed.

Lemma basename_is_plain (p : string) : plain (Path.basename p) = true.
Proof.
  unfold plain, Path.basename.
  now rewrite chars_text, forallb_rev, takeWhile_forallb.
Qed.

Lemma endsWith_append (s ext : string) : Path.endsWith ext (s ++ ext) = true.
Proof.
  unfold Path.endsWith.
  now rewrite chars_app, rev_app_distr, text_app, prefix_app.
Qed.

Lemma basename_ext_strips (stem : string) :
  plain (stem ++ ".tar.gz") = true ->
  Path.basename_ext (stem ++ ".tar.gz") ".tar.gz" = stem.
Proof.
  intros H; unfold Path.basename_ext.
  rewrite length_append; cbn [String.length].
  destruct (Nat.ltb_spec (String.length stem + 7) 7) as [L|_]; [lia|].
  cbn [Nat.eqb orb].
  destruct (String.eqb_spec ".tar.gz" (stem ++ ".tar.gz")) as [E|N].
  - apply (f_equal String.length) in E; rewrite length_append in E.
    cbn [String.length] in E.
    destruct stem; [reflexivity | simpl in E; lia].
  - rewrite (basename_plain _ H), endsWith_append.
    destruct (String.eqb_spec ".tar.gz" (stem ++ ".tar.gz")); [contradiction|].
    cbn [andb negb]; unfold Path.dropEnd.
    rewrite length_append; cbn [String.length].
    replace (String.length stem + 7 - 7)%nat with (String.length stem) by lia.
    apply substring_append.
Qed.

Lemma sidecar_name (archivedPath stem : string) :
  Path.parse_base archivedPath = (stem ++ ".tar.gz")%string ->
  sha256FilePathOf archivedPath
  = Path.join (Path.parse_dir archivedPath) (stem ++ ".sha256.txt").
Proof.
  intros H; unfold sha256FilePathOf; rewrite H.
  rewrite basename_ext_strips; [reflexivity|].
  rewrite <- H; apply basename_is_plain.
Qed.

Lemma split_nonempty (sep : ascii) (s : string) : split sep s <> [].
Proof.
  destruct s as [|c s]; simpl; [discriminate|].
  destruct (Ascii.eqb c sep); [discriminate|].
  destruct (split sep s); discriminate.
Qed.

Lemma firstField_before_the_space (digest rest : string) :
  ~ In " "%char (Path.chars digest) ->
  firstField (digest ++ " " ++ rest) = digest.
Proof.
  unfold firstField; induction digest as [|c s IH]; simpl; intros H.
  - reflexivity.
  - destruct (Ascii.eqb_spec c " ") as [E|N]; [elim H; now left|].
    assert (IH' : hd EmptyString (split " " (s ++ " " ++ rest)) = s)
      by (apply IH; intros I; apply H; now right).
    destruct (split " " (s ++ " " ++ rest)) as [|h t] eqn:E.
    + now elim (split_nonempty _ _ E).
    + simpl in *; rewrite E; simpl; now subst.
Qed.

(** C9, as stated, fails when [shasum] exits with code 0 and prints no
    line: [sha256] does not fail, it writes a sidecar with nothing in it
    and returns its path. *)
Lemma sha256_of_no_output_is_an_empty_sidecar :
  child_process Host.silent_shasum (now Host.silent_shasum)
                (mkExec "/w" "shasum" ["-a"; "256"; "/w/release/linux-5.4.0.tar.gz"]
                        None)
  = mkOutcome None []
  /\ sha256 "/w/release/linux-5.4.0.tar.gz" Host.silent_shasum
     = (record (EvWriteFile "/w/release/linux-5.4.0.sha256.txt" EmptyString)
          (record (EvExec (mkExec "/w" "shasum"
                                  ["-a"; "256"; "/w/release/linux-5.4.0.tar.gz"]
                                  None))
                  Host.silent_shasum),
        Ok "/w/release/linux-5.4.0.sha256.txt").
Proof. split; reflexivity. Qed.

(** C9, amended.  [sha256] runs [shasum -a 256] on the archive.  When the
    tool cannot be run or exits with a failure, that error is thrown and
    nothing is written.  Otherwise the text before the first space of what
    the tool printed is written, as it was printed, to the sidecar, and the
    path of the sidecar is returned; when the tool printed nothing the
    sidecar is empty.  The sidecar lies in the directory of the archive,
    and for an archive named [stem.tar.gz] it is named [stem.sha256.txt]. *)
Theorem sha256_writes_the_first_field (archivedPath : string) (w : World) :
  let shasum := mkExec (cwd w) "shasum" ["-a"; "256"; archivedPath] None in
  let outcome := child_process w (now w) shasum in
  let sidecar := sha256FilePathOf archivedPath in
  (forall message,
      ex_failure outcome = Some message ->
      sha256 archivedPath w = (record (EvExec shasum) w, Throw (ExecError message)))
  /\ (ex_failure outcome = None ->
      sha256 archivedPath w
      = (record (EvWriteFile sidecar
                             (firstField (String.concat EmptyString
                                                        (ex_lines outcome))))
                (record (EvExec shasum) w),
         Ok sidecar))
  /\ (ex_failure outcome = None -> ex_lines outcome = [] ->
      sha256 archivedPath w
      = (record (EvWriteFile sidecar EmptyString) (record (EvExec shasum) w),
         Ok sidecar))
  /\ (forall digest rest,
         ~ In " "%char (Path.chars digest) ->
         ex_lines outcome = [digest ++ " " ++ rest]%string ->
         firstField (String.concat EmptyString (ex_lines outcome)) = digest)
  /\ (forall stem,
         Path.parse_base archivedPath = (stem ++ ".tar.gz")%string ->
         sidecar = Path.join (Path.parse_dir archivedPath)
                             (stem ++ ".sha256.txt")).
Proof.
  intros shasum outcome sidecar.
  assert (ok : ex_failure outcome = None ->
               sha256 archivedPath w
               = (record (EvWriteFile sidecar
                            (firstField (String.concat EmptyString
                                                       (ex_lines outcome))))
                         (record (EvExec shasum) w),
                  Ok sidecar)).
  { intros H; unfold sha256, bind.
    rewrite exec_succeeds by exact H; reflexivity. }
  split; [|split; [exact ok | split; [|split]]].
  - intros message H; unfold sha256, bind.
    rewrite exec_fails with (message := message) by exact H; reflexivity.
  - intros H L; rewrite (ok H), L; reflexivity.
  - intros digest rest H L; rewrite L; cbn [String.concat].
    now apply firstField_before_the_space.
  - intros stem H; now apply sidecar_name.
Qed.

Lemma sha256_writes_the_first_field_witness :
  sha256 "/w/release/linux-5.4.0.tar.gz" Host.linux
  = (record (EvWriteFile "/w/release/linux-5.4.0.sha256.txt" "9f86d081884c7d65")
       (record (EvExec (mkExec "/w" "shasum"
                               ["-a"; "256"; "/w/release/linux-5.4.0.tar.gz"] None))
               Host.linux),
     Ok "/w/release/linux-5.4.0.sha256.txt")
  /\ sha256FilePathOf "/w/release/linux-5.4.0.tar.gz"
     = Path.join (Path.parse_dir "/w/release/linux-5.4.0.tar.gz")
                 ("linux-5.4.0" ++ ".sha256.txt")
  /\ snd (sha256 "/w/release/linux-5.4.0.tar.gz" Host.shasum_fails)
     = Throw (ExecError "The process 'shasum' failed with exit code 2")
  /\ snd (sha256 "/w/release/linux-5.4.0.tar.gz" Host.silent_shasum)
     = Ok "/w/release/linux-5.4.0.sha256.txt"
  /\ firstField "9f86d081884c7d65  /w/release/linux-5.4.0.tar.gz"
     = "9f86d081884c7d65"%string.
Proof.
  split; [|split; [|split; [|split]]].
  - exact (proj1 (proj2 (sha256_writes_the_first_field "/w/release/linux-5.4.0.tar.gz" Host.linux))
                 eq_refl).
  - exact (proj2 (proj2 (proj2 (proj2 (sha256_writes_the_first_field
                                         "/w/release/linux-5.4.0.tar.gz" Host.linux))))
                 "linux-5.4.0"%string eq_refl).
  - now rewrite (proj1 (sha256_writes_the_first_field "/w/release/linux-5.4.0.tar.gz"
                                                      Host.shasum_fails)
                       "The process 'shasum' failed with exit code 2"%string
                       eq_refl).
  - now rewrite (proj1 (proj2 (proj2 (sha256_writes_the_first_field
                                        "/w/release/linux-5.4.0.tar.gz" Host.silent_shasum)))
                       eq_refl eq_refl).
  - refine (proj1 (proj2 (proj2 (proj2 (sha256_writes_the_first_field
                                          "/w/release/linux-5.4.0.tar.gz" Host.linux))))
                  "9f86d081884c7d65"%string " /w/release/linux-5.4.0.tar.gz"%string
                  _ eq_refl).
    simpl; intuition discriminate.
Defined.

(** ** Uploads *)

Lemma uploadAssets_callback_returns (uploadUrl assetPath : string) (w : World) :
  snd (uploadAssets_callback uploadUrl assetPath w) = Ok ElUndefined.
Proof.
  unfold uploadAssets_callback, bind, async.
  now destruct (uploadAsset _ _ _ w).
Qed.

Lemma uploads_are_dropped (uploadUrl : string) (assetPaths : list string)
      (w : World) :
  snd (mapM (uploadAssets_callback uploadUrl) assetPaths w)
  = Ok (repeat (@ElUndefined unit) (List.length assetPaths)).
Proof.
  revert w; induction assetPaths as [|p ps IH]; intros w; simpl.
  - reflexivity.
  - unfold bind.
    pose proof (uploadAssets_callback_returns uploadUrl p w) as H.
    destruct (uploadAssets_callback uploadUrl p w) as [w1 r]; simpl in H; subst r.
    specialize (IH w1).
    destruct (mapM _ ps w1) as [w2 r]; simpl in IH; now subst r.
Qed.

Lemma Promise_all_undefined (n : nat) :
  Promise_all (repeat (@ElUndefined unit) n) = Ok tt.
Proof. induction n; simpl; auto. Qed.

Lemma uploadAssets_returns (uploadUrl : string) (assetPaths : list string)
      (w : World) :
  snd (uploadAssets uploadUrl assetPaths w) = Ok tt.
Proof.
  unfold uploadAssets, bind.
  pose proof (uploads_are_dropped uploadUrl assetPaths w) as H.
  destruct (mapM _ assetPaths w) as [w' r]; simpl in H; subst r.
  unfold await; simpl.
  apply Promise_all_undefined.
Qed.

(** C4.  [uploadAssets] starts an upload for each file, under the base
    name of the file, and then completes whatever becomes of the uploads:
    the callback of [map] does not return the promise of [uploadAsset], so
    [Promise.all] has nothing to wait for and no rejection reaches the
    caller.  With a registry that rejects both uploads, both are rejected
    and [uploadAssets] still returns normally. *)
Theorem uploadAssets_ignores_the_uploads :
  (forall uploadUrl assetPaths w,
      snd (uploadAssets uploadUrl assetPaths w) = Ok tt)
  /\ uploadAsset "https://uploads.github.com/releases/1/assets"
                 "linux-5.4.0.tar.gz" "/w/release/linux-5.4.0.tar.gz"
                 Host.rejecting_uploads
     = (record (EvUploadReleaseAsset
                  "https://uploads.github.com/releases/1/assets"
                  "linux-5.4.0.tar.gz" 1024 "/w/release/linux-5.4.0.tar.gz")
               Host.rejecting_uploads,
        Throw (RequestError (Some 502) "Bad Gateway"))
  /\ uploadAssets "https://uploads.github.com/releases/1/assets"
                  ["/w/release/linux-5.4.0.tar.gz";
                   "/w/release/linux-5.4.0.sha256.txt"]
                  Host.rejecting_uploads
     = (record (EvUploadReleaseAsset
                  "https://uploads.github.com/releases/1/assets"
                  "linux-5.4.0.sha256.txt" 1024
                  "/w/release/linux-5.4.0.sha256.txt")
          (record (EvUploadReleaseAsset
                     "https://uploads.github.com/releases/1/assets"
                     "linux-5.4.0.tar.gz" 1024 "/w/release/linux-5.4.0.tar.gz")
                  Host.rejecting_uploads),
        Ok tt).
Proof.
  split; [exact uploadAssets_returns | split; reflexivity].
Qed.

(** ** The loop *)

Lemma iteration_returns (owner : string) (repo : str) (assetName otpVersion : string) (w : World) :
  snd (iteration owner repo assetName otpVersion w) = Ok tt.
Proof.
  unfold iteration, bind, emit, try_catch.
  now destruct (publish _ _ _ _ _) as [w' [[]|e]].
Qed.

Lemma iteration_reports (owner : string) (repo : str) (assetName otpVersion : string)
      (w w' : World) (e : thrown) :
  publish owner repo assetName otpVersion
          (record (EvInfo ("Starting " ++ otpVersion ++ ".")) w)
  = (w', Throw e) ->
  iteration owner repo assetName otpVersion w
  = (record (EvError (report otpVersion e)) w', Ok tt).
Proof. intros H; unfold iteration, bind, emit, try_catch; now rewrite H. Qed.

Lemma forEach_returns (body : string -> M unit) (otpVersions : list string) :
  (forall v w, snd (body v w) = Ok tt) ->
  forall w, snd (forEach body otpVersions w) = Ok tt.
Proof.
  intros H; induction otpVersions as [|v vs IH]; intros w; simpl.
  - reflexivity.
  - unfold bind; specialize (H v w).
    destruct (body v w) as [w' r]; simpl in H; subst r.
    apply IH.
Qed.

Lemma run_fails_before_the_loop (w w' : World) (e : thrown) :
  prepare w = (w', Throw e) ->
  run w = (record (EvSetFailed (message_of e)) w', Ok tt).
Proof. intros H; unfold run, try_catch, bind; now rewrite H. Qed.

Lemma run_loops (w w' : World) (owner : string) (repo : str)
      (assetName : string)
      (otpVersions : list string) :
  prepare w = (w', Ok (owner, repo, assetName, otpVersions)) ->
  run w = forEach (iteration owner repo assetName) otpVersions w'.
Proof.
  intros H; unfold run, try_catch, bind; rewrite H.
  pose proof (forEach_returns (iteration owner repo assetName) otpVersions
                (iteration_returns owner repo assetName) w') as R.
  destruct (forEach _ _ w') as [w'' r]; simpl in R; now subst r.
Qed.

Lemma forEach_two (body : string -> M unit) (v1 v2 : string) (w : World) :
  (forall v w, snd (body v w) = Ok tt) ->
  forEach body [v1; v2] w = body v2 (fst (body v1 w)).
Proof.
  intros H; simpl; unfold bind.
  pose proof (H v1 w) as H1.
  destruct (body v1 w) as [w1 r1]; simpl in *; subst r1.
  pose proof (H v2 w1) as H2.
  destruct (body v2 w1) as [w2 r2]; simpl in *; now subst r2.
Qed.

(** C3.  The loop catches what [publish] throws, reports it with the
    version, and goes on: after the preparations the run is one [iteration]
    after the other, each from the world the one before left, and only a
    failure of the preparations is handed to [setFailed].  An upload that
    fails is not thrown by [publish], though: with a registry that rejects
    every upload, the run over OTP-23.0 and OTP-23.1 starts four uploads,
    all rejected, and reports no error for either version. *)
Theorem upload_failures_are_not_reported :
  (forall owner repo assetName otpVersion w w' e,
      publish owner repo assetName otpVersion
              (record (EvInfo ("Starting " ++ otpVersion ++ ".")) w)
      = (w', Throw e) ->
      iteration owner repo assetName otpVersion w
      = (record (EvError (report otpVersion e)) w', Ok tt))
  /\ (forall w w' owner repo assetName v1 v2,
         prepare w = (w', Ok (owner, repo, assetName, [v1; v2])) ->
         run w = iteration owner repo assetName v2
                           (fst (iteration owner repo assetName v1 w')))
  /\ (forall w w' e,
         prepare w = (w', Throw e) ->
         run w = (record (EvSetFailed (message_of e)) w', Ok tt))
  /\ snd (prepare Host.rejecting_uploads)
     = Ok ("niku", Str "otp-kuroko", "linux-5.4.0.tar.gz",
           ["OTP-23.0"; "OTP-23.1"])%string
  /\ (forall t url name size path,
         api_fault Host.rejecting_uploads t
                   (EvUploadReleaseAsset url name size path)
         = Some (RequestError (Some 502) "Bad Gateway"))
  /\ map (fun e => match e with
                   | EvUploadReleaseAsset _ name _ _ => name
                   | _ => EmptyString
                   end)
         (filter is_upload (trace (fst (run Host.rejecting_uploads))))
     = ["linux-5.4.0.tar.gz"; "linux-5.4.0.sha256.txt";
        "linux-5.4.0.tar.gz"; "linux-5.4.0.sha256.txt"]%string
  /\ filter is_reported (trace (fst (run Host.rejecting_uploads))) = [].
Proof.
  split; [exact iteration_reports|].
  split.
  { intros w w' owner repo assetName v1 v2 H.
    rewrite (run_loops _ H).
    apply forEach_two, iteration_returns. }
  split; [exact run_fails_before_the_loop|].
  split; [vm_compute; reflexivity|].
  split; [reflexivity|].
  split; vm_compute; reflexivity.
Qed.

Lemma upload_failures_are_not_reported_witness :
  iteration "niku" "otp-kuroko" "linux-5.4.0.tar.gz" "OTP-23.0" Host.tar_fails
  = (record (EvError (report "OTP-23.0"
                       (ExecError "The process 'tar' failed with exit code 2")))
       (fst (publish "niku" "otp-kuroko" "linux-5.4.0.tar.gz" "OTP-23.0"
                     (record (EvInfo "Starting OTP-23.0.") Host.tar_fails))),
     Ok tt)
  /\ snd (run Host.unreachable) = Ok tt
  /\ run Host.without_token
     = (record (EvSetFailed "Parameter token or opts.auth is required")
               Host.without_token,
        Ok tt).
Proof.
  split; [|split].
  - apply (proj1 upload_failures_are_not_reported); vm_compute; reflexivity.
  - rewrite (proj1 (proj2 upload_failures_are_not_reported)
               Host.unreachable
               (fst (prepare Host.unreachable))
               "niku" "otp-kuroko" "linux-5.4.0.tar.gz" "OTP-23.0" "OTP-23.1")%string;
      vm_compute; reflexivity.
  - exact (proj1 (proj2 (proj2 upload_failures_are_not_reported))
                 Host.without_token Host.without_token
                 (JsError "Parameter token or opts.auth is required") eq_refl).
Defined.

(* ================================================================== *)
(** * The rest of the program *)
(* ================================================================== *)

(** ** Computations that only extend the trace *)

Lemma extend_nil (w : World) : extend [] w = w.
Proof. destruct w; unfold extend; simpl; now rewrite app_nil_r. Qed.

Lemma record_extend (e : event) (w : World) : record e w = extend [e] w.
Proof. reflexivity. Qed.

Lemma extend_extend (a b : list event) (w : World) :
  extend b (extend a w) = extend (a ++ b) w.
Proof. unfold extend; simpl; now rewrite app_assoc. Qed.

Section Extends.

Variable P : event -> Prop.

Lemma extends_ret {A} (a : A) : extends P (ret a).
Proof. intros w; exists []; split; [now rewrite extend_nil | constructor]. Qed.

Lemma extends_throw {A} (e : thrown) : extends P (@throw A e).
Proof. intros w; exists []; split; [now rewrite extend_nil | constructor]. Qed.

Lemma extends_ask {A} (f : World -> A) : extends P (ask f).
Proof. intros w; exists []; split; [now rewrite extend_nil | constructor]. Qed.

Lemma extends_emit (e : event) : P e -> extends P (emit e).
Proof. intros H w; exists [e]; split; [reflexivity | now constructor]. Qed.

Lemma extends_bind {A B} (m : M A) (k : A -> M B) :
  extends P m -> (forall a, extends P (k a)) -> extends P (bind m k).
Proof.
  intros Hm Hk w; unfold bind.
  destruct (Hm w) as (evs1 & H1 & F1).
  destruct (m w) as [w' [a|e]]; simpl in H1; subst w'.
  - destruct (Hk a (extend evs1 w)) as (evs2 & H2 & F2).
    exists (evs1 ++ evs2); split.
    + now rewrite H2, extend_extend.
    + now apply Forall_app.
  - now exists evs1.
Qed.

Lemma extends_try_finally {A} (m : M A) (e : event) :
  extends P m -> P e -> extends P (try_finally m (record e)).
Proof.
  intros Hm He w; unfold try_finally.
  destruct (Hm w) as (evs & H & F).
  destruct (m w) as [w' r]; simpl in *; subst w'.
  exists (evs ++ [e]); split.
  - now rewrite record_extend, extend_extend.
  - apply Forall_app; split; [exact F | now constructor].
Qed.

Lemma extends_exec (cmd : string) (args : list string) (input : option patch) :
  (forall dir, P (EvExec (mkExec dir cmd args input))) ->
  extends P (exec cmd args input).
Proof.
  intros H w; exists [EvExec (mkExec (cwd w) cmd args input)]; split.
  - unfold exec; now destruct (ex_failure _).
  - now constructor.
Qed.

Lemma extends_group {A} (name : string) (m : M A) :
  P (EvStartGroup name) -> P EvEndGroup -> extends P m ->
  extends P (group name m).
Proof.
  intros Hs He Hm; unfold group.
  apply extends_bind; [now apply extends_emit | intros _].
  now apply extends_try_finally.
Qed.

Lemma extends_emits {A} (m : M A) : extends P m -> emits P m.
Proof.
  intros H w; destruct (H w) as (evs & E & F).
  exists evs; split; [now rewrite E | exact F].
Qed.

Lemma extends_keeps_cwd {A} (m : M A) : extends P m -> keeps_cwd m.
Proof. intros H w; destruct (H w) as (evs & E & _); now rewrite E. Qed.

End Extends.

Lemma setup_extends (otpVersion : string) : extends local_event (setup otpVersion).
Proof.
  unfold setup.
  repeat (apply extends_bind; [|intros _]);
    try apply extends_ret; apply extends_exec; intros; exact I.
Qed.

Lemma applyPatch_extends (p : patch) : extends local_event (applyPatch p).
Proof.
  unfold applyPatch.
  apply extends_bind; [apply extends_exec; intros; exact I | intros; apply extends_ret].
Qed.

Lemma maybePatch_extends (otpVersion : string) :
  extends local_event (maybePatch otpVersion).
Proof.
  unfold maybePatch, maybePatchDarwin, maybePatchCatalina, maybePatchAll,
    applyWxPtrPatch, applyCatarinaNoWeakImportsPatch, applyZlibPatch.
  apply extends_bind; [apply extends_ask | intros p].
  apply extends_bind.
  - destruct (String.eqb p "darwin"); [|apply extends_ret].
    apply extends_bind.
    + destruct (maybePatchDarwin_test _ _ _);
        [apply applyPatch_extends | apply extends_ret].
    + intros _; destruct (maybePatchCatalina_test _ _ _);
        [apply applyPatch_extends | apply extends_ret].
  - intros _; destruct (maybePatchAll_test _ _ _);
      [apply applyPatch_extends | apply extends_ret].
Qed.

Lemma make_extends : extends local_event make.
Proof.
  unfold make.
  apply extends_bind; [apply extends_ask | intros n].
  apply extends_bind; [apply extends_ask | intros p].
  apply extends_bind.
  - destruct (String.eqb p "darwin"); [|apply extends_ret].
    apply extends_bind; [apply extends_exec; intros; exact I | intros; apply extends_ret].
  - intros ssl.
    do 4 (apply extends_bind;
          [apply extends_group; try exact I; apply extends_exec; intros; exact I
          |intros _]).
    apply extends_ret.
Qed.

Lemma sha256_extends (archivedPath : string) :
  extends local_event (sha256 archivedPath).
Proof.
  unfold sha256, writeFileSync.
  apply extends_bind; [apply extends_exec; intros; exact I | intros lines].
  apply extends_bind; [now apply extends_emit | intros; apply extends_ret].
Qed.

(** ** The build *)

Lemma now_extend (evs : list event) (w : World) :
  now (extend evs w) = (List.length evs + now w)%nat.
Proof. unfold now, extend; cbn [trace]; rewrite length_app; lia. Qed.

Lemma outcomes_from_record (e : event) (w : World) (t step : nat)
      (requests : list exec_request) :
  outcomes_from (record e w) t step requests = outcomes_from w t step requests.
Proof.
  revert t; induction requests as [|r rest IH]; intros t; [reflexivity|].
  simpl; now rewrite IH.
Qed.

Lemma group_exec (name cmd : string) (args : list string) (w : World) :
  group name (exec cmd args None) w
  = (extend (stage_events (cwd w) (name, cmd, args)) w,
     match ex_failure (child_process w (S (now w))
                                     (stage_request (cwd w) (name, cmd, args)))
     with
     | Some message => Throw (ExecError message)
     | None =>
         Ok (ex_lines (child_process w (S (now w))
                                     (stage_request (cwd w) (name, cmd, args))))
     end).
Proof.
  unfold group, bind, emit, try_finally, exec, stage_request, stage_events.
  cbn [cwd record child_process]; rewrite now_record.
  destruct (ex_failure _);
    rewrite !record_extend, !extend_extend; reflexivity.
Qed.

Lemma stages_stop_at_the_first_failure
      (sslOption : string) (cpuCount : nat) (w : World) :
  let stages :=
    group "otp_build" (exec "./otp_build" ["autoconf"] None) ;;;
    group "configure"
          (exec "./configure" [sslOption; "--enable-dirty-schedulers"] None) ;;;
    group "make" (exec "make" ["-j" ++ decimal (Z.of_nat cpuCount)]%string None) ;;;
    group "make release" (exec "make" ["release"] None) ;;;
    ret tt in
  let all := make_stages sslOption cpuCount in
  stages w
  = match first_failure
            (outcomes_from w (S (now w)) 3 (map (stage_request (cwd w)) all))
    with
    | None => (extend (flat_map (stage_events (cwd w)) all) w, Ok tt)
    | Some (i, message) =>
        (extend (flat_map (stage_events (cwd w)) (firstn (S i) all)) w,
         Throw (ExecError message))
    end.
Proof.
  intros stages all; unfold stages, all, make_stages.
  cbn [map outcomes_from first_failure Nat.add].
  unfold bind at 1; rewrite group_exec.
  destruct (ex_failure _); [reflexivity|].
  unfold bind at 1; rewrite group_exec.
  cbn [cwd extend]; rewrite now_extend; cbn [stage_events List.length Nat.add].
  destruct (ex_failure _); [rewrite extend_extend; reflexivity|].
  unfold bind at 1; rewrite group_exec.
  cbn [cwd extend]; rewrite extend_extend, now_extend.
  cbn [stage_events List.length Nat.add app].
  destruct (ex_failure _); [rewrite extend_extend; reflexivity|].
  unfold bind at 1; rewrite group_exec.
  cbn [cwd extend]; rewrite extend_extend, now_extend.
  cbn [stage_events List.length Nat.add app].
  destruct (ex_failure _); rewrite extend_extend; reflexivity.
Qed.

(** X1.  [make] runs its stages in the order otp_build, configure, make,
    make release, each inside its group, and stops at the first stage that
    fails: when stage [i] is the first whose command fails, the stages up
    to it are all that ran, the group of the failing stage is closed, and
    [make] fails with the error of that command; it returns when none
    fails, and then all four ran.  [configure] gets [--with-ssl] off
    darwin; on darwin [brew --prefix openssl] is asked first, its trimmed
    output is the value of [--with-ssl=], and a failure of [brew] ends
    [make] before any stage. *)
Theorem make_runs_its_stages_in_order (w : World) :
  let brew := brew_request (cwd w) in
  let asked := child_process w (now w) brew in
  let ran (first : nat) (sslOption : string) (w0 : World) :=
    let all := make_stages sslOption (cpus w) in
    match first_failure
            (outcomes_from w first 3 (map (stage_request (cwd w)) all))
    with
    | None => (extend (flat_map (stage_events (cwd w)) all) w0, Ok tt)
    | Some (i, message) =>
        (extend (flat_map (stage_events (cwd w)) (firstn (S i) all)) w0,
         Throw (ExecError message))
    end in
  (platform w <> "darwin"%string ->
   make w = ran (S (now w)) "--with-ssl"%string w)
  /\ (platform w = "darwin"%string ->
      forall message,
        ex_failure asked = Some message ->
        make w = (record (EvExec brew) w, Throw (ExecError message)))
  /\ (platform w = "darwin"%string ->
      ex_failure asked = None ->
      make w = ran (S (S (now w)))
                   ("--with-ssl=" ++ trim (stdout_text (ex_lines asked)))%string
                   (record (EvExec brew) w)).
Proof.
  intros brew asked ran; split; [|split].
  - intros Hp; apply String.eqb_neq in Hp.
    unfold ran; rewrite <- stages_stop_at_the_first_failure.
    unfold make, ask; unfold bind at 1 2 3; now rewrite Hp.
  - intros Hp message F.
    unfold make, ask; unfold bind at 1 2 3; rewrite Hp, String.eqb_refl.
    cbv beta iota; unfold bind at 1.
    rewrite exec_fails with (message := message) by exact F.
    reflexivity.
  - intros Hp F.
    pose proof (stages_stop_at_the_first_failure
                  ("--with-ssl=" ++ trim (stdout_text (ex_lines asked)))%string
                  (cpus w) (record (EvExec brew) w)) as T.
    cbv zeta in T; rewrite now_record, outcomes_from_record in T.
    cbn [cwd record] in T.
    unfold ran; rewrite <- T.
    unfold make, ask; unfold bind at 1 2 3; rewrite Hp, String.eqb_refl.
    cbv beta iota; unfold bind at 1.
    rewrite exec_succeeds by exact F.
    reflexivity.
Qed.

Lemma make_runs_its_stages_in_order_witness :
  make Host.linux
  = (extend (flat_map (stage_events "/w") (make_stages "--with-ssl" 2))
            Host.linux, Ok tt)
  /\ make Host.configure_fails
     = (extend (flat_map (stage_events "/w")
                         (firstn 2 (make_stages "--with-ssl" 2)))
               Host.configure_fails,
        Throw (ExecError "The process './configure' failed with exit code 2"))
  /\ make Host.brew_fails
     = (record (EvExec (brew_request "/w")) Host.brew_fails,
        Throw (ExecError "The process 'brew' failed with exit code 2"))
  /\ make Host.darwin
     = (extend (flat_map (stage_events "/w")
                         (make_stages "--with-ssl=/usr/local/opt/openssl@1.1" 4))
               (record (EvExec (brew_request "/w")) Host.darwin), Ok tt).
Proof.
  split; [|split; [|split]].
  - apply (proj1 (make_runs_its_stages_in_order Host.linux)); discriminate.
  - apply (proj1 (make_runs_its_stages_in_order Host.configure_fails));
      discriminate.
  - apply (proj1 (proj2 (make_runs_its_stages_in_order Host.brew_fails)) eq_refl);
      reflexivity.
  - apply (proj2 (proj2 (make_runs_its_stages_in_order Host.darwin)) eq_refl);
      reflexivity.
Defined.

(** X2.  [setup] runs [git reset --hard --quiet], [git checkout --quiet]
    of the tag as given, and [git clean -dfqx], in that order and in the
    working directory, and stops at the first that fails: when command [i]
    is the first to fail, the commands up to it are all that ran and
    [setup] fails with the error of that command; it returns when none
    fails, and then all three ran.  Nothing but the trace changes. *)
Theorem setup_stops_at_the_first_failure (otpVersion : string) (w : World) :
  let commands := setup_commands otpVersion in
  let requests := map (fun args => mkExec (cwd w) "git" args None) commands in
  setup otpVersion w
  = match first_failure (outcomes_from w (now w) 1 requests) with
    | None => (extend (map (git_event (cwd w)) commands) w, Ok tt)
    | Some (i, message) =>
        (extend (map (git_event (cwd w)) (firstn (S i) commands)) w,
         Throw (ExecError message))
    end.
Proof.
  intros commands requests; unfold requests, commands, setup_commands.
  cbn [map outcomes_from first_failure Nat.add].
  unfold setup, git_event.
  unfold bind at 1; rewrite exec_result.
  destruct (ex_failure _); [reflexivity|].
  unfold bind at 1; rewrite exec_result, now_record.
  cbn [cwd record child_process].
  destruct (ex_failure _);
    [rewrite !record_extend, !extend_extend; reflexivity|].
  unfold bind at 1; rewrite exec_result, !now_record.
  cbn [cwd record child_process].
  destruct (ex_failure _);
    rewrite !record_extend, !extend_extend; reflexivity.
Qed.

Lemma setup_stops_at_the_first_failure_witness :
  setup "OTP-23.0" Host.linux
  = (extend (map (git_event "/w") (setup_commands "OTP-23.0")) Host.linux, Ok tt)
  /\ setup "OTP-23.0" Host.git_fails
     = (extend [git_event "/w" ["reset"; "--hard"; "--quiet"]] Host.git_fails,
        Throw (ExecError "The process 'git' failed with exit code 2")).
Proof.
  split.
  - exact (setup_stops_at_the_first_failure "OTP-23.0" Host.linux).
  - exact (setup_stops_at_the_first_failure "OTP-23.0" Host.git_fails).
Defined.

(** X3.  The checkout, the patch step, the build and the checksum work
    through child processes alone: whatever the outcome, each of [setup],
    [maybePatch], [make] and [sha256] adds child processes, groups and (for
    [sha256]) the written sidecar to the trace and changes nothing else --
    not the working directory, not the registry -- and sends no request. *)
Theorem local_steps_only_extend_the_trace (otpVersion archivedPath : string) :
  extends local_event (setup otpVersion)
  /\ extends local_event (maybePatch otpVersion)
  /\ extends local_event make
  /\ extends local_event (sha256 archivedPath)
  /\ (forall e, local_event e -> is_request e = false)
  /\ (forall evs w, cwd (extend evs w) = cwd w
                    /\ registry (extend evs w) = registry w).
Proof.
  split; [apply setup_extends|].
  split; [apply maybePatch_extends|].
  split; [apply make_extends|].
  split; [apply sha256_extends|].
  split; [now intros [] | now split].
Qed.

(** ** What the whole pipeline adds to the trace *)

Lemma emits_weaken {A} (P Q : event -> Prop) (m : M A) :
  (forall e, P e -> Q e) -> emits P m -> emits Q m.
Proof.
  intros H Hm w; destruct (Hm w) as (evs & E & F).
  exists evs; split; [exact E | eapply Forall_impl; eauto].
Qed.

Lemma local_event_is_silent (e : event) : local_event e -> silent e.
Proof. now destruct e. Qed.

Section EmitsMore.

Variable P : event -> Prop.

Lemma emits_nothing {A} (m : M A) :
  (forall w, fst (m w) = w) -> emits P m.
Proof.
  intros H w; exists []; split; [now rewrite H, app_nil_r | constructor].
Qed.

Lemma emits_chdir (dir : string) : P (EvChdir dir) -> emits P (chdir dir).
Proof. intros H w; exists [EvChdir dir]; split; [reflexivity | now constructor]. Qed.

Lemma emits_readdirSync (dir : string) : emits P (readdirSync dir).
Proof.
  apply emits_nothing; intros w; unfold readdirSync.
  now destruct (readdir w (now w) dir).
Qed.

Lemma emits_statSync_size (path : string) : emits P (statSync_size path).
Proof.
  apply emits_nothing; intros w; unfold statSync_size.
  now destruct (stat_size w (now w) path).
Qed.

Lemma emits_uploadReleaseAsset (url name : string) (size : Z) (path : string) :
  P (EvUploadReleaseAsset url name size path) ->
  emits P (uploadReleaseAsset url name size path).
Proof.
  intros H w; exists [EvUploadReleaseAsset url name size path]; split.
  - unfold uploadReleaseAsset; now destruct (api_fault w (now w) _).
  - now constructor.
Qed.

Lemma emits_async {A} (m : M A) : emits P m -> emits P (async m).
Proof.
  intros H w; destruct (H w) as (evs & E & F); exists evs; split; [|exact F].
  unfold async; now destruct (m w).
Qed.

Lemma emits_await {A} (p : promise A) : emits P (await p).
Proof. now apply emits_nothing. Qed.

Lemma emits_mapM {A B} (f : A -> M B) (xs : list A) :
  (forall x, emits P (f x)) -> emits P (mapM f xs).
Proof.
  intros H; induction xs as [|x xs IH]; simpl.
  - apply emits_ret.
  - apply emits_bind; [apply H | intros y].
    apply emits_bind; [exact IH | intros ys; apply emits_ret].
Qed.

End EmitsMore.

Lemma uploadAssets_is_silent (uploadUrl : string) (assetPaths : list string) :
  emits silent (uploadAssets uploadUrl assetPaths).
Proof.
  unfold uploadAssets.
  apply emits_bind; [|intros; apply emits_await].
  apply emits_mapM; intros p; unfold uploadAssets_callback, uploadAsset.
  apply emits_bind; [|intros; apply emits_ret].
  apply emits_async, emits_bind; [apply emits_statSync_size | intros size].
  now apply emits_uploadReleaseAsset.
Qed.

Lemma archive_is_silent (assetName : string) : emits silent (archive assetName).
Proof.
  unfold archive.
  apply emits_bind; [apply emits_ask | intros dir].
  apply emits_bind; [apply emits_readdirSync | intros entries].
  destruct (_ <? 1)%nat; [apply emits_throw|].
  destruct (1 <? _)%nat; [apply emits_throw|].
  apply emits_bind; [now apply emits_chdir | intros _].
  apply emits_bind; [now apply emits_exec | intros _].
  apply emits_bind; [now apply emits_chdir | intros _].
  apply emits_ret.
Qed.

Lemma local_is_silent {A} (m : M A) : extends local_event m -> emits silent m.
Proof.
  intros H; apply emits_weaken with (P := local_event);
    [exact local_event_is_silent | now apply extends_emits].
Qed.

Lemma makeAsset_is_silent (otpVersion assetName : string) :
  emits silent (makeAsset otpVersion assetName).
Proof.
  unfold makeAsset.
  apply emits_bind; [apply local_is_silent, maybePatch_extends | intros _].
  apply emits_bind; [apply local_is_silent, make_extends | intros _].
  apply emits_bind; [apply archive_is_silent | intros archivedPath].
  apply emits_bind; [apply local_is_silent, sha256_extends | intros sha256Path].
  apply emits_ret.
Qed.

Lemma getOrCreateRelease_is_silent (owner : string) (repo : str)
      (tag : string) :
  emits silent (getOrCreateRelease owner repo tag).
Proof.
  unfold getOrCreateRelease, getRelease.
  apply emits_bind.
  - apply emits_try_catch.
    + apply emits_bind; [|intros; apply emits_ret].
      apply emits_required; intros r; now apply emits_getReleaseByTag.
    + intros e; destruct (status_is_not_404 e); [|apply emits_ret].
      apply emits_bind; [apply emits_ask | intros; apply emits_throw].
  - intros [r|]; [apply emits_ret | now apply emits_createRelease].
Qed.

Lemma publish_is_silent (owner : string) (repo : str) (assetName otpVersion : string) :
  emits silent (publish owner repo assetName otpVersion).
Proof.
  unfold publish.
  apply emits_bind; [apply local_is_silent, setup_extends | intros _].
  apply emits_bind; [apply getOrCreateRelease_is_silent | intros [releaseId uploadUrl]].
  apply emits_bind.
  - unfold getAsset.
    apply emits_bind; [|intros; apply emits_ret].
    apply emits_required; intros r; now apply emits_listAssetsForRelease.
  - intros assetId; destruct (negb (assetId_truthy assetId)); [|apply emits_ret].
    apply emits_bind; [apply makeAsset_is_silent | intros [archivedPath sha256Path]].
    apply uploadAssets_is_silent.
Qed.

Lemma log_lines_app (a b : list event) :
  log_lines (a ++ b) = log_lines a ++ log_lines b.
Proof. apply filter_app. Qed.

Lemma log_lines_silent (evs : list event) :
  Forall silent evs -> log_lines evs = [].
Proof.
  induction 1 as [|e evs He _ IH]; [reflexivity|].
  unfold log_lines in *; simpl; now rewrite He.
Qed.

(** ** Where the process is after a step *)

Lemma keeps_cwd_bind {A B} (m : M A) (k : A -> M B) :
  keeps_cwd m -> (forall a, keeps_cwd (k a)) -> keeps_cwd (bind m k).
Proof.
  intros Hm Hk w; unfold bind; specialize (Hm w).
  destruct (m w) as [w' [a|e]]; simpl in Hm; [|exact Hm].
  now rewrite Hk.
Qed.

Lemma keeps_cwd_try_catch {A} (m : M A) (handler : thrown -> M A) :
  keeps_cwd m -> (forall e, keeps_cwd (handler e)) -> keeps_cwd (try_catch m handler).
Proof.
  intros Hm Hh w; unfold try_catch; specialize (Hm w).
  destruct (m w) as [w' [a|e]]; simpl in Hm; [exact Hm|].
  now rewrite Hh.
Qed.

Lemma keeps_cwd_mapM {A B} (f : A -> M B) (xs : list A) :
  (forall x, keeps_cwd (f x)) -> keeps_cwd (mapM f xs).
Proof.
  intros H; induction xs as [|x xs IH]; simpl; [now intros w|].
  apply keeps_cwd_bind; [apply H | intros y].
  apply keeps_cwd_bind; [exact IH | now intros ys w].
Qed.

Lemma keeps_cwd_async {A} (m : M A) : keeps_cwd m -> keeps_cwd (async m).
Proof. intros H w; specialize (H w); unfold async; now destruct (m w). Qed.

Lemma getReleaseByTag_keeps_cwd (owner repo tag : string) :
  keeps_cwd (getReleaseByTag owner repo tag).
Proof. intros w; now rewrite getReleaseByTag_world. Qed.

Lemma required_keeps_cwd {A} (name : string) (value : str)
      (request : string -> M A) :
  (forall s, keeps_cwd (request s)) -> keeps_cwd (required name value request).
Proof. intros H; destruct value as [s|]; [apply H | now intros w]. Qed.

Lemma createRelease_keeps_cwd (owner : string) (repo : str) (tag : string) :
  keeps_cwd (createRelease owner repo tag).
Proof.
  apply required_keeps_cwd; intros r w; unfold createReleaseRequest.
  now destruct (api_fault w (now w) _).
Qed.

Lemma getOrCreateRelease_keeps_cwd (owner : string) (repo : str)
      (tag : string) :
  keeps_cwd (getOrCreateRelease owner repo tag).
Proof.
  unfold getOrCreateRelease, getRelease.
  apply keeps_cwd_bind.
  - apply keeps_cwd_try_catch.
    + apply keeps_cwd_bind; [|now intros r w].
      apply required_keeps_cwd; intros r; apply getReleaseByTag_keeps_cwd.
    + intros e; now destruct (status_is_not_404 e); intros w.
  - intros [r|]; [now intros w | apply createRelease_keeps_cwd].
Qed.

Lemma getAsset_keeps_cwd (owner : string) (repo : str) (id : Z)
      (assetName : string) :
  keeps_cwd (getAsset owner repo id assetName).
Proof.
  unfold getAsset; apply keeps_cwd_bind; [|now intros assets w].
  apply required_keeps_cwd; intros r w; unfold listAssetsForRelease.
  destruct (api_fault w (now w) _); [reflexivity|].
  now destruct (find _ (registry w)).
Qed.

Lemma uploadAsset_keeps_cwd (url name assetPath : string) :
  keeps_cwd (uploadAsset url name assetPath).
Proof.
  intros w; unfold uploadAsset, bind, statSync_size, uploadReleaseAsset.
  destruct (stat_size w (now w) assetPath); [|reflexivity].
  now destruct (api_fault w (now w) _).
Qed.

Lemma uploadAssets_keeps_cwd (uploadUrl : string) (assetPaths : list string) :
  keeps_cwd (uploadAssets uploadUrl assetPaths).
Proof.
  unfold uploadAssets.
  apply keeps_cwd_bind; [|now intros elements w].
  apply keeps_cwd_mapM; intros p; unfold uploadAssets_callback.
  apply keeps_cwd_bind; [|now intros x w].
  apply keeps_cwd_async, uploadAsset_keeps_cwd.
Qed.

Lemma restores_cwd_bind {A B} (m : M A) (k : A -> M B) :
  restores_cwd m -> (forall a, restores_cwd (k a)) -> restores_cwd (bind m k).
Proof.
  intros Hm Hk w w' b; unfold bind.
  destruct (m w) as [w1 [a|e]] eqn:E; [|discriminate].
  intros H; rewrite (Hk a _ _ _ H); exact (Hm _ _ _ E).
Qed.

Lemma keeps_restores {A} (m : M A) : keeps_cwd m -> restores_cwd m.
Proof.
  intros H w w' a E; specialize (H w); now rewrite E in H.
Qed.

Lemma archive_restores_cwd (assetName : string) : restores_cwd (archive assetName).
Proof.
  intros w w' p; unfold archive, bind, ask, readdirSync.
  destruct (readdir w (now w) _) as [entries|]; [|discriminate].
  destruct (_ <? 1)%nat; [discriminate|].
  destruct (1 <? _)%nat; [discriminate|].
  cbn -[Path.join]; unfold exec.
  destruct (ex_failure _); [discriminate|].
  cbn -[Path.join]; intros E; now inversion E.
Qed.

Lemma makeAsset_restores_cwd (otpVersion assetName : string) :
  restores_cwd (makeAsset otpVersion assetName).
Proof.
  unfold makeAsset.
  apply restores_cwd_bind;
    [eapply keeps_restores, extends_keeps_cwd, maybePatch_extends | intros _].
  apply restores_cwd_bind;
    [eapply keeps_restores, extends_keeps_cwd, make_extends | intros _].
  apply restores_cwd_bind; [apply archive_restores_cwd | intros archivedPath].
  apply restores_cwd_bind;
    [eapply keeps_restores, extends_keeps_cwd, sha256_extends | intros sha256Path].
  now intros w w' a E; inversion E.
Qed.

Lemma publish_restores_cwd (owner : string) (repo : str) (assetName otpVersion : string) :
  restores_cwd (publish owner repo assetName otpVersion).
Proof.
  unfold publish.
  apply restores_cwd_bind;
    [eapply keeps_restores, extends_keeps_cwd, setup_extends | intros _].
  apply restores_cwd_bind;
    [apply keeps_restores, getOrCreateRelease_keeps_cwd | intros [releaseId uploadUrl]].
  apply restores_cwd_bind;
    [apply keeps_restores, getAsset_keeps_cwd | intros assetId].
  destruct (negb (assetId_truthy assetId)).
  - apply restores_cwd_bind;
      [apply makeAsset_restores_cwd | intros [archivedPath sha256Path]].
    apply keeps_restores, uploadAssets_keeps_cwd.
  - now intros w w' a E; inversion E.
Qed.

(** ** Before the loop *)

Lemma newGitHub_rejects_no_token (secretToken : string) (w : World) :
  newGitHub secretToken w
  = if String.eqb secretToken EmptyString
    then (w, Throw (JsError "Parameter token or opts.auth is required"))
    else (w, Ok tt).
Proof. unfold newGitHub; now destruct (String.eqb secretToken EmptyString). Qed.

(** X4.  A run without its configuration fails before anything is
    started: with no [secret-token] input, and with the token but no
    GITHUB_REPOSITORY in the environment, [run] calls [setFailed] with the
    message of the error and does nothing else -- no child process, no
    request. *)
Theorem run_fails_before_anything_starts (w : World) :
  (getInput w "secret-token" = EmptyString ->
   run w = (record (EvSetFailed "Parameter token or opts.auth is required") w,
            Ok tt))
  /\ (getInput w "secret-token" <> EmptyString ->
      GITHUB_REPOSITORY w = None ->
      run w = (record (EvSetFailed "Cannot read property 'split' of undefined") w,
               Ok tt)).
Proof.
  split.
  - intros H; apply run_fails_before_the_loop with (e := JsError _).
    unfold prepare, ask; unfold bind at 1 2; cbv beta iota.
    now rewrite newGitHub_rejects_no_token, H.
  - intros H R; apply String.eqb_neq in H.
    apply run_fails_before_the_loop with (e := TypeError _).
    unfold prepare, ask; unfold bind at 1 2; cbv beta iota.
    rewrite newGitHub_rejects_no_token, H.
    unfold bind at 1, ownerAndRepo, ask; unfold bind at 1; cbv beta iota.
    now rewrite R.
Qed.

Lemma run_fails_before_anything_starts_witness :
  run Host.without_token
  = (record (EvSetFailed "Parameter token or opts.auth is required")
            Host.without_token, Ok tt)
  /\ run Host.without_repository
     = (record (EvSetFailed "Cannot read property 'split' of undefined")
               Host.without_repository, Ok tt).
Proof.
  split.
  - apply (proj1 (run_fails_before_anything_starts Host.without_token));
      reflexivity.
  - apply (proj2 (run_fails_before_anything_starts Host.without_repository));
      [discriminate | reflexivity].
Defined.

Lemma prepare_extends : extends local_event prepare.
Proof.
  unfold prepare.
  apply extends_bind; [apply extends_ask | intros secretToken].
  apply extends_bind.
  { unfold newGitHub; destruct (String.eqb secretToken EmptyString);
      [apply extends_throw | apply extends_ret]. }
  intros _; apply extends_bind.
  { unfold ownerAndRepo; apply extends_bind; [apply extends_ask|].
    intros [r|]; [apply extends_ret | apply extends_throw]. }
  intros names; apply extends_bind.
  { unfold getAssetName.
    apply extends_bind; [apply extends_exec; intros; exact I | intros; apply extends_ret]. }
  intros assetName; apply extends_bind; [apply extends_ask | intros given].
  apply extends_bind; [|intros; apply extends_ret].
  unfold getOTPVersions; apply extends_exec; intros; exact I.
Qed.

(** ** The log of a run *)

Lemma iteration_log (owner : string) (repo : str) (assetName otpVersion : string) (w : World) :
  exists evs outcome,
    trace (fst (iteration owner repo assetName otpVersion w)) = trace w ++ evs
    /\ log_lines evs = version_log (otpVersion, outcome)
    /\ (outcome = None ->
        cwd (fst (iteration owner repo assetName otpVersion w)) = cwd w).
Proof.
  unfold iteration, bind, emit, try_catch.
  set (started := record (EvInfo ("Starting " ++ otpVersion ++ ".")) w).
  destruct (publish_is_silent owner repo assetName otpVersion started)
    as (evs & E & F).
  pose proof (@publish_restores_cwd owner repo assetName otpVersion started) as R.
  destruct (publish owner repo assetName otpVersion started) as [w' [[]|e]];
    simpl in E.
  - exists (EvInfo ("Starting " ++ otpVersion ++ ".") :: evs), None.
    split; [cbn [fst]; rewrite E; unfold started; cbn; now rewrite <- app_assoc|].
    split; [|intros _; exact (R _ _ eq_refl)].
    change (log_lines ([EvInfo ("Starting " ++ otpVersion ++ ".")] ++ evs)
            = [EvInfo ("Starting " ++ otpVersion ++ ".")]).
    now rewrite log_lines_app, (log_lines_silent F).
  - exists (EvInfo ("Starting " ++ otpVersion ++ ".")
            :: evs ++ [EvError (report otpVersion e)]), (Some e).
    split; [cbn [fst record trace]; rewrite E; unfold started; cbn;
            now rewrite <- !app_assoc|].
    split; [|discriminate].
    change (log_lines ([EvInfo ("Starting " ++ otpVersion ++ ".")]
                       ++ evs ++ [EvError (report otpVersion e)])
            = [EvInfo ("Starting " ++ otpVersion ++ ".");
               EvError (report otpVersion e)]).
    now rewrite !log_lines_app, (log_lines_silent F).
Qed.

Lemma forEach_log (owner : string) (repo : str) (assetName : string)
      (otpVersions : list string)
      (w : World) :
  exists evs outcomes,
    List.length outcomes = List.length otpVersions
    /\ trace (fst (forEach (iteration owner repo assetName) otpVersions w))
       = trace w ++ evs
    /\ log_lines evs = flat_map version_log (combine otpVersions outcomes)
    /\ (Forall (fun o => o = None) outcomes ->
        cwd (fst (forEach (iteration owner repo assetName) otpVersions w))
        = cwd w).
Proof.
  revert w; induction otpVersions as [|v vs IH]; intros w; simpl.
  - exists [], []; repeat split; now rewrite ?app_nil_r.
  - unfold bind.
    destruct (iteration_log owner repo assetName v w) as (e1 & o & T1 & L1 & C1).
    pose proof (iteration_returns owner repo assetName v w) as R.
    destruct (iteration owner repo assetName v w) as [w1 r]; simpl in *; subst r.
    destruct (IH w1) as (e2 & os & Hl & T2 & L2 & C2).
    exists (e1 ++ e2), (o :: os); split; [simpl; now rewrite Hl|].
    split; [now rewrite T2, T1, app_assoc|].
    split.
    + rewrite log_lines_app, L1, L2; simpl.
      now destruct o.
    + intros Hn; inversion Hn; subst.
      now rewrite C2, C1.
Qed.

(** X6.  [run] never rejects.  When the preparations fail, the log of the
    run is the one [setFailed] line with the message of the error.
    Otherwise the log has, for each listed version and in the order of the
    list, the line of its start followed by at most one error line, which
    names that version; [setFailed] is not called, whatever fails in the
    loop.  A run in which no version reports an error ends in the working
    directory it started in. *)
Theorem run_logs_every_version_once (w : World) :
  snd (run w) = Ok tt
  /\ (forall w' e,
         prepare w = (w', Throw e) ->
         exists evs,
           trace (fst (run w)) = trace w ++ evs
           /\ log_lines evs = [EvSetFailed (message_of e)])
  /\ (forall w' owner repo assetName otpVersions,
         prepare w = (w', Ok (owner, repo, assetName, otpVersions)) ->
         exists evs outcomes,
           List.length outcomes = List.length otpVersions
           /\ trace (fst (run w)) = trace w ++ evs
           /\ log_lines evs = flat_map version_log (combine otpVersions outcomes)
           /\ (Forall (fun o => o = None) outcomes ->
               cwd (fst (run w)) = cwd w)).
Proof.
  split; [|split].
  - destruct (prepare w) as [w' [[[[owner repo] assetName] vs]|e]] eqn:E.
    + rewrite (run_loops _ E).
      apply forEach_returns, iteration_returns.
    + now rewrite (run_fails_before_the_loop _ E).
  - intros w' e E; rewrite (run_fails_before_the_loop _ E).
    destruct (prepare_extends w) as (evs & X & F); rewrite E in X; simpl in X.
    exists (evs ++ [EvSetFailed (message_of e)]); split.
    + subst w'; cbn; now rewrite <- app_assoc.
    + rewrite log_lines_app, log_lines_silent; [reflexivity|].
      eapply Forall_impl; [|exact F]; exact local_event_is_silent.
  - intros w' owner repo assetName vs E; rewrite (run_loops _ E).
    destruct (prepare_extends w) as (e0 & X & F); rewrite E in X; simpl in X.
    destruct (forEach_log owner repo assetName vs w') as (evs & os & Hl & T & L & C).
    exists (e0 ++ evs), os; split; [exact Hl|].
    split; [rewrite T; subst w'; cbn; now rewrite app_assoc|].
    split.
    + rewrite log_lines_app, L, log_lines_silent; [reflexivity|].
      eapply Forall_impl; [|exact F]; exact local_event_is_silent.
    + intros Hn; rewrite (C Hn); now subst w'.
Qed.

Lemma run_logs_every_version_once_witness :
  (exists evs,
      trace (fst (run Host.without_token)) = trace Host.without_token ++ evs
      /\ log_lines evs = [EvSetFailed "Parameter token or opts.auth is required"])
  /\ (exists evs outcomes,
         List.length outcomes = 2%nat
         /\ trace (fst (run Host.linux)) = trace Host.linux ++ evs
         /\ log_lines evs
            = flat_map version_log (combine ["OTP-23.0"; "OTP-23.1"]%string outcomes)
         /\ (Forall (fun o => o = None) outcomes ->
             cwd (fst (run Host.linux)) = cwd Host.linux)).
Proof.
  split.
  - apply (proj1 (proj2 (run_logs_every_version_once Host.without_token))
             Host.without_token
             (JsError "Parameter token or opts.auth is required")).
    vm_compute; reflexivity.
  - apply (proj2 (proj2 (run_logs_every_version_once Host.linux))
             (fst (prepare Host.linux))
             "niku"%string "otp-kuroko"%string "linux-5.4.0.tar.gz"%string
             ["OTP-23.0"; "OTP-23.1"]%string).
    vm_compute; reflexivity.
Defined.

(** ** One version *)

Lemma local_events_are_no_requests (evs : list event) :
  Forall local_event evs -> filter is_request evs = [].
Proof.
  induction 1 as [|e evs He _ IH]; [reflexivity|].
  simpl; rewrite IH; now destruct e.
Qed.

(** X7.  Nothing is built for a version unless its checkout, its release
    and its asset listing all succeeded.  When [setup] fails, [publish]
    fails with that error having run [git] only: no request was sent.
    When the release cannot be resolved, or the assets cannot be listed,
    [publish] fails with that error and no patch, build, packaging or
    upload has happened. *)
Theorem publish_builds_only_after_the_lookups
        (owner repo assetName otpVersion : string) (w : World) :
  (forall w1 e,
      setup otpVersion w = (w1, Throw e) ->
      publish owner repo assetName otpVersion w = (w1, Throw e)
      /\ exists evs, w1 = extend evs w /\ filter is_request evs = [])
  /\ (forall w1 w2 e,
         setup otpVersion w = (w1, Ok tt) ->
         getOrCreateRelease owner repo otpVersion w1 = (w2, Throw e) ->
         publish owner repo assetName otpVersion w = (w2, Throw e)
         /\ exists evs,
             trace w2 = trace w ++ evs
             /\ Forall (fun ev => builds_or_publishes ev = false) evs)
  /\ (forall w1 w2 w3 releaseId uploadUrl e,
         setup otpVersion w = (w1, Ok tt) ->
         getOrCreateRelease owner repo otpVersion w1
         = (w2, Ok (releaseId, uploadUrl)) ->
         getAsset owner repo releaseId assetName w2 = (w3, Throw e) ->
         publish owner repo assetName otpVersion w = (w3, Throw e)
         /\ exists evs,
             trace w3 = trace w ++ evs
             /\ Forall (fun ev => builds_or_publishes ev = false) evs).
Proof.
  split; [|split].
  - intros w1 e Hs; split; [unfold publish, bind; now rewrite Hs|].
    destruct (setup_extends otpVersion w) as (evs & E & F).
    rewrite Hs in E; simpl in E.
    exists evs; split; [exact E | now apply local_events_are_no_requests].
  - intros w1 w2 e Hs Hr; split; [unfold publish, bind; now rewrite Hs, Hr|].
    destruct (@emitted _ _ _ _ _ _ (setup_is_quiet otpVersion) Hs)
      as (e1 & T1 & F1).
    destruct (@emitted _ _ _ _ _ _
                (getOrCreateRelease_is_quiet owner repo otpVersion) Hr)
      as (e2 & T2 & F2).
    exists (e1 ++ e2); split; [now rewrite T2, T1, app_assoc|].
    apply Forall_app; split; [exact F1 | exact F2].
  - intros w1 w2 w3 releaseId uploadUrl e Hs Hr Ha; split.
    + unfold publish, bind; rewrite Hs, Hr; cbv beta iota; now rewrite Ha.
    + destruct (@emitted _ _ _ _ _ _ (setup_is_quiet otpVersion) Hs)
        as (e1 & T1 & F1).
      destruct (@emitted _ _ _ _ _ _
                  (getOrCreateRelease_is_quiet owner repo otpVersion) Hr)
        as (e2 & T2 & F2).
      destruct (@emitted _ _ _ _ _ _
                  (getAsset_is_quiet owner repo releaseId assetName) Ha)
        as (e3 & T3 & F3).
      exists (e1 ++ e2 ++ e3); split; [now rewrite T3, T2, T1, <- !app_assoc|].
      apply Forall_app; split; [exact F1|].
      apply Forall_app; split; [exact F2 | exact F3].
Qed.

Lemma publish_builds_only_after_the_lookups_witness :
  (exists w1 e,
      publish "niku" "otp-kuroko" "linux-5.4.0.tar.gz" "OTP-23.0" Host.git_fails
      = (w1, Throw e)
      /\ exists evs, w1 = extend evs Host.git_fails /\ filter is_request evs = [])
  /\ (exists w2 e,
         publish "niku" "otp-kuroko" "linux-5.4.0.tar.gz" "OTP-23.0" Host.unreachable
         = (w2, Throw e)
         /\ exists evs,
             trace w2 = trace Host.unreachable ++ evs
             /\ Forall (fun ev => builds_or_publishes ev = false) evs)
  /\ (exists w3 e,
         publish "niku" "otp-kuroko" "linux-5.4.0.tar.gz" "OTP-23.0"
                 Host.rejecting_listings
         = (w3, Throw e)
         /\ exists evs,
             trace w3 = trace Host.rejecting_listings ++ evs
             /\ Forall (fun ev => builds_or_publishes ev = false) evs).
Proof.
  split; [|split].
  - exists (fst (setup "OTP-23.0" Host.git_fails)),
           (ExecError "The process 'git' failed with exit code 2").
    apply (proj1 (@publish_builds_only_after_the_lookups
                    "niku" "otp-kuroko" "linux-5.4.0.tar.gz" "OTP-23.0"
                    Host.git_fails)).
    vm_compute; reflexivity.
  - exists (fst (getOrCreateRelease "niku" "otp-kuroko" "OTP-23.0"
                   (fst (setup "OTP-23.0" Host.unreachable)))),
           (JsError ("Unexpected error occured: "
                     ++ Host.rendering
                          0 (RequestError (Some 500) "Internal Server Error"))).
    apply (proj1 (proj2 (@publish_builds_only_after_the_lookups
                           "niku" "otp-kuroko" "linux-5.4.0.tar.gz" "OTP-23.0"
                           Host.unreachable))
             (fst (setup "OTP-23.0" Host.unreachable)));
      vm_compute; reflexivity.
  - exists (fst (getAsset "niku" "otp-kuroko" 1 "linux-5.4.0.tar.gz"
                   (fst (getOrCreateRelease "niku" "otp-kuroko" "OTP-23.0"
                           (fst (setup "OTP-23.0" Host.rejecting_listings)))))),
           (RequestError (Some 500) "Internal Server Error").
    apply (proj2 (proj2 (@publish_builds_only_after_the_lookups
                           "niku" "otp-kuroko" "linux-5.4.0.tar.gz" "OTP-23.0"
                           Host.rejecting_listings))
             (fst (setup "OTP-23.0" Host.rejecting_listings))
             (fst (getOrCreateRelease "niku" "otp-kuroko" "OTP-23.0"
                     (fst (setup "OTP-23.0" Host.rejecting_listings))))
             _ 1
             (snd (match snd (getOrCreateRelease "niku" "otp-kuroko" "OTP-23.0"
                                (fst (setup "OTP-23.0" Host.rejecting_listings)))
                   with Ok r => r | Throw _ => (0, EmptyString) end)));
      vm_compute; reflexivity.
Defined.

(** X8.  A version that is published already costs two requests, as the
    comment in [run] counts: when the checkout succeeds, the registry
    answers, the release of the tag exists and its assets hold the asset
    name under an id other than 0, [publish] returns having sent exactly
    the lookup of the release and the listing of its assets. *)
Theorem published_version_costs_two_requests
        (owner repo assetName otpVersion : string) (w w1 : World)
        (found listed : release) (id : Z) :
  setup otpVersion w = (w1, Ok tt) ->
  no_fault w ->
  find (release_has_tag owner repo otpVersion) (registry w) = Some found ->
  find (release_has_id owner repo (rel_id found)) (registry w) = Some listed ->
  findAssetId (rel_assets listed) assetName = Some id ->
  id <> 0 ->
  exists w' evs,
    publish owner repo assetName otpVersion w = (w', Ok tt)
    /\ trace w' = trace w ++ evs
    /\ filter is_request evs
       = [EvGetReleaseByTag owner repo otpVersion;
          EvListAssetsForRelease owner repo (rel_id found)]
    /\ registry w' = registry w.
Proof.
  intros Hs Hf Hr Hl Ha Hid.
  destruct (setup_extends otpVersion w) as (evs & E & F).
  rewrite Hs in E; simpl in E; subst w1.
  assert (G : getOrCreateRelease owner repo otpVersion (extend evs w)
              = (record (EvGetReleaseByTag owner repo otpVersion) (extend evs w),
                 Ok (rel_id found, rel_upload_url found)))
    by (apply getOrCreateRelease_found; [exact Hf | exact Hr]).
  assert (A : getAsset owner repo (rel_id found) assetName
                       (record (EvGetReleaseByTag owner repo otpVersion)
                               (extend evs w))
              = (record (EvListAssetsForRelease owner repo (rel_id found))
                   (record (EvGetReleaseByTag owner repo otpVersion)
                           (extend evs w)),
                 Ok (Some id))).
  { unfold getAsset, required, bind, listAssetsForRelease; cbv beta iota.
    cbn [api_fault registry record extend]; rewrite Hf, Hl.
    unfold ret; now rewrite Ha. }
  eexists; exists (evs ++ [EvGetReleaseByTag owner repo otpVersion;
                           EvListAssetsForRelease owner repo (rel_id found)]).
  split.
  - unfold publish, bind; rewrite Hs, G; cbv beta iota; rewrite A.
    unfold assetId_truthy.
    destruct (Z.eqb_spec id 0); [contradiction | reflexivity].
  - split; [cbn; now rewrite <- !app_assoc|].
    split; [|reflexivity].
    now rewrite filter_app, (local_events_are_no_requests F).
Qed.

Lemma published_version_costs_two_requests_witness :
  exists w' evs,
    publish "niku" "otp-kuroko" "linux-5.4.0.tar.gz" "OTP-23.0"
            Host.published_already
    = (w', Ok tt)
    /\ trace w' = trace Host.published_already ++ evs
    /\ filter is_request evs
       = [EvGetReleaseByTag "niku" "otp-kuroko" "OTP-23.0";
          EvListAssetsForRelease "niku" "otp-kuroko" 7]
    /\ registry w' = registry Host.published_already.
Proof.
  apply (@published_version_costs_two_requests
           "niku" "otp-kuroko" "linux-5.4.0.tar.gz" "OTP-23.0"
           Host.published_already
           (fst (setup "OTP-23.0" Host.published_already))
           (mkRelease "niku" "otp-kuroko" "OTP-23.0" 7
                      "https://uploads.github.com/releases/7/assets"
                      [mkAsset 40 "Linux-5.4.0.tar.gz";
                       mkAsset 41 "linux-5.4.0.tar.gz"])
           (mkRelease "niku" "otp-kuroko" "OTP-23.0" 7
                      "https://uploads.github.com/releases/7/assets"
                      [mkAsset 40 "Linux-5.4.0.tar.gz";
                       mkAsset 41 "linux-5.4.0.tar.gz"])
           41).
  - vm_compute; reflexivity.
  - intros t e; reflexivity.
  - reflexivity.
  - reflexivity.
  - reflexivity.
  - discriminate.
Defined.

(** ** Uploads, file by file *)

Lemma uploadAssets_callback_world (uploadUrl assetPath : string)
      (size : string -> option Z) (w : World) :
  (forall t p, stat_size w t p = size p) ->
  trace (fst (uploadAssets_callback uploadUrl assetPath w))
  = trace w ++ upload_of uploadUrl size assetPath
  /\ stat_size (fst (uploadAssets_callback uploadUrl assetPath w)) = stat_size w.
Proof.
  intros H.
  unfold uploadAssets_callback, bind, async, uploadAsset, statSync_size,
    upload_of, uploadReleaseAsset.
  unfold bind; cbv beta zeta; rewrite H; destruct (size assetPath) as [n|]; cbn.
  - destruct (api_fault w (now w) _); cbn; now split.
  - now rewrite app_nil_r.
Qed.

Lemma uploads_in_the_trace (uploadUrl : string) (assetPaths : list string)
      (size : string -> option Z) (w : World) :
  (forall t p, stat_size w t p = size p) ->
  trace (fst (mapM (uploadAssets_callback uploadUrl) assetPaths w))
  = trace w ++ flat_map (upload_of uploadUrl size) assetPaths.
Proof.
  revert w; induction assetPaths as [|p ps IH]; intros w H; simpl.
  - now rewrite app_nil_r.
  - unfold bind.
    destruct (@uploadAssets_callback_world uploadUrl p size w H) as [T S].
    pose proof (uploadAssets_callback_returns uploadUrl p w) as R.
    destruct (uploadAssets_callback uploadUrl p w) as [w1 r]; simpl in *; subst r.
    assert (H1 : forall t q, stat_size w1 t q = size q)
      by (intros t q; rewrite S; apply H).
    specialize (IH w1 H1).
    pose proof (uploads_are_dropped uploadUrl ps w1) as D.
    destruct (mapM _ ps w1) as [w2 r]; simpl in *; subst r.
    cbn; now rewrite IH, T, app_assoc.
Qed.

(** X9.  [uploadAssets] sends one upload request per file it can read the
    size of, in the order of the paths, each to the upload URL, under the
    base name of the path and with the size of the file; a path whose file
    cannot be read is passed over without a request and without an error.
    It adds nothing else to the trace. *)
Theorem uploadAssets_sends_one_request_per_file
        (uploadUrl : string) (assetPaths : list string)
        (size : string -> option Z) (w : World) :
  (forall t p, stat_size w t p = size p) ->
  uploadAssets uploadUrl assetPaths w
  = (fst (uploadAssets uploadUrl assetPaths w), Ok tt)
  /\ trace (fst (uploadAssets uploadUrl assetPaths w))
     = trace w ++ flat_map (upload_of uploadUrl size) assetPaths.
Proof.
  intros H; split.
  - rewrite <- (uploadAssets_returns uploadUrl assetPaths w).
    now destruct (uploadAssets uploadUrl assetPaths w).
  - pose proof (@uploads_in_the_trace uploadUrl assetPaths size w H) as T.
    unfold uploadAssets, bind, await.
    now destruct (mapM _ assetPaths w) as [w' [els|e]].
Qed.

Lemma uploadAssets_sends_one_request_per_file_witness :
  snd (uploadAssets "https://uploads.github.com/releases/7/assets"
                    ["/w/release/linux-5.4.0.tar.gz";
                     "/w/release/linux-5.4.0.sha256.txt"] Host.linux)
  = Ok tt
  /\ trace (fst (uploadAssets "https://uploads.github.com/releases/7/assets"
                              ["/w/release/linux-5.4.0.tar.gz";
                               "/w/release/linux-5.4.0.sha256.txt"] Host.linux))
     = [EvUploadReleaseAsset "https://uploads.github.com/releases/7/assets"
                             "linux-5.4.0.tar.gz" 1024
                             "/w/release/linux-5.4.0.tar.gz";
        EvUploadReleaseAsset "https://uploads.github.com/releases/7/assets"
                             "linux-5.4.0.sha256.txt" 1024
                             "/w/release/linux-5.4.0.sha256.txt"].
Proof.
  destruct (@uploadAssets_sends_one_request_per_file
              "https://uploads.github.com/releases/7/assets"
              ["/w/release/linux-5.4.0.tar.gz";
               "/w/release/linux-5.4.0.sha256.txt"]%string
              (fun _ => Some 1024) Host.linux
              (fun _ _ => eq_refl)) as (R & T).
  split; [now rewrite R | exact T].
Defined.

(** ** The two revisions of the patch step *)

Lemma catalina_needs_a_major_below_23 (major minor : num) (rest : list num) :
  maybePatchCatalina_test major minor rest = true ->
  exists z, major = Num z /\ 19 <= z < 23.
Proof.
  unfold maybePatchCatalina_test; destruct major as [| |z]; try discriminate.
  intros H; exists z; split; [reflexivity|].
  simpl in H.
  destruct (Z.ltb_spec 19 z), (Z.ltb_spec z 23), (Z.eqb_spec z 19),
    (Z.eqb_spec z 22); simpl in H; try discriminate; lia.
Qed.

(** X10.  The single-rule revision, [maybeApplyPatch], does nothing off
    darwin.  On darwin it returns early exactly for a major of 23 or more
    and for 22.3.k with k of 1 or more, so 22.4.0, though greater than
    22.3.1, is patched, and a version 22.3 without a third component is
    patched; a tag whose major is not a number is patched as well, every
    comparison with it being false. *)
Theorem maybeApplyPatch_returns_early_from_22_3_1 (otpVersion : string) (w : World) :
  (platform w <> "darwin"%string ->
   Revision.maybeApplyPatch otpVersion w = (w, Ok tt))
  /\ (platform w = "darwin"%string ->
      is_number (major_of otpVersion) = false ->
      Revision.maybeApplyPatch otpVersion w
      = applyPatch CatarinaNoWeakImportsPatch w)
  /\ (forall major minor k tail,
         Revision.maybeApplyPatch_skip "darwin" (Num major) (Num minor)
                                       (Num k :: tail) = true
         <-> 23 <= major \/ (major = 22 /\ minor = 3 /\ 1 <= k))
  /\ (forall major minor,
         Revision.maybeApplyPatch_skip "darwin" (Num major) (Num minor) [] = true
         <-> 23 <= major).
Proof.
  split; [|split; [|split]].
  - intros H; apply String.eqb_neq in H.
    unfold Revision.maybeApplyPatch, Revision.maybeApplyPatch_skip, bind, ask.
    now rewrite H.
  - intros H N.
    unfold Revision.maybeApplyPatch, Revision.maybeApplyPatch_skip, bind, ask.
    rewrite H; destruct (not_a_number_cases _ N) as [E|E]; now rewrite E.
  - intros major minor k tail; unfold Revision.maybeApplyPatch_skip; simpl.
    destruct (Z.leb_spec 23 major), (Z.eqb_spec major 22), (Z.eqb_spec minor 3),
      (Z.leb_spec 1 k); simpl; split; intros; try discriminate;
      try reflexivity; lia.
  - intros major minor; unfold Revision.maybeApplyPatch_skip; simpl.
    rewrite andb_false_r, orb_false_r.
    destruct (Z.leb_spec 23 major); split; intros; try discriminate;
      try reflexivity; lia.
Qed.

Lemma maybeApplyPatch_returns_early_from_22_3_1_witness :
  Revision.maybeApplyPatch "OTP-22.3.1" Host.linux = (Host.linux, Ok tt)
  /\ Revision.maybeApplyPatch "OTP-x" Host.darwin
     = applyPatch CatarinaNoWeakImportsPatch Host.darwin
  /\ Revision.maybeApplyPatch_skip "darwin" (Num 22) (Num 3) [Num 1] = true
  /\ Revision.maybeApplyPatch_skip "darwin" (Num 23) (Num 0) [] = true.
Proof.
  split; [|split; [|split]].
  - apply (proj1 (maybeApplyPatch_returns_early_from_22_3_1 "OTP-22.3.1" Host.linux));
      discriminate.
  - apply (proj1 (proj2 (maybeApplyPatch_returns_early_from_22_3_1 "OTP-x" Host.darwin)));
      reflexivity.
  - apply (proj1 (proj2 (proj2 (maybeApplyPatch_returns_early_from_22_3_1
                                  "OTP-22.3.1" Host.darwin)))).
    right; lia.
  - apply (proj2 (proj2 (proj2 (maybeApplyPatch_returns_early_from_22_3_1
                                  "OTP-23.0" Host.darwin)))).
    lia.
Defined.

(** X11.  Where the Catalina rule of the three-rule revision matches, the
    single-rule revision applies the patch on darwin too, except for
    22.3.k with k of 1 or more, which only the three-rule revision
    patches.  The converse fails below 19: there the Catalina rule never
    matches, and the single-rule revision always patches on darwin. *)
Theorem revisions_differ_at_22_3_1_and_below_19 :
  (forall major minor rest,
      maybePatchCatalina_test major minor rest = true ->
      Revision.maybeApplyPatch_skip "darwin" major minor rest
      = eq_strict major (Num 22) && eq_strict minor (Num 3)
        && le (Num 1) (index rest 0))
  /\ (forall z minor rest,
         z < 19 ->
         maybePatchCatalina_test (Num z) minor rest = false
         /\ Revision.maybeApplyPatch_skip "darwin" (Num z) minor rest = false).
Proof.
  split.
  - intros major minor rest H.
    destruct (catalina_needs_a_major_below_23 _ _ _ H) as (z & -> & Hz).
    unfold Revision.maybeApplyPatch_skip; simpl.
    now destruct (Z.leb_spec 23 z); [lia|].
  - intros z minor rest Hz; split.
    + unfold maybePatchCatalina_test; simpl.
      destruct (Z.ltb_spec 19 z), (Z.eqb_spec z 19), (Z.eqb_spec z 22);
        simpl; try reflexivity; lia.
    + unfold Revision.maybeApplyPatch_skip; simpl.
      destruct (Z.leb_spec 23 z), (Z.eqb_spec z 22); simpl; try reflexivity; lia.
Qed.

Lemma revisions_differ_at_22_3_1_and_below_19_witness :
  Revision.maybeApplyPatch_skip "darwin" (Num 22) (Num 3) [Num 1] = true
  /\ Revision.maybeApplyPatch_skip "darwin" (Num 21) (Num 0) [] = false
  /\ maybePatchCatalina_test (Num 18) (Num 3) [] = false
  /\ Revision.maybeApplyPatch_skip "darwin" (Num 18) (Num 3) [] = false.
Proof.
  split; [|split].
  - apply (proj1 revisions_differ_at_22_3_1_and_below_19
             (Num 22) (Num 3) [Num 1]); reflexivity.
  - apply (proj1 revisions_differ_at_22_3_1_and_below_19
             (Num 21) (Num 0) []); reflexivity.
  - apply (proj2 revisions_differ_at_22_3_1_and_below_19 18 (Num 3) []); lia.
Defined.

(** ** Tags and their numbers *)

Lemma digits_of_uint (d : Decimal.uint) (acc : Z) :
  digits (NilEmpty.string_of_uint d) (Some acc) = Some (uint_value d acc).
Proof.
  revert acc; induction d; intros acc; simpl; try reflexivity;
    rewrite IHd; f_equal; f_equal; lia.
Qed.

Lemma digits_of_uint_start (d : Decimal.uint) :
  d <> Decimal.Nil ->
  digits (NilEmpty.string_of_uint d) None = Some (uint_value d 0).
Proof.
  destruct d; intros H; try (now elim H); simpl;
    rewrite digits_of_uint; reflexivity.
Qed.

Lemma uint_value_acc (d : Decimal.uint) (acc : positive) :
  Z.pos (Pos.of_uint_acc d acc) = uint_value d (Z.pos acc).
Proof.
  revert acc; induction d; intros acc; cbn [Pos.of_uint_acc uint_value];
    try reflexivity; rewrite IHd; f_equal; lia.
Qed.

Lemma uint_value_of_uint (d : Decimal.uint) :
  Z.of_N (Pos.of_uint d) = uint_value d 0.
Proof.
  induction d; simpl; try reflexivity; try exact IHd;
    rewrite uint_value_acc; reflexivity.
Qed.

Lemma uint_value_to_uint (p : positive) : uint_value (Pos.to_uint p) 0 = Z.pos p.
Proof.
  now rewrite <- uint_value_of_uint, DecimalPos.Unsigned.of_to.
Qed.

Lemma string_of_uint_starts_with_a_digit (d : Decimal.uint) :
  d <> Decimal.Nil ->
  let s := NilEmpty.string_of_uint d in
  trimStart s = s /\ unsigned s = s /\ negative s = false.
Proof. destruct d; intros H; try (now elim H); now repeat split. Qed.

Lemma parseInt_decimal (z : Z) : parseInt (decimal z) = Num (to_double z).
Proof.
  unfold decimal; destruct z as [|p|p]; [reflexivity| |].
  - pose proof (DecimalPos.Unsigned.to_uint_nonnil p) as N.
    cbn [Z.to_int NilZero.string_of_int].
    replace (NilZero.string_of_uint (Pos.to_uint p))
      with (NilEmpty.string_of_uint (Pos.to_uint p))
      by (now destruct (Pos.to_uint p)).
    destruct (string_of_uint_starts_with_a_digit N) as (T & U & S).
    unfold parseInt; rewrite T, U, S, (digits_of_uint_start N).
    now rewrite uint_value_to_uint.
  - pose proof (DecimalPos.Unsigned.to_uint_nonnil p) as N.
    cbn [Z.to_int NilZero.string_of_int].
    replace (NilZero.string_of_uint (Pos.to_uint p))
      with (NilEmpty.string_of_uint (Pos.to_uint p))
      by (now destruct (Pos.to_uint p)).
    unfold parseInt; cbn [trimStart ascii_in white_space existsb Ascii.eqb
                            Bool.eqb orb unsigned negative].
    cbn -[to_double]; rewrite (digits_of_uint_start N), uint_value_to_uint.
    reflexivity.
Qed.

Lemma to_double_exact (z : Z) : Z.abs z <= 2 ^ 53 -> to_double z = z.
Proof.
  intros H; unfold to_double, round_magnitude.
  destruct (Z.eq_dec (Z.abs z) (2 ^ 53)) as [E|N].
  - rewrite E; destruct z as [|p|p]; simpl in E; try discriminate;
      injection E as ->; vm_compute; reflexivity.
  - destruct (Z.eq_dec z 0) as [->|Z0]; [reflexivity|].
    assert (L : Z.log2 (Z.abs z) < 53)
      by (apply Z.log2_lt_pow2; lia).
    replace (Z.log2 (Z.abs z) - 52 <=? 0) with true
      by (symmetry; apply Z.leb_le; lia).
    destruct z; simpl; lia.
Qed.

Lemma round_magnitude_large (n : Z) :
  2 ^ 53 <= n -> 2 ^ 53 <= round_magnitude n.
Proof.
  intros H; unfold round_magnitude.
  assert (P : 0 < n) by (change (2 ^ 53) with 9007199254740992 in H; lia).
  assert (L : 53 <= Z.log2 n) by (apply Z.log2_le_pow2; [exact P | exact H]).
  destruct (Z.log2_spec n P) as [Lo _].
  set (e := Z.log2 n - 52) in *.
  assert (E : 1 <= e) by (unfold e; lia).
  replace (e <=? 0) with false by (symmetry; apply Z.leb_gt; lia).
  assert (P2 : 2 <= 2 ^ e).
  { change 2 with (2 ^ 1) at 1; apply Z.pow_le_mono_r; lia. }
  assert (Q : 2 ^ 52 <= Z.shiftr n e).
  { rewrite Z.shiftr_div_pow2 by lia.
    apply Z.div_le_lower_bound; [lia|].
    replace (Z.log2 n) with (e + 52) in Lo by (unfold e; lia).
    rewrite Z.pow_add_r in Lo by lia; lia. }
  set (q := Z.shiftr n e) in *.
  match goal with
  | |- _ <= Z.min (Z.shiftl ?x e) _ =>
      assert (Q' : 2 ^ 52 <= x)
        by (destruct (_ <? _); [exact Q|];
            destruct (_ <? _); [lia|]; destruct (Z.even q); lia);
      generalize dependent x
  end.
  intros q' Q'.
  rewrite Z.shiftl_mul_pow2 by lia.
  apply Z.min_glb; [|vm_compute; discriminate].
  change (2 ^ 53) with (2 ^ 52 * 2).
  apply Z.mul_le_mono_nonneg; lia.
Qed.

Lemma to_double_cases (z : Z) :
  (Z.abs z <= 2 ^ 53 /\ to_double z = z)
  \/ (2 ^ 53 < z /\ 2 ^ 53 <= to_double z)
  \/ (z < - 2 ^ 53 /\ to_double z <= - 2 ^ 53).
Proof.
  destruct (Z_le_gt_dec (Z.abs z) (2 ^ 53)) as [S|L].
  - left; split; [exact S | now apply to_double_exact].
  - right; unfold to_double; destruct z as [|p|p].
    + vm_compute in L; discriminate.
    + left; cbn [Z.abs Z.sgn] in *.
      pose proof (@round_magnitude_large (Z.pos p)); lia.
    + right; cbn [Z.abs Z.sgn] in *.
      pose proof (@round_magnitude_large (Z.pos p)); lia.
Qed.

(** Comparing with a literal below [2^53] does not see the rounding. *)
Lemma to_double_small (z : Z) :
  Z.abs z < 9007199254740992 /\ to_double z = z
  \/ 9007199254740992 <= z /\ 9007199254740992 <= to_double z
  \/ z <= - 9007199254740992 /\ to_double z <= - 9007199254740992.
Proof.
  pose proof (to_double_cases z) as C.
  change (2 ^ 53) with 9007199254740992 in C.
  destruct (Z.eq_dec (Z.abs z) 9007199254740992); lia.
Qed.

Lemma substring_all (s : string) : String.substring 0 (String.length s) s = s.
Proof. induction s as [|c s IH]; simpl; [reflexivity | now f_equal]. Qed.

Lemma stripPrefix_OTP (s : string) : stripPrefix "OTP-" ("OTP-" ++ s) = s.
Proof.
  unfold stripPrefix; rewrite prefix_app.
  cbn [String.length String.append Nat.sub String.substring].
  rewrite Nat.sub_0_r; apply substring_all.
Qed.

Lemma split_without_sep (sep : ascii) (s : string) :
  occurrences sep s = 0%nat -> split sep s = [s].
Proof.
  induction s as [|c s IH]; simpl; [reflexivity|].
  destruct (Ascii.eqb c sep); [discriminate|].
  intros H; rewrite (IH H); reflexivity.
Qed.

Lemma split_at_the_first_sep (sep : ascii) (s t : string) :
  occurrences sep s = 0%nat ->
  split sep (s ++ String sep t) = s :: split sep t.
Proof.
  induction s as [|c s IH]; simpl.
  - now rewrite Ascii.eqb_refl.
  - destruct (Ascii.eqb c sep); [discriminate|].
    intros H; rewrite (IH H); reflexivity.
Qed.

Lemma split_concat (sep : ascii) (ls : list string) :
  ls <> [] ->
  Forall (fun s => occurrences sep s = 0%nat) ls ->
  split sep (String.concat (String sep EmptyString) ls) = ls.
Proof.
  induction ls as [|s ls IH]; [now intros H|].
  intros _ F; inversion F as [|? ? Hs Hls]; subst.
  destruct ls as [|s' ls]; [now apply split_without_sep|].
  change (String.concat (String sep EmptyString) (s :: s' :: ls))
    with (s ++ String sep (String.concat (String sep EmptyString) (s' :: ls)))%string.
  rewrite split_at_the_first_sep by exact Hs.
  f_equal; apply IH; [discriminate | exact Hls].
Qed.

Lemma length_split (sep : ascii) (s : string) :
  List.length (split sep s) = S (occurrences sep s).
Proof.
  induction s as [|c s IH]; simpl; [reflexivity|].
  destruct (Ascii.eqb c sep); simpl; [now rewrite IH|].
  destruct (split sep s) as [|h t] eqn:E; simpl in *; [discriminate | exact IH].
Qed.

Lemma uint_has_no_dot (d : Decimal.uint) :
  occurrences "." (NilEmpty.string_of_uint d) = 0%nat.
Proof. induction d; simpl; try reflexivity; exact IHd. Qed.

Lemma decimal_has_no_dot (z : Z) : occurrences "." (decimal z) = 0%nat.
Proof.
  unfold decimal; destruct z as [|p|p]; [reflexivity| |];
    cbn [Z.to_int NilZero.string_of_int];
    pose proof (uint_has_no_dot (Pos.to_uint p)) as H;
    destruct (Pos.to_uint p); try reflexivity; exact H.
Qed.

Lemma parseInt_is_defined (s : string) : parseInt s <> Undefined.
Proof. unfold parseInt; destruct (digits _ None); discriminate. Qed.

Lemma versionNumbers_of_tag (zs : list Z) :
  zs <> [] ->
  versionNumbers (tag_of zs) = map (fun z => Num (to_double z)) zs.
Proof.
  intros H; unfold versionNumbers, tag_of.
  rewrite stripPrefix_OTP, split_concat.
  - rewrite map_map; apply map_ext; exact parseInt_decimal.
  - now destruct zs.
  - apply Forall_forall; intros s Hs; apply in_map_iff in Hs.
    destruct Hs as (z & <- & _); apply decimal_has_no_dot.
Qed.

Lemma map_to_double_exact (zs : list Z) :
  Forall (fun z => Z.abs z <= 2 ^ 53) zs ->
  map (fun z => Num (to_double z)) zs = map Num zs.
Proof.
  induction 1 as [|z zs Hz _ IH]; [reflexivity|].
  simpl; now rewrite IH, (to_double_exact _ Hz).
Qed.

(** X12.  A tag written from whole numbers reads back as the doubles
    nearest to those numbers: for a nonempty list of integers (negative
    ones included), the numbers [versionNumbers] takes from the tag
    [OTP-a.b.c...] are [a, b, c, ...] rounded to doubles.  When no
    component exceeds [2^53] in magnitude they are [a, b, c, ...]
    themselves, so [major] and [minor] are the first two components and
    [rest] the others; a greater component may read back changed. *)
Theorem versionNumbers_reads_back_a_tag (zs : list Z) :
  zs <> [] ->
  versionNumbers (tag_of zs) = map (fun z => Num (to_double z)) zs
  /\ (Forall (fun z => Z.abs z <= 2 ^ 53) zs ->
      versionNumbers (tag_of zs) = map Num zs
      /\ major_of (tag_of zs) = Num (hd 0 zs)
      /\ minor_of (tag_of zs) = nth 1 (map Num zs) Undefined
      /\ rest_of (tag_of zs) = map Num (skipn 2 zs)).
Proof.
  intros H; split; [exact (versionNumbers_of_tag H)|].
  intros B; unfold major_of, minor_of, rest_of, index.
  rewrite (versionNumbers_of_tag H), (map_to_double_exact B).
  repeat split.
  - destruct zs; [now elim H | reflexivity].
  - now rewrite skipn_map.
Qed.

Lemma versionNumbers_reads_back_a_tag_witness :
  (versionNumbers "OTP-22.3.4.1" = [Num 22; Num 3; Num 4; Num 1]
   /\ major_of "OTP-22.3.4.1" = Num 22
   /\ minor_of "OTP-22.3.4.1" = Num 3
   /\ rest_of "OTP-22.3.4.1" = [Num 4; Num 1])
  /\ versionNumbers "OTP-22.3.9007199254740993"
     = [Num 22; Num 3; Num 9007199254740992].
Proof.
  split.
  - apply (@versionNumbers_reads_back_a_tag [22; 3; 4; 1]); [discriminate|].
    repeat constructor; vm_compute; discriminate.
  - apply (@versionNumbers_reads_back_a_tag [22; 3; 9007199254740993]);
      discriminate.
Defined.

(** X13.  The numbers of any text: [versionNumbers] returns one number for
    each piece between dots, one more than the text (without its prefix
    [OTP-]) has dots; [major] is never [undefined]; [minor] is [undefined]
    exactly when that text has no dot, and [rest] is empty when it has at
    most one. *)
Theorem versionNumbers_counts_the_dots (otpVersion : string) :
  let dots := occurrences "." (stripPrefix "OTP-" otpVersion) in
  List.length (versionNumbers otpVersion) = S dots
  /\ major_of otpVersion <> Undefined
  /\ (minor_of otpVersion = Undefined <-> dots = 0%nat)
  /\ List.length (rest_of otpVersion) = (dots - 1)%nat.
Proof.
  intros dots.
  assert (L : List.length (versionNumbers otpVersion) = S dots)
    by (unfold versionNumbers; rewrite length_map; apply length_split).
  assert (D : Forall (fun n => n <> Undefined) (versionNumbers otpVersion)).
  { unfold versionNumbers; apply Forall_forall; intros n Hn.
    apply in_map_iff in Hn; destruct Hn as (s & <- & _).
    apply parseInt_is_defined. }
  unfold major_of, minor_of, rest_of, index.
  destruct (versionNumbers otpVersion) as [|a [|b r]]; simpl in L |- *;
    [discriminate| |].
  - inversion D as [|? ? Ha Dr]; subst.
    split; [exact L|]; split; [exact Ha|]; split; [|simpl; lia].
    split; [lia | reflexivity].
  - inversion D as [|? ? Ha Dr]; inversion Dr as [|? ? Hb Dr']; subst.
    split; [exact L|]; split; [exact Ha|]; split; [|simpl; lia].
    split; [intros E; now elim Hb | lia].
Qed.

(** ** The patches of a version *)

Ltac bool_to_Z :=
  apply Bool.eq_iff_eq_true;
  rewrite ?Bool.orb_true_iff, ?Bool.andb_true_iff, ?Bool.orb_true_iff,
    ?Bool.andb_true_iff, ?Z.ltb_lt, ?Z.leb_le, ?Z.eqb_eq;
  lia.

Lemma darwin_test_on_numbers (major : Z) (minor : num) (rest : list num) :
  maybePatchDarwin_test (Num (to_double major)) minor rest
  = (17 <=? major) && (major <=? 19).
Proof.
  unfold maybePatchDarwin_test; cbn [le].
  pose proof (to_double_small major); bool_to_Z.
Qed.

Lemma all_test_on_numbers (major : Z) (minor : num) (rest : list num) :
  maybePatchAll_test (Num (to_double major)) minor rest
  = (17 <=? major) && (major <=? 19).
Proof.
  unfold maybePatchAll_test; cbn [le].
  pose proof (to_double_small major); bool_to_Z.
Qed.

Lemma catalina_test_on_numbers (major minor : Z) (rest : list num) :
  maybePatchCatalina_test (Num (to_double major)) (Num (to_double minor)) rest
  = (20 <=? major) && (major <=? 22) || (major =? 19) && (2 <=? minor).
Proof.
  unfold maybePatchCatalina_test.
  generalize (lt (JS.or (index rest 0) (Num 0)) (Num 1)); intros b.
  cbn [lt eq_loose].
  pose proof (to_double_small major); pose proof (to_double_small minor).
  destruct b; bool_to_Z.
Qed.

Lemma catalina_test_without_minor (major : Z) (rest : list num) :
  maybePatchCatalina_test (Num (to_double major)) Undefined rest
  = (20 <=? major) && (major <=? 22).
Proof.
  unfold maybePatchCatalina_test; cbn [lt eq_loose].
  rewrite !Bool.andb_false_r, !Bool.orb_false_r.
  pose proof (to_double_small major); bool_to_Z.
Qed.

Lemma selectPatches_on_numbers (p : string) (major minor : Z) (rest : list num) :
  selectPatches p (Num (to_double major)) (Num (to_double minor)) rest
  = patches_of_version p major (Some minor).
Proof.
  unfold selectPatches, declared_rules, rule_matches, patches_of_version.
  cbn [filter map rule_platform rule_version rule_payload].
  rewrite darwin_test_on_numbers, all_test_on_numbers, catalina_test_on_numbers.
  unfold on_every_platform; cbn [andb].
  destruct (on_darwin p); cbn [andb];
    destruct ((17 <=? major) && (major <=? 19));
    destruct ((20 <=? major) && (major <=? 22) || (major =? 19) && (2 <=? minor));
    reflexivity.
Qed.

Lemma selectPatches_without_minor (p : string) (major : Z) (rest : list num) :
  selectPatches p (Num (to_double major)) Undefined rest
  = patches_of_version p major None.
Proof.
  unfold selectPatches, declared_rules, rule_matches, patches_of_version.
  cbn [filter map rule_platform rule_version rule_payload].
  rewrite darwin_test_on_numbers, all_test_on_numbers, catalina_test_without_minor.
  unfold on_every_platform; rewrite Bool.andb_false_r, Bool.orb_false_r.
  cbn [andb].
  destruct (on_darwin p); cbn [andb];
    destruct ((17 <=? major) && (major <=? 19));
    destruct ((20 <=? major) && (major <=? 22));
    reflexivity.
Qed.

Lemma patches_of_version_outside (p : string) (major : Z) (minor : option Z) :
  major < 17 \/ 23 <= major -> patches_of_version p major minor = [].
Proof.
  intros H; unfold patches_of_version.
  replace ((17 <=? major) && (major <=? 19)) with false by bool_to_Z.
  replace ((20 <=? major) && (major <=? 22)) with false by bool_to_Z.
  replace (major =? 19) with false by (symmetry; apply Z.eqb_neq; lia).
  destruct (on_darwin p); cbn [andb orb]; [|reflexivity].
  replace ((17 <=? major) && (major <=? 19)) with false by bool_to_Z.
  reflexivity.
Qed.

(** X14.  For a tag written from whole numbers the patch step depends on
    the platform, [major] and [minor] only, never on the later
    components: [maybePatch] applies, in this order, the wx patch on
    darwin for 17 <= major <= 19, the Catalina patch on darwin for
    20 <= major <= 22 or for major 19 with minor 2 or more, and the zlib
    patch on every platform for 17 <= major <= 19; a failing [patch]
    ends it.  A tag of one number has no minor and gets the Catalina patch
    for 20 <= major <= 22 only.  Below 17 and from 23 on, [maybePatch]
    starts no process and changes nothing. *)
Theorem maybePatch_by_major_and_minor (major minor : Z) (rest : list Z) (w : World) :
  maybePatch (tag_of (major :: minor :: rest)) w
  = applyEach (patches_of_version (platform w) major (Some minor)) w
  /\ maybePatch (tag_of [major]) w
     = applyEach (patches_of_version (platform w) major None) w
  /\ (major < 17 \/ 23 <= major ->
      maybePatch (tag_of (major :: minor :: rest)) w = (w, Ok tt)
      /\ maybePatch (tag_of [major]) w = (w, Ok tt)).
Proof.
  assert (A : maybePatch (tag_of (major :: minor :: rest)) w
              = applyEach (patches_of_version (platform w) major (Some minor)) w).
  { rewrite maybePatch_is_applyEach; unfold major_of, minor_of, rest_of, index.
    rewrite versionNumbers_of_tag by discriminate.
    cbn [map nth skipn]; now rewrite selectPatches_on_numbers. }
  assert (B : maybePatch (tag_of [major]) w
              = applyEach (patches_of_version (platform w) major None) w).
  { rewrite maybePatch_is_applyEach; unfold major_of, minor_of, rest_of, index.
    rewrite versionNumbers_of_tag by discriminate.
    cbn [map nth skipn]; now rewrite selectPatches_without_minor. }
  split; [exact A|]; split; [exact B|].
  intros H; rewrite A, B, !patches_of_version_outside by exact H.
  split; reflexivity.
Qed.

Lemma maybePatch_by_major_and_minor_witness :
  maybePatch "OTP-23.0" Host.darwin = (Host.darwin, Ok tt)
  /\ maybePatch "OTP-23" Host.darwin = (Host.darwin, Ok tt)
  /\ maybePatch "OTP-16.3.1" Host.darwin = (Host.darwin, Ok tt).
Proof.
  split; [|split].
  - apply (proj2 (proj2 (maybePatch_by_major_and_minor 23 0 [] Host.darwin)));
      right; lia.
  - apply (proj2 (proj2 (maybePatch_by_major_and_minor 23 0 [] Host.darwin)));
      right; lia.
  - apply (proj2 (proj2 (maybePatch_by_major_and_minor 16 3 [1] Host.darwin)));
      left; lia.
Defined.

(** ** The name of the asset *)

Lemma append_assoc (s t u : string) :
  (s ++ (t ++ u) = (s ++ t) ++ u)%string.
Proof. induction s as [|c s IH]; simpl; [reflexivity | now f_equal]. Qed.

Lemma lower_keeps_white_space (c : ascii) :
  ascii_in (lower c) white_space = ascii_in c white_space
  /\ Ascii.eqb (lower c) " " = Ascii.eqb c " ".
Proof.
  destruct c as [[] [] [] [] [] [] [] []]; split; reflexivity.
Qed.

Lemma toLowerCase_app (s t : string) :
  toLowerCase (s ++ t) = (toLowerCase s ++ toLowerCase t)%string.
Proof. induction s as [|c s IH]; simpl; [reflexivity | now f_equal]. Qed.

Lemma replaceFirstSpace_after_a_word (s t : string) :
  no_white_space s = true ->
  replaceFirstSpace (toLowerCase s ++ String " " t) = (toLowerCase s ++ String "-" t)%string.
Proof.
  induction s as [|c s IH]; simpl; [reflexivity|].
  intros H; apply Bool.andb_true_iff in H; destruct H as (Hc & Hs).
  destruct (lower_keeps_white_space c) as (_ & ->).
  destruct (Ascii.eqb_spec c " ") as [->|_]; [discriminate Hc|].
  now rewrite (IH Hs).
Qed.

Lemma trimStart_of_a_word (s t : string) :
  no_white_space s = true -> s <> EmptyString ->
  trimStart (s ++ t) = (s ++ t)%string.
Proof.
  destruct s as [|c s]; [now intros _ H|]; simpl.
  intros H _; apply Bool.andb_true_iff in H; destruct H as (Hc & _).
  apply Bool.negb_true_iff in Hc; unfold ascii_in in Hc; simpl in Hc.
  now rewrite Hc.
Qed.

Lemma length_dropWhile {A} (p : A -> bool) (xs : list A) :
  (List.length (Path.dropWhile p xs) <= List.length xs)%nat.
Proof.
  induction xs as [|x r IH]; simpl; [lia|].
  destruct (p x); simpl; lia.
Qed.

Lemma dropWhile_fixed {A} (p : A -> bool) (xs ys : list A) :
  xs <> [] -> Path.dropWhile p xs = xs -> Path.dropWhile p (xs ++ ys) = xs ++ ys.
Proof.
  destruct xs as [|x r]; [now intros H|]; simpl; intros _ H.
  destruct (p x); [|reflexivity].
  pose proof (length_dropWhile p r) as L; rewrite H in L; simpl in L; lia.
Qed.

Lemma trimEnd_before_a_word (s t : string) :
  t <> EmptyString -> trimEnd t = t -> trimEnd (s ++ t) = (s ++ t)%string.
Proof.
  intros N H; unfold trimEnd in *.
  rewrite chars_app, rev_app_distr.
  assert (E : Path.dropWhile (fun c => ascii_in c white_space) (rev (Path.chars t))
              = rev (Path.chars t)).
  { apply (f_equal Path.chars) in H; rewrite chars_text in H.
    apply (f_equal (@rev ascii)) in H; now rewrite rev_involutive in H. }
  rewrite dropWhile_fixed; [|intros Z|exact E].
  - now rewrite <- rev_app_distr, rev_involutive, <- chars_app, text_chars.
  - apply (f_equal (@rev ascii)) in Z; rewrite rev_involutive in Z; simpl in Z.
    destruct t; [now elim N | discriminate Z].
Qed.

(** X15.  The asset is named after the kernel and its release: when
    [uname -s -r] prints a kernel name without white space, one space
    and a release that does not end in white space, [getAssetName] runs
    that one command and returns the two in lower case, joined by a
    hyphen, followed by [.tar.gz].  Only that first space is replaced: a
    space inside the release stays in the name. *)
Theorem getAssetName_joins_kernel_and_release (kernel release : string) (w : World) :
  let out := child_process w (now w) (uname_request (cwd w)) in
  ex_failure out = None ->
  String.concat EmptyString (ex_lines out) = (kernel ++ " " ++ release)%string ->
  kernel <> EmptyString -> no_white_space kernel = true ->
  release <> EmptyString -> trimEnd release = release ->
  getAssetName w
  = (record (EvExec (uname_request (cwd w))) w,
     Ok (toLowerCase kernel ++ "-" ++ toLowerCase release ++ ".tar.gz")%string).
Proof.
  intros out Hf Hl Nk Wk Nr Tr.
  unfold getAssetName, bind, ret.
  rewrite exec_succeeds by exact Hf.
  fold (uname_request (cwd w)); fold out; cbv beta iota; rewrite Hl.
  unfold trim; rewrite trimStart_of_a_word by assumption.
  rewrite append_assoc, trimEnd_before_a_word, <- append_assoc by assumption.
  rewrite toLowerCase_app.
  change (toLowerCase (" " ++ release))
    with (String " " (toLowerCase release)).
  rewrite replaceFirstSpace_after_a_word by exact Wk.
  rewrite <- append_assoc; reflexivity.
Qed.

Lemma getAssetName_joins_kernel_and_release_witness :
  getAssetName Host.darwin
  = (record (EvExec (uname_request "/w")) Host.darwin,
     Ok "darwin-19.6.0.tar.gz"%string).
Proof.
  apply (@getAssetName_joins_kernel_and_release "Darwin" "19.6.0" Host.darwin);
    try reflexivity; discriminate.
Defined.

(** ** The asset of a version *)

Lemma archive_emits_build_events (assetName : string) :
  emits build_event (archive assetName).
Proof.
  unfold archive.
  apply emits_bind; [apply emits_ask | intros dir].
  apply emits_bind; [apply emits_readdirSync | intros entries].
  destruct (_ <? 1)%nat; [apply emits_throw|].
  destruct (1 <? _)%nat; [apply emits_throw|].
  apply emits_bind; [now apply emits_chdir | intros _].
  apply emits_bind; [now apply emits_exec | intros _].
  apply emits_bind; [now apply emits_chdir | intros _].
  apply emits_ret.
Qed.

Lemma local_is_build {A} (m : M A) : extends local_event m -> emits build_event m.
Proof.
  intros H; apply emits_weaken with (P := local_event);
    [now intros [] | now apply extends_emits].
Qed.

Lemma archive_returns_the_path (assetName : string) (w w' : World) (p : string) :
  archive assetName w = (w', Ok p) ->
  p = Path.join (Path.join (cwd w) "release") assetName.
Proof.
  unfold archive, bind, ask, readdirSync.
  destruct (readdir w (now w) _) as [entries|]; [|discriminate].
  destruct (_ <? 1)%nat; [discriminate|].
  destruct (1 <? _)%nat; [discriminate|].
  cbn -[Path.join]; unfold exec.
  destruct (ex_failure _); [discriminate|].
  cbn -[Path.join]; intros E; now inversion E.
Qed.

Lemma build_events_are_no_requests (evs : list event) :
  Forall build_event evs -> filter is_request evs = [].
Proof.
  induction 1 as [|e evs He _ IH]; [reflexivity|].
  simpl; rewrite IH; now destruct e.
Qed.

(** X16.  When [makeAsset] returns, it returns the path of the archive,
    which is the asset name inside [release] under the working directory
    of its start, and the path of the sidecar of that archive; the working
    directory is the one it started in; the last two things it did were to
    run [shasum -a 256] on the archive from that directory and to write
    the sidecar; and it sent no request. *)
Theorem makeAsset_returns_the_two_paths
        (otpVersion assetName : string) (w w' : World)
        (archivedPath sha256Path : string) :
  makeAsset otpVersion assetName w = (w', Ok (archivedPath, sha256Path)) ->
  archivedPath = Path.join (Path.join (cwd w) "release") assetName
  /\ sha256Path = sha256FilePathOf archivedPath
  /\ cwd w' = cwd w
  /\ exists evs digest,
      trace w'
      = trace w ++ evs ++ [EvExec (shasum_request (cwd w) archivedPath);
                           EvWriteFile sha256Path digest]
      /\ filter is_request evs = [].
Proof.
  intros H; unfold makeAsset, bind in H.
  destruct (maybePatch otpVersion w) as [w1 [[]|e]] eqn:E1; [|discriminate].
  destruct (make w1) as [w2 [[]|e]] eqn:E2; [|discriminate].
  destruct (archive assetName w2) as [w3 [p|e]] eqn:E3; [|discriminate].
  destruct (sha256 p w3) as [w4 [q|e]] eqn:E4; [|discriminate].
  inversion H; subst w4 p q; clear H.
  assert (C1 : cwd w1 = cwd w).
  { pose proof (extends_keeps_cwd (maybePatch_extends otpVersion) w) as C.
    now rewrite E1 in C. }
  assert (C2 : cwd w2 = cwd w1).
  { pose proof (extends_keeps_cwd make_extends w1) as C.
    now rewrite E2 in C. }
  assert (C3 : cwd w3 = cwd w2) by exact (@archive_restores_cwd assetName w2 w3 _ E3).
  destruct (local_is_build (maybePatch_extends otpVersion) w) as (evs1 & T1 & F1).
  destruct (local_is_build make_extends w1) as (evs2 & T2 & F2).
  destruct (archive_emits_build_events assetName w2) as (evs3 & T3 & F3).
  rewrite E1 in T1; rewrite E2 in T2; rewrite E3 in T3; cbn [fst] in T1, T2, T3.
  pose proof (@archive_returns_the_path assetName w2 w3 archivedPath E3) as P.
  rewrite C2, C1 in P.
  unfold sha256, writeFileSync, emit, bind, exec, ret in E4.
  destruct (ex_failure _) in E4; [discriminate|].
  inversion E4 as [[W Q]]; clear E4.
  split; [exact P|]; split; [reflexivity|]; split.
  - cbn [cwd record]; now rewrite C3, C2, C1.
  - exists (evs1 ++ evs2 ++ evs3); eexists; split.
    + cbn [trace record]; rewrite T3, T2, T1, C3, C2, C1.
      unfold shasum_request; rewrite <- !app_assoc; reflexivity.
    + apply build_events_are_no_requests.
      apply Forall_app; split; [exact F1|].
      apply Forall_app; split; [exact F2 | exact F3].
Qed.

Lemma makeAsset_returns_the_two_paths_witness :
  "/w/release/linux-5.4.0.tar.gz"%string
  = Path.join (Path.join (cwd Host.linux) "release") "linux-5.4.0.tar.gz"
  /\ "/w/release/linux-5.4.0.sha256.txt"%string
     = sha256FilePathOf "/w/release/linux-5.4.0.tar.gz"
  /\ cwd (fst (makeAsset "OTP-23.0" "linux-5.4.0.tar.gz" Host.linux))
     = cwd Host.linux
  /\ exists evs digest,
      trace (fst (makeAsset "OTP-23.0" "linux-5.4.0.tar.gz" Host.linux))
      = trace Host.linux
        ++ evs ++ [EvExec (shasum_request (cwd Host.linux)
                                          "/w/release/linux-5.4.0.tar.gz");
                   EvWriteFile "/w/release/linux-5.4.0.sha256.txt" digest]
      /\ filter is_request evs = [].
Proof.
  apply (@makeAsset_returns_the_two_paths
           "OTP-23.0" "linux-5.4.0.tar.gz" Host.linux
           (fst (makeAsset "OTP-23.0" "linux-5.4.0.tar.gz" Host.linux))).
  vm_compute; reflexivity.
Defined.

(** ** The uploads of a version *)

(** X17.  A version whose asset is missing (or listed under the id 0) is
    built and uploaded to the release that was resolved for it: when the
    checkout, the release, the listing and [makeAsset] succeed, [publish]
    returns, and after the build it does nothing but send the upload of the
    archive and then the upload of the sidecar, both to the upload URL
    that [getOrCreateRelease] returned, each under the base name of its
    path. *)
Theorem publish_uploads_to_the_resolved_release
        (owner repo assetName otpVersion : string) (w w1 w2 w3 w4 : World)
        (releaseId : Z) (uploadUrl : string) (assetId : option Z)
        (archivedPath sha256Path : string) (size : string -> option Z) :
  setup otpVersion w = (w1, Ok tt) ->
  getOrCreateRelease owner repo otpVersion w1 = (w2, Ok (releaseId, uploadUrl)) ->
  getAsset owner repo releaseId assetName w2 = (w3, Ok assetId) ->
  assetId = None \/ assetId = Some 0 ->
  makeAsset otpVersion assetName w3 = (w4, Ok (archivedPath, sha256Path)) ->
  (forall t p, stat_size w4 t p = size p) ->
  snd (publish owner repo assetName otpVersion w) = Ok tt
  /\ trace (fst (publish owner repo assetName otpVersion w))
     = trace w4 ++ upload_of uploadUrl size archivedPath
               ++ upload_of uploadUrl size sha256Path.
Proof.
  intros Hs Hg Ha Hid Hm Hz.
  assert (E : publish owner repo assetName otpVersion w
              = uploadAssets uploadUrl [archivedPath; sha256Path] w4).
  { unfold publish; unfold bind at 1; rewrite Hs; cbv beta iota.
    unfold bind at 1; rewrite Hg; cbv beta iota.
    unfold bind at 1; rewrite Ha; cbv beta iota.
    replace (negb (assetId_truthy assetId)) with true
      by (destruct Hid as [-> | ->]; reflexivity).
    unfold bind at 1; rewrite Hm; reflexivity. }
  rewrite E; split; [apply uploadAssets_returns|].
  pose proof (@uploads_in_the_trace uploadUrl [archivedPath; sha256Path] size w4 Hz)
    as T.
  cbn [flat_map] in T; rewrite app_nil_r in T.
  unfold uploadAssets, bind, await.
  now destruct (mapM _ [archivedPath; sha256Path] w4) as [w' [els|e]].
Qed.

Lemma publish_uploads_to_the_resolved_release_witness :
  snd (publish "niku" "otp-kuroko" "linux-5.4.0.tar.gz" "OTP-23.0" Host.linux)
  = Ok tt
  /\ filter is_request
            (trace (fst (publish "niku" "otp-kuroko" "linux-5.4.0.tar.gz"
                                 "OTP-23.0" Host.linux)))
     = [EvGetReleaseByTag "niku" "otp-kuroko" "OTP-23.0";
        EvCreateRelease "niku" "otp-kuroko" "OTP-23.0";
        EvListAssetsForRelease "niku" "otp-kuroko" 1;
        EvUploadReleaseAsset "https://uploads.github.com/releases/1/assets"
                             "linux-5.4.0.tar.gz" 1024
                             "/w/release/linux-5.4.0.tar.gz";
        EvUploadReleaseAsset "https://uploads.github.com/releases/1/assets"
                             "linux-5.4.0.sha256.txt" 1024
                             "/w/release/linux-5.4.0.sha256.txt"].
Proof.
  pose (w1 := fst (setup "OTP-23.0" Host.linux)).
  pose (w2 := fst (getOrCreateRelease "niku" "otp-kuroko" "OTP-23.0" w1)).
  pose (w3 := fst (getAsset "niku" "otp-kuroko" 1 "linux-5.4.0.tar.gz" w2)).
  pose (w4 := fst (makeAsset "OTP-23.0" "linux-5.4.0.tar.gz" w3)).
  destruct (@publish_uploads_to_the_resolved_release
              "niku" "otp-kuroko" "linux-5.4.0.tar.gz" "OTP-23.0"
              Host.linux w1 w2 w3 w4
              1 "https://uploads.github.com/releases/1/assets" None
              "/w/release/linux-5.4.0.tar.gz" "/w/release/linux-5.4.0.sha256.txt"
              (fun _ => Some 1024)) as (R & T).
  - vm_compute; reflexivity.
  - vm_compute; reflexivity.
  - vm_compute; reflexivity.
  - left; reflexivity.
  - vm_compute; reflexivity.
  - intros t p; reflexivity.
  - split; [exact R|].
    rewrite T; vm_compute; reflexivity.
Defined.

(** ** The working directory after a failed packaging *)












(** ** The repository of the run *)

(** X5.  With the token and the repository given, [prepare] asks [uname]
    for the asset name and then [git tag --list] for the versions, with the
    pattern of the [target-pattern] input, or [OTP-*] when that input is
    empty.  The versions are the lines [git] printed, as printed: in that
    order, none dropped, none merged.  The owner is the text of
    GITHUB_REPOSITORY before its first slash and the repository the text
    between its first two slashes; the repository is [undefined] exactly
    when GITHUB_REPOSITORY has no slash. *)
Theorem prepare_lists_the_tags_of_the_pattern (w : World) (repository : string) :
  let uname := mkExec (cwd w) "uname" ["-s"; "-r"] None in
  let given := getInput w "target-pattern" in
  let pattern := if String.eqb given EmptyString then "OTP-*"%string else given in
  let tags := mkExec (cwd w) "git" ["tag"; "--list"; pattern] None in
  let named := child_process w (now w) uname in
  let listed := child_process w (S (now w)) tags in
  getInput w "secret-token" <> EmptyString ->
  GITHUB_REPOSITORY w = Some repository ->
  ex_failure named = None ->
  ex_failure listed = None ->
  prepare w
  = (record (EvExec tags) (record (EvExec uname) w),
     Ok (nth 0 (split "/" repository) EmptyString,
         part (split "/" repository) 1,
         (replaceFirstSpace
            (toLowerCase (trim (String.concat EmptyString (ex_lines named))))
          ++ ".tar.gz")%string,
         ex_lines listed))
  /\ (part (split "/" repository) 1 = NoStr
      <-> occurrences "/" repository = 0%nat)
  /\ (forall owner repo tail,
         occurrences "/" owner = 0%nat ->
         occurrences "/" repo = 0%nat ->
         repository = (owner ++ "/" ++ repo)%string
         \/ repository = (owner ++ "/" ++ repo ++ "/" ++ tail)%string ->
         nth 0 (split "/" repository) EmptyString = owner
         /\ part (split "/" repository) 1 = Str repo).
Proof.
  intros uname given pattern tags named listed Ht Hr Hn Hl.
  split; [|split].
  - apply String.eqb_neq in Ht.
    unfold prepare, ownerAndRepo, getAssetName, getOTPVersions, ask, bind, ret.
    cbv beta iota; rewrite newGitHub_rejects_no_token, Ht.
    cbv beta iota; rewrite Hr.
    cbv beta iota; rewrite exec_succeeds by exact Hn.
    cbv beta iota; rewrite exec_succeeds by (rewrite now_record; exact Hl).
    rewrite now_record; reflexivity.
  - pose proof (length_split "/" repository) as L.
    unfold part.
    destruct (split "/" repository) as [|a [|b r]]; simpl in L |- *;
      [discriminate L | split; intros H; [lia | reflexivity]
      | split; intros H; [discriminate H | lia]].
  - intros owner repo tail Ho Hp [E|E]; rewrite E.
    + change (owner ++ "/" ++ repo)%string with (owner ++ String "/" repo)%string.
      rewrite split_at_the_first_sep, split_without_sep by assumption.
      split; reflexivity.
    + change (owner ++ "/" ++ repo ++ "/" ++ tail)%string
        with (owner ++ String "/" (repo ++ String "/" tail))%string.
      rewrite !split_at_the_first_sep by assumption.
      split; reflexivity.
Qed.

Lemma prepare_lists_the_tags_of_the_pattern_witness :
  prepare Host.linux
  = (record (EvExec (mkExec "/w" "git" ["tag"; "--list"; "OTP-*"] None))
            (record (EvExec (mkExec "/w" "uname" ["-s"; "-r"] None)) Host.linux),
     Ok ("niku", Str "otp-kuroko", "linux-5.4.0.tar.gz",
         ["OTP-23.0"; "OTP-23.1"])%string)
  /\ snd (prepare Host.without_slash)
     = Ok ("niku", NoStr, "linux-5.4.0.tar.gz", ["OTP-23.0"; "OTP-23.1"])%string.
Proof.
  split.
  - apply (@prepare_lists_the_tags_of_the_pattern Host.linux "niku/otp-kuroko");
      [discriminate | reflexivity | reflexivity | reflexivity].
  - rewrite (proj1 (@prepare_lists_the_tags_of_the_pattern
                      Host.without_slash "niku"
                      ltac:(discriminate) eq_refl eq_refl eq_refl)).
    reflexivity.
Defined.

Lemma getOrCreateRelease_without_a_repo (owner tag : string) (w : World) :
  getOrCreateRelease owner NoStr tag w
  = (w, Throw (JsError ("Unexpected error occured: "
                        ++ JSON_stringify w (missing_parameter "repo")))).
Proof. reflexivity. Qed.

Lemma publish_without_a_repo (owner assetName otpVersion : string) (w : World) :
  publish owner NoStr assetName otpVersion w
  = match setup otpVersion w with
    | (w1, Ok _) =>
        (w1, Throw (JsError ("Unexpected error occured: "
                             ++ JSON_stringify w1 (missing_parameter "repo"))))
    | (w1, Throw e) => (w1, Throw e)
    end.
Proof.
  unfold publish; unfold bind at 1.
  destruct (setup otpVersion w) as [w1 [[]|e]]; [|reflexivity].
  unfold bind at 1; now rewrite getOrCreateRelease_without_a_repo.
Qed.

Lemma setup_is_idle (otpVersion : string) : emits idle (setup otpVersion).
Proof.
  unfold setup.
  repeat (apply emits_bind; [|intros _]);
    try apply emits_ret; apply emits_exec; now split.
Qed.

Lemma iteration_without_a_repo_is_idle (owner assetName otpVersion : string) :
  emits idle (iteration owner NoStr assetName otpVersion).
Proof.
  unfold iteration.
  apply emits_bind; [now apply emits_emit | intros _].
  apply emits_try_catch; [|intros e; now apply emits_emit].
  intros w; rewrite publish_without_a_repo.
  destruct (setup_is_idle otpVersion w) as (evs & T & F).
  exists evs; split; [|exact F].
  now destruct (setup otpVersion w) as [w1 [[]|e]].
Qed.

Lemma forEach_without_a_repo_is_idle
      (owner assetName : string) (otpVersions : list string) :
  emits idle (forEach (iteration owner NoStr assetName) otpVersions).
Proof.
  induction otpVersions as [|v vs IH]; [apply emits_ret|].
  cbn [forEach]; apply emits_bind;
    [apply iteration_without_a_repo_is_idle | intros _; exact IH].
Qed.

Lemma prepare_is_idle : emits idle prepare.
Proof.
  unfold prepare, newGitHub, ownerAndRepo, getAssetName, getOTPVersions.
  apply emits_bind; [apply emits_ask | intros token].
  apply emits_bind;
    [destruct (String.eqb token EmptyString);
     [apply emits_throw | apply emits_ret] | intros _].
  apply emits_bind.
  { apply emits_bind; [apply emits_ask | intros [r|]];
      [apply emits_ret | apply emits_throw]. }
  intros names.
  apply emits_bind;
    [apply emits_bind; [now apply emits_exec | intros; apply emits_ret]
    | intros assetName].
  apply emits_bind; [apply emits_ask | intros given].
  apply emits_bind; [now apply emits_exec | intros; apply emits_ret].
Qed.

Lemma prepare_reads_the_repository (w w' : World) (repository owner : string)
      (repo : str) (assetName : string) (otpVersions : list string) :
  GITHUB_REPOSITORY w = Some repository ->
  prepare w = (w', Ok (owner, repo, assetName, otpVersions)) ->
  repo = part (split "/" repository) 1.
Proof.
  intros Hr.
  unfold prepare, ownerAndRepo, getAssetName, getOTPVersions, newGitHub,
    ask, bind, ret, throw.
  destruct (String.eqb _ EmptyString); [discriminate|].
  rewrite Hr; cbv beta iota.
  destruct (exec "uname" _ _ w) as [w1 [l1|e1]]; [|discriminate].
  destruct (exec "git" _ _ w1) as [w2 [l2|e2]]; [|discriminate].
  cbn [fst snd]; intros E; now inversion E.
Qed.

(** X18.  A GITHUB_REPOSITORY without a slash leaves the repository
    [undefined], and the client refuses every call for want of it before
    anything is sent: each version is checked out and then fails with the
    unexpected error that [getRelease] makes of the refusal, which the
    loop reports; the whole run sends no request and patches, builds,
    packages and uploads nothing. *)
Theorem run_without_a_slash_sends_no_request (w : World) (repository : string) :
  GITHUB_REPOSITORY w = Some repository ->
  occurrences "/" repository = 0%nat ->
  (forall w' owner repo assetName otpVersions,
      prepare w = (w', Ok (owner, repo, assetName, otpVersions)) ->
      repo = NoStr
      /\ forall otpVersion w0 w1,
          setup otpVersion (record (EvInfo ("Starting " ++ otpVersion ++ ".")) w0)
          = (w1, Ok tt) ->
          iteration owner repo assetName otpVersion w0
          = (record
               (EvError
                  (report otpVersion
                     (JsError ("Unexpected error occured: "
                               ++ JSON_stringify w1 (missing_parameter "repo")))))
               w1,
             Ok tt))
  /\ exists evs,
      trace (fst (run w)) = trace w ++ evs /\ Forall idle evs.
Proof.
  intros Hr Hs.
  assert (N : forall w' owner repo assetName otpVersions,
             prepare w = (w', Ok (owner, repo, assetName, otpVersions)) ->
             repo = NoStr).
  { intros w' owner repo assetName otpVersions E.
    rewrite (@prepare_reads_the_repository w w' repository owner repo
               assetName otpVersions Hr E).
    pose proof (length_split "/" repository) as L; rewrite Hs in L.
    unfold part; destruct (split "/" repository) as [|a [|b r]];
      simpl in L; try discriminate; reflexivity. }
  split.
  - intros w' owner repo assetName otpVersions E.
    rewrite (N _ _ _ _ _ E); split; [reflexivity|].
    intros otpVersion w0 w1 S.
    unfold iteration; unfold bind at 1; unfold emit at 1; cbv beta iota.
    unfold try_catch; rewrite publish_without_a_repo, S; reflexivity.
  - unfold run, try_catch; unfold bind at 1.
    destruct (prepare_is_idle w) as (evs1 & T1 & F1).
    destruct (prepare w) as [w' [[[[owner repo] assetName] vs]|e]] eqn:E;
      cbn [fst] in T1.
    + rewrite (N _ _ _ _ _ eq_refl).
      destruct (forEach_without_a_repo_is_idle owner assetName vs w')
        as (evs2 & T2 & F2).
      pose proof (forEach_returns (iteration owner NoStr assetName) vs
                    (iteration_returns owner NoStr assetName) w') as R.
      destruct (forEach (iteration owner NoStr assetName) vs w') as [w2 r];
        cbn [fst snd] in *; subst r; cbn [fst].
      exists (evs1 ++ evs2); split; [now rewrite T2, T1, app_assoc|].
      now apply Forall_app.
    + exists (evs1 ++ [EvSetFailed (message_of e)]); split.
      * cbn [emit fst trace record]; now rewrite T1, app_assoc.
      * apply Forall_app; split; [exact F1 | repeat constructor].
Qed.

Lemma run_without_a_slash_sends_no_request_witness :
  (iteration "niku" NoStr "linux-5.4.0.tar.gz" "OTP-23.0"
             (fst (prepare Host.without_slash))
   = (record
        (EvError
           ("An error occured in OTP-23.0 process, name: Error, message: "
            ++ "Unexpected error occured: "
            ++ Host.rendering 0 (missing_parameter "repo")))
        (fst (setup "OTP-23.0"
                    (record (EvInfo "Starting OTP-23.0.")
                            (fst (prepare Host.without_slash))))),
      Ok tt))
  /\ exists evs,
      trace (fst (run Host.without_slash)) = trace Host.without_slash ++ evs
      /\ Forall idle evs.
Proof.
  pose (T := @run_without_a_slash_sends_no_request Host.without_slash "niku"
               eq_refl eq_refl).
  split; [|exact (proj2 T)].
  destruct (proj1 T (fst (prepare Host.without_slash)) "niku"%string NoStr
                  "linux-5.4.0.tar.gz"%string ["OTP-23.0"; "OTP-23.1"]%string)
    as [_ I]; [vm_compute; reflexivity|].
  rewrite (I "OTP-23.0"%string (fst (prepare Host.without_slash))
             (fst (setup "OTP-23.0"
                         (record (EvInfo "Starting OTP-23.0.")
                                 (fst (prepare Host.without_slash))))))
    by (vm_compute; reflexivity).
  reflexivity.
Defined.
